(** * extrace (FreeBSD): exec tracing over kqueue/kvm

  A shallow embedding of [extrace.c] in its two revisions: the revision
  that only traces exec (module [Exec_only]) and the revision that also
  reports exits with [-t] and keeps the [pid_db] table (module [Ledger]
  below).  The kernel and libc are external: their answers are taken from
  a [platform] record of oracles indexed by the number of calls made so
  far, so that two fetches of the same process record may disagree, as
  they can on a live system. *)

From Stdlib Require Import ZArith Ascii String DecimalString.
From stdpp Require Import base numbers list strings.

Local Open Scope Z_scope.

(** ** C strings *)

Module Cstr.

(** A C string is modelled by the [string] of its bytes before the
    terminating NUL. *)

Definition ch (n : nat) : ascii := ascii_of_nat n.

Definition squote : ascii := ch 39.
Definition dquote : ascii := ch 34.
Definition backslash : ascii := ch 92.
Definition newline : ascii := ch 10.
Definition tab : ascii := ch 9.
Definition space : ascii := ch 32.
Definition dollar : ascii := ch 36.
Definition backtick : ascii := ch 96.

Definition of_chars (l : list ascii) : string := string_of_list_ascii l.

Fixpoint mem (c : ascii) (set : string) : bool :=
  match set with
  | EmptyString => false
  | String x set' => if Ascii.eqb c x then true else mem c set'
  end.

(** [strpbrk s accept]: the suffix of [s] starting at its first byte that
    occurs in [accept], or [None] (the NULL pointer) when there is none. *)
Fixpoint strpbrk (s accept : string) : option string :=
  match s with
  | EmptyString => None
  | String c s' => if mem c accept then Some s else strpbrk s' accept
  end.

(** [strchr s c] for [c] other than NUL: the prefix before the first [c]
    and the suffix after it. *)
Fixpoint strchr (s : string) (c : ascii) : option (string * string) :=
  match s with
  | EmptyString => None
  | String x s' =>
      if Ascii.eqb x c then Some (EmptyString, s')
      else match strchr s' c with
           | Some (pre, post) => Some (String x pre, post)
           | None => None
           end
  end.

(** [snprintf(buf, size, "%s", s)]: at most [size - 1] bytes are kept. *)
Fixpoint truncate (n : nat) (s : string) : string :=
  match n, s with
  | S n', String c s' => String c (truncate n' s')
  | _, _ => EmptyString
  end.


End Cstr.

(** ** The quoting formatter *)

Module Quote.
Import Cstr.

(** The second argument of [strpbrk] in [print_shquoted]: the bytes 1..32,
    the shell's special characters and DEL. *)
Definition special : string :=
  of_chars (map ch (seq 1 32))
  +:+ of_chars [backtick; ch 94; ch 35; ch 42; ch 91; ch 93; ch 61; ch 124;
                backslash; ch 63; dollar; ch 123; ch 125; ch 40; ch 41;
                squote; dquote; ch 60; ch 62; ch 38; ch 59; ch 127].

(** The loop of [print_shquoted]: what is written for the bytes of [s]. *)
Fixpoint quote_body (s : string) : string :=
  match s with
  | EmptyString => EmptyString
  | String c s' =>
      (if Ascii.eqb c squote then
         of_chars [squote; backslash; squote; squote]
       else if Ascii.eqb c newline then
         of_chars [squote; dollar; squote; backslash; ch 110; squote; squote]
       else String c EmptyString)
      +:+ quote_body s'
  end.

(** [print_shquoted s]: the bytes written to [output]. *)
Definition print_shquoted (s : string) : string :=
  match s, strpbrk s special with
  | String _ _, None => s
  | _, _ => String squote (quote_body s +:+ String squote EmptyString)
  end.

End Quote.

(** ** Shell words

  The reader against which the quoting formatter is judged: the token
  recognition and quote removal of the POSIX shell command language
  (XCU 2.2 and 2.3, with the dollar-single-quotes of the 2024 edition),
  restricted to command lines that are a plain list of words.  No word
  expansion is performed: an input whose reading needs one (an unquoted
  or double-quoted [$] or backquote), an operator, a comment or an
  unquoted newline is refused with [None]. *)

Module Sh.
Import Cstr.

Inductive mode : Type :=
| Out (w : option string)   (* outside quotes; [Some w]: a word is open *)
| Esc (w : option string)   (* after an unquoted backslash *)
| Dol (w : option string)   (* after an unquoted dollar sign *)
| SQ (w : string)           (* inside single quotes *)
| DQ (w : string)           (* inside double quotes *)
| DQEsc (w : string)        (* after a backslash inside double quotes *)
| CQ (w : string)           (* inside dollar-single-quotes *)
| CQEsc (w : string).       (* after a backslash inside dollar-single-quotes *)

Definition snoc (w : string) (c : ascii) : string := w +:+ String c EmptyString.
Definition open (w : option string) : string := default EmptyString w.

Definition is_blank (c : ascii) : bool := Ascii.eqb c space || Ascii.eqb c tab.
Definition is_operator (c : ascii) : bool :=
  mem c (of_chars [ch 124; ch 38; ch 59; ch 60; ch 62; ch 40; ch 41]).

(** The escapes of dollar-single-quotes that name one byte by a letter. *)
Definition c_escape (c : ascii) : option ascii :=
  if Ascii.eqb c (ch 110) then Some newline
  else if Ascii.eqb c (ch 116) then Some tab
  else if Ascii.eqb c (ch 114) then Some (ch 13)
  else if Ascii.eqb c (ch 97) then Some (ch 7)
  else if Ascii.eqb c (ch 98) then Some (ch 8)
  else if Ascii.eqb c (ch 101) then Some (ch 27)
  else if Ascii.eqb c (ch 102) then Some (ch 12)
  else if Ascii.eqb c (ch 118) then Some (ch 11)
  else if Ascii.eqb c backslash then Some backslash
  else if Ascii.eqb c squote then Some squote
  else if Ascii.eqb c dquote then Some dquote
  else None.

(** One byte of input: the words completed so far and the new mode. *)
Definition step (st : list string * mode) (c : ascii) : option (list string * mode) :=
  let '(ws, m) := st in
  match m with
  | Out w =>
      if is_blank c then
        Some (match w with Some x => ws ++ [x] | None => ws end, Out None)
      else if Ascii.eqb c backslash then Some (ws, Esc w)
      else if Ascii.eqb c squote then Some (ws, SQ (open w))
      else if Ascii.eqb c dquote then Some (ws, DQ (open w))
      else if Ascii.eqb c dollar then Some (ws, Dol w)
      else if Ascii.eqb c backtick || is_operator c || Ascii.eqb c newline then None
      else if Ascii.eqb c (ch 35) && negb (bool_decide (is_Some w)) then None
      else Some (ws, Out (Some (snoc (open w) c)))
  | Esc w =>
      if Ascii.eqb c newline then Some (ws, Out w)
      else Some (ws, Out (Some (snoc (open w) c)))
  | Dol w =>
      if Ascii.eqb c squote then Some (ws, CQ (open w)) else None
  | SQ w =>
      if Ascii.eqb c squote then Some (ws, Out (Some w)) else Some (ws, SQ (snoc w c))
  | DQ w =>
      if Ascii.eqb c dquote then Some (ws, Out (Some w))
      else if Ascii.eqb c backslash then Some (ws, DQEsc w)
      else if Ascii.eqb c dollar || Ascii.eqb c backtick then None
      else Some (ws, DQ (snoc w c))
  | DQEsc w =>
      if Ascii.eqb c newline then Some (ws, DQ w)
      else if Ascii.eqb c dollar || Ascii.eqb c backtick
              || Ascii.eqb c dquote || Ascii.eqb c backslash
      then Some (ws, DQ (snoc w c))
      else Some (ws, DQ (snoc (snoc w backslash) c))
  | CQ w =>
      if Ascii.eqb c squote then Some (ws, Out (Some w))
      else if Ascii.eqb c backslash then Some (ws, CQEsc w)
      else Some (ws, CQ (snoc w c))
  | CQEsc w =>
      match c_escape c with
      | Some x => Some (ws, CQ (snoc w x))
      | None => None
      end
  end.

Fixpoint run (st : list string * mode) (s : string) : option (list string * mode) :=
  match s with
  | EmptyString => Some st
  | String c s' =>
      match step st c with
      | Some st' => run st' s'
      | None => None
      end
  end.

(** The words of a command line, or [None] when it is not a plain list of
    words or ends inside a quotation. *)
Definition words (s : string) : option (list string) :=
  match run ([], Out None) s with
  | Some (ws, Out None) => Some ws
  | Some (ws, Out (Some w)) => Some (ws ++ [w])
  | _ => None
  end.

End Sh.


(** ** libc and FreeBSD headers *)

Module Libc.
Import Cstr.

(** [pid_t] and [int] are 32-bit signed integers. *)
Definition wrap32 (z : Z) : Z := (z + 2 ^ 31) mod 2 ^ 32 - 2 ^ 31.

Definition LONG_MAX : Z := 2 ^ 63 - 1.
Definition LONG_MIN : Z := - 2 ^ 63.

Definition isspace (c : ascii) : bool :=
  let n := nat_of_ascii c in
  Nat.eqb n 32 || (Nat.leb 9 n && Nat.leb n 13).

Definition digit (c : ascii) : option Z :=
  let n := nat_of_ascii c in
  if Nat.leb 48 n && Nat.leb n 57 then Some (Z.of_nat (n - 48)) else None.

Fixpoint skip_space (s : string) : string :=
  match s with
  | String c s' => if isspace c then skip_space s' else s
  | EmptyString => s
  end.

(** The digits at the head of [s], accumulated onto [acc]. *)
Fixpoint digits (acc : Z) (s : string) : Z :=
  match s with
  | String c s' =>
      match digit c with
      | Some d => digits (10 * acc + d) s'
      | None => acc
      end
  | EmptyString => acc
  end.

(** [strtol(s, NULL, 10)]: white space, an optional sign, digits; 0 when
    no digit is found; out-of-range values are clamped. *)
Definition strtol10 (s : string) : Z :=
  let v :=
    match skip_space s with
    | String c s' =>
        if Ascii.eqb c (ch 45) then - digits 0 s'
        else if Ascii.eqb c (ch 43) then digits 0 s'
        else digits 0 (String c s')
    | EmptyString => 0
    end in
  Z.max LONG_MIN (Z.min LONG_MAX v).

(** FreeBSD's [atoi] is [(int)strtol(s, NULL, 10)]. *)
Definition atoi (s : string) : Z := wrap32 (strtol10 s).

(** [printf("%d", z)]. *)
Definition fmt_d (z : Z) : string := NilZero.string_of_int (Z.to_int z).

(** [printf] of the empty string in a field of width [w >= 0]: [w] spaces. *)
Definition fmt_pad (w : Z) : string := of_chars (replicate (Z.to_nat w) space).

Record timeval : Type := Timeval { tv_sec : Z; tv_usec : Z }.

(** The [timersub] macro of <sys/time.h>. *)
Definition timersub (a b : timeval) : timeval :=
  let sec := tv_sec a - tv_sec b in
  let usec := tv_usec a - tv_usec b in
  if usec <? 0 then Timeval (sec - 1) (usec + 1000000) else Timeval sec usec.

(** <sys/wait.h> *)
Definition WSTATUS (x : Z) : Z := Z.land x 127.
Definition WSTOPPED : Z := 127.
Definition WIFSIGNALED (x : Z) : bool :=
  negb (WSTATUS x =? WSTOPPED) && negb (WSTATUS x =? 0) && negb (x =? 19).
Definition WTERMSIG (x : Z) : Z := WSTATUS x.
Definition WEXITSTATUS (x : Z) : Z := Z.shiftr x 8.

(** <sys/event.h>, <sys/signal.h>, <sys/proc.h>, <errno.h> *)
Definition EVFILT_PROC : Z := -5.
Definition EVFILT_SIGNAL : Z := -6.
Definition EV_ADD : Z := 1.
Definition NOTE_EXIT : Z := 2147483648.
Definition NOTE_EXEC : Z := 536870912.
Definition NOTE_TRACK : Z := 1.
Definition SIGINT : Z := 2.
Definition SIGCHLD : Z := 20.
Definition SZOMB : Z := 5.
Definition ESRCH : Z := 3.

Record kevent : Type := Kevent {
  ident : Z;
  filter : Z;
  flags : Z;
  fflags : Z;
  data : Z;
  udata : Z
}.

(** A [struct kevent] as [calloc] leaves it. *)
Definition kevent_zero : kevent := Kevent 0 0 0 0 0 0.

(** The [EV_SET] macro. *)
Definition EV_SET (i f fl ff d u : Z) : kevent := Kevent i f fl ff d u.

(** The fields of [struct kinfo_proc] that the program reads. *)
Record kinfo_proc : Type := Kinfo {
  ki_pid : Z;
  ki_ppid : Z;
  ki_stat : Z;
  ki_start : timeval
}.

End Libc.


(** ** The platform and the program state *)

Module Sys.
Import Cstr Libc.

(** What the kernel and libc answer.  Every oracle takes the number of
    calls made before it, so the answers may change between two calls. *)
Record platform : Type := Platform {
  (* kvm_getprocs(kd, KERN_PROC_PID, pid, &n) *)
  kvm_getprocs : nat -> Z -> option kinfo_proc;
  (* kvm_getprocs(kd, KERN_PROC_ALL, 0, &n) *)
  kvm_getprocs_all : nat -> option (list kinfo_proc);
  kvm_getargv : nat -> kinfo_proc -> option (list string);
  kvm_getenvv : nat -> kinfo_proc -> option (list string);
  kvm_geterr : nat -> string;
  (* sysctl of kern.proc.cwd and kern.proc.pathname: the value returned
     and the bytes found in the buffer afterwards *)
  sysctl_cwd : nat -> Z -> Z * string;
  sysctl_pathname : nat -> Z -> Z * string;
  gettimeofday : nat -> timeval;
  (* kevent(kq, changes, n, 0, 0, 0): 0, or the errno of a failure *)
  kevent_change : nat -> list kevent -> Z;
  (* kevent(kq, 0, 0, kev, 4, 0): the events received *)
  kevent_wait : nat -> list kevent;
  (* the positive results of waitpid(-1, &st, WNOHANG) up to the first
     result that is not positive *)
  waitpid_nohang : nat -> list (Z * Z);
  kqueue : nat -> Z;
  kvm_openfiles : nat -> bool;
  calloc : nat -> bool;
  fopen : nat -> string -> bool;
  fork : nat -> Z;
  execvp : nat -> list string -> bool;
  (* strerror(errno) at the time of a warn, err or perror *)
  strerror_errno : nat -> string;
  (* printf("%.3f", (double)tv_sec + (double)tv_usec / 1e6) *)
  fmt_seconds : timeval -> string;
  sys_signame : Z -> string;
  (* the value read from an automatic variable that was never assigned *)
  indeterminate : nat -> Z
}.

Definition CMDLINE_DB_MAX : nat := 32.
Definition PID_DB_SIZE : nat := 1024.

(** One element of [pid_db]. *)
Record slot : Type := Slot {
  pid : Z;
  depth : Z;
  start : timeval;
  cmdline : string
}.

Definition slot_zero : slot := Slot 0 0 (Timeval 0 0) EmptyString.

#[global] Instance slot_inhabited : Inhabited slot := populate slot_zero.

(** The option variables of the program. *)
Record options : Type := Options {
  flat : bool;
  full_path : bool;
  show_args : bool;
  show_cwd : bool;
  show_env : bool;
  show_exit : bool
}.

(** The static variables, the two streams and the kqueue. *)
Record state : Type := State {
  parent : Z;
  opt : options;
  quit : bool;
  pid_db : list slot;
  (* the file named by -o, when given *)
  output_file : option string;
  (* the bytes written to [output] and to standard error *)
  output : string;
  stderr : string;
  (* the change lists handed to kevent with the errno of each call
     (0 on success), latest first *)
  submitted : list (list kevent * Z);
  (* the number of calls made to the platform *)
  tick : nat
}.

Definition initial : state :=
  State 1 (Options false false true false false false) false
        (replicate PID_DB_SIZE slot_zero) None EmptyString EmptyString [] 0.

Definition set_parent (v : Z) (s : state) : state :=
  State v (opt s) (quit s) (pid_db s) (output_file s) (output s) (stderr s) (submitted s) (tick s).
Definition set_opt (v : options) (s : state) : state :=
  State (parent s) v (quit s) (pid_db s) (output_file s) (output s) (stderr s) (submitted s) (tick s).
Definition set_quit (v : bool) (s : state) : state :=
  State (parent s) (opt s) v (pid_db s) (output_file s) (output s) (stderr s) (submitted s) (tick s).
Definition set_pid_db (v : list slot) (s : state) : state :=
  State (parent s) (opt s) (quit s) v (output_file s) (output s) (stderr s) (submitted s) (tick s).
Definition set_output_file (v : option string) (s : state) : state :=
  State (parent s) (opt s) (quit s) (pid_db s) v (output s) (stderr s) (submitted s) (tick s).
Definition set_output (v : string) (s : state) : state :=
  State (parent s) (opt s) (quit s) (pid_db s) (output_file s) v (stderr s) (submitted s) (tick s).
Definition set_stderr (v : string) (s : state) : state :=
  State (parent s) (opt s) (quit s) (pid_db s) (output_file s) (output s) v (submitted s) (tick s).
Definition set_submitted (v : list (list kevent * Z)) (s : state) : state :=
  State (parent s) (opt s) (quit s) (pid_db s) (output_file s) (output s) (stderr s) v (tick s).
Definition set_tick (v : nat) (s : state) : state :=
  State (parent s) (opt s) (quit s) (pid_db s) (output_file s) (output s) (stderr s) (submitted s) v.

Definition set_flat (o : options) : options :=
  Options true (full_path o) (show_args o) (show_cwd o) (show_env o) (show_exit o).
Definition set_full_path (o : options) : options :=
  Options (flat o) true (show_args o) (show_cwd o) (show_env o) (show_exit o).
Definition clear_show_args (o : options) : options :=
  Options (flat o) (full_path o) false (show_cwd o) (show_env o) (show_exit o).
Definition set_show_cwd (o : options) : options :=
  Options (flat o) (full_path o) (show_args o) true (show_env o) (show_exit o).
Definition set_show_env (o : options) : options :=
  Options (flat o) (full_path o) (show_args o) (show_cwd o) true (show_exit o).
Definition set_show_exit (o : options) : options :=
  Options (flat o) (full_path o) (show_args o) (show_cwd o) (show_env o) true.

(** How a computation ends. *)
Inductive outcome (A : Type) : Type :=
| Done (a : A) (s : state)      (* it returns [a] *)
| Exit (code : Z) (s : state)   (* exit(code), or main returns code *)
| Execed (argv : list string) (s : state)  (* execvp replaced the program *)
| Fault (s : state)             (* undefined behaviour *)
| OutOfFuel.                    (* the model's bound on loops was reached *)

Arguments Done {A} a s.
Arguments Exit {A} code s.
Arguments Execed {A} argv s.
Arguments Fault {A} s.
Arguments OutOfFuel {A}.

Definition M (A : Type) : Type := state -> outcome A.

Definition ret {A : Type} (a : A) : M A := fun s => Done a s.

Definition bind {A B : Type} (m : M A) (k : A -> M B) : M B :=
  fun s =>
    match m s with
    | Done a s' => k a s'
    | Exit c s' => Exit c s'
    | Execed v s' => Execed v s'
    | Fault s' => Fault s'
    | OutOfFuel => OutOfFuel
    end.

Notation "'let*' x ':=' m 'in' k" := (bind m (fun x => k))
  (at level 10, x pattern, m at level 100, k at level 200).
Notation "m >> k" := (bind m (fun _ => k))
  (at level 80, right associativity).

Definition gets {A : Type} (f : state -> A) : M A := fun s => Done (f s) s.
Definition modify (f : state -> state) : M unit := fun s => Done tt (f s).
Definition exit {A : Type} (code : Z) : M A := fun s => Exit code s.
Definition fault {A : Type} : M A := fun s => Fault s.
Definition out_of_fuel {A : Type} : M A := fun _ => OutOfFuel.
Definition when (b : bool) (m : M unit) : M unit := if b then m else ret tt.

(** A call to the platform: the oracle is asked at the current tick. *)
Definition sys {A : Type} (f : nat -> A) : M A :=
  fun s => Done (f (tick s)) (set_tick (S (tick s)) s).

(** Writing to [output] and to standard error. *)
Definition out (x : string) : M unit := modify (fun s => set_output (output s +:+ x) s).
Definition err_out (x : string) : M unit := modify (fun s => set_stderr (stderr s +:+ x) s).

Definition nl : string := String newline EmptyString.

(** [pid_db[i].field = v] for an index [i] inside the array. *)
Definition update_slot (i : nat) (f : slot -> slot) : M unit :=
  modify (fun s => set_pid_db (<[i := f (pid_db s !!! i)]> (pid_db s)) s).

Definition with_pid (v : Z) (x : slot) : slot := Slot v (depth x) (start x) (cmdline x).
Definition with_depth (v : Z) (x : slot) : slot := Slot (pid x) v (start x) (cmdline x).
Definition with_start (v : timeval) (x : slot) : slot := Slot (pid x) (depth x) v (cmdline x).
Definition with_cmdline (v : string) (x : slot) : slot := Slot (pid x) (depth x) (start x) v.

Section Platform.
Variable P : platform.

(** [warn(3)] and [err(3)]: program name, message, [strerror(errno)]. *)
Definition warn (msg : string) : M unit :=
  let* e := sys (strerror_errno P) in
  err_out ("extrace: " +:+ msg +:+ ": " +:+ e +:+ nl).

Definition err {A : Type} (code : Z) (msg : string) : M A :=
  warn msg >> exit code.

(** [kevent(kq, changes, n, 0, 0, 0)]: the errno, 0 on success. *)
Definition kevent_register (changes : list kevent) : M Z :=
  let* e := sys (fun t => kevent_change P t changes) in
  modify (fun s => set_submitted ((changes, e) :: submitted s) s) >>
  ret e.

End Platform.

End Sys.

(** ** Output loops shared by the two revisions *)

Module Common.
Import Cstr Quote Libc Sys.

(** The loop over the remaining arguments of the exec handler. *)
Fixpoint print_args (args : list string) : M unit :=
  match args with
  | [] => ret tt
  | a :: rest => out " " >> out (print_shquoted a) >> print_args rest
  end.

(** The loop over the environment of the exec handler. *)
Fixpoint print_env (envp : list string) : M unit :=
  match envp with
  | [] => ret tt
  | e :: rest =>
      out " " >>
      (match strchr e (ch 61) with
       | Some (name, value) =>
           out (print_shquoted name) >> out "=" >> out (print_shquoted value)
       | None => out (print_shquoted e)
       end) >>
      print_env rest
  end.

End Common.

(** ** The revision with the [pid_db] table and [-t] *)

Module Ledger.
Import Cstr Quote Libc Sys Common.

(** The loop [for (i = 0; i < PID_DB_SIZE - 1; i++) if (pid_db[i].pid == 0
    || pid_db[i].pid == pid) break;] of [handle_exit] and [handle_exec],
    with [n] rounds left at index [i]: the value of [i] after the loop. *)
Fixpoint slot_scan (db : list slot) (p : Z) (n i : nat) : nat :=
  match n with
  | O => i
  | S n' =>
      if (pid (db !!! i) =? 0) || (pid (db !!! i) =? p) then i
      else slot_scan db p n' (S i)
  end.

Definition find_slot (db : list slot) (p : Z) : nat :=
  slot_scan db p (PID_DB_SIZE - 1) 0.

(** The loop [for (i = 0; i < PID_DB_SIZE - 1; i++) if (pid_db[i].pid ==
    ppid) d = pid_db[i].depth;] of [pid_depth]: the values of [i] and [d]
    after the loop, [d] being [None] while it was never assigned. *)
Fixpoint depth_scan (db : list slot) (ppid : Z) (n i : nat) (d : option Z)
  : nat * option Z :=
  match n with
  | O => (i, d)
  | S n' =>
      depth_scan db ppid n' (S i)
        (if pid (db !!! i) =? ppid then Some (depth (db !!! i)) else d)
  end.

Section Program.
Variable P : platform.

(** [pid_depth], with [fuel] bounding the nesting of its recursion.  The
    depth is an [int]; it counts the active calls, so [d + 1] stays far
    from the range of [int]. *)
Fixpoint pid_depth (fuel : nat) (p : Z) : M Z :=
  match fuel with
  | O => out_of_fuel
  | S fuel' =>
      let* kp := sys (fun t => kvm_getprocs P t p) in
      match kp with
      | None =>
          let* e := sys (kvm_geterr P) in
          err_out ("extrace: kvm_getprocs: " +:+ e +:+ nl) >>
          ret (-1)
      | Some kp =>
          let ppid := ki_ppid kp in
          let* root := gets parent in
          if p =? root then ret 0
          else if ppid =? root then ret 1
          else if ppid =? 0 then ret (-1)
          else
            let* db := gets pid_db in
            let '(i, d) := depth_scan db ppid (PID_DB_SIZE - 1) 0 None in
            let* d :=
              (if Nat.eqb i (PID_DB_SIZE - 1) then pid_depth fuel' ppid
               else match d with Some d => ret d | None => fault end) in
            if d =? -1 then ret (-1) else ret (d + 1)
      end
  end.

(** [handle_exit]. *)
Definition handle_exit (p status : Z) : M unit :=
  let* db := gets pid_db in
  let i := find_slot db p in
  let* o := gets opt in
  let d := depth (db !!! i) in
  if negb (flat o) && (d <? 0) then ret tt
  else
    when (negb (flat o)) (out (fmt_pad (2 * d))) >>
    out (fmt_d p +:+ "- ") >>
    out (print_shquoted (cmdline (db !!! i))) >>
    (if WIFSIGNALED status
     then out (" exited signal=" +:+ sys_signame P (WTERMSIG status))
     else out (" exited status=" +:+ fmt_d (WEXITSTATUS status))) >>
    let* now := sys (gettimeofday P) in
    let diff := timersub now (start (db !!! i)) in
    out (" time=" +:+ fmt_seconds P diff +:+ "s" +:+ nl) >>
    update_slot i (with_pid 0).

(** [snprintf(pid_db[i].cmdline, CMDLINE_DB_MAX, "%s", w)]: a store
    through an index outside the array is undefined. *)
Definition store_cmdline (i : Z) (w : string) : M unit :=
  if (0 <=? i) && (i <? Z.of_nat PID_DB_SIZE)
  then update_slot (Z.to_nat i) (with_cmdline (truncate (CMDLINE_DB_MAX - 1) w))
  else fault.

(** The [snprintf] into [pid_db[i].cmdline] and the [print_shquoted] of the
    first argument, which is the null pointer when the argument vector is
    empty. *)
Definition name_from_argv (i : Z) (argv : list string) : M unit :=
  match argv with
  | a :: _ => store_cmdline i a >> out (print_shquoted a)
  | [] => fault
  end.

(** The part of [handle_exec] under [if (show_exit || !flat)]: the value
    of [i] after it. *)
Definition claim_slot (p d : Z) (kp : kinfo_proc) : M Z :=
  let* db := gets pid_db in
  let* o := gets opt in
  let i := find_slot db p in
  when (Nat.eqb i (PID_DB_SIZE - 1))
    (err_out ("extrace: warning: pid_db of size "
              +:+ fmt_d (Z.of_nat PID_DB_SIZE) +:+ " overflowed" +:+ nl)) >>
  (if show_exit o && (pid (db !!! i) =? p) then
     when (negb (flat o)) (out (fmt_pad (2 * d))) >>
     let* now := sys (gettimeofday P) in
     let diff := timersub now (start (db !!! i)) in
     out (fmt_d p +:+ "- " +:+ cmdline (db !!! i) +:+ " execed time="
          +:+ fmt_seconds P diff +:+ "s" +:+ nl) >>
     update_slot i (with_start now)
   else
     update_slot i (fun x => with_start (ki_start kp) (with_depth d (with_pid p x)))) >>
  ret (Z.of_nat i).

(** The part of [handle_exec] that writes the trace line, from the
    indentation to the end of the line; [i] is the index left by the part
    above it. *)
Definition exec_line (p d i : Z) (kp : kinfo_proc) (argv : list string) : M unit :=
  let* o := gets opt in
  when (negb (flat o)) (out (fmt_pad (2 * d))) >>
  out (fmt_d p) >>
  when (show_exit o) (out "+") >>
  out " " >>
  when (show_cwd o)
    (let* r := sys (fun t => sysctl_cwd P t p) in
     (if negb (fst r =? 1) then out (print_shquoted (snd r)) else out "?") >>
     out " % ") >>
  (if full_path o then
     let* r := sys (fun t => sysctl_pathname P t p) in
     if negb (fst r =? 1)
     then store_cmdline i (snd r) >> out (print_shquoted (snd r))
     else name_from_argv i argv
   else name_from_argv i argv) >>
  when (show_args o)
    (match argv with
     | _ :: rest => print_args rest
     | [] => fault   (* pp was moved past the terminating null *)
     end) >>
  when (show_env o)
    (let* envp := sys (fun t => kvm_getenvv P t kp) in
     match envp with
     | Some l => print_env l
     | None => out " -"
     end) >>
  out nl.

(** [handle_exec]. *)
Definition handle_exec (fuel : nat) (p : Z) : M unit :=
  let* d := pid_depth fuel p in
  if d <? 0 then ret tt
  else
    let* kp := sys (fun t => kvm_getprocs P t p) in
    match kp with
    | None => out nl >> warn P "kvm_getprocs"
    | Some kp =>
        let* pp := sys (fun t => kvm_getargv P t kp) in
        match pp with
        | None => out nl >> warn P "kvm_getargv"
        | Some argv =>
            let* o := gets opt in
            let* i :=
              (if show_exit o || negb (flat o) then claim_slot p d kp
               else sys (indeterminate P)) in
            exec_line p d i kp argv
        end
    end.

(** The body of [case EVFILT_SIGNAL]: reap the children, then ask the
    loop to stop. *)
Fixpoint reap (children : list (Z * Z)) : M unit :=
  match children with
  | [] => ret tt
  | (p, wstatus) :: rest =>
      let* o := gets opt in
      when (show_exit o) (handle_exit p wstatus) >> reap rest
  end.

(** The [switch] on one received event. *)
Definition handle_event (fuel : nat) (ke : kevent) : M unit :=
  if filter ke =? EVFILT_SIGNAL then
    when (ident ke =? SIGCHLD)
      (let* children := sys (waitpid_nohang P) in reap children) >>
    modify (set_quit true)
  else if filter ke =? EVFILT_PROC then
    if negb (Z.land (fflags ke) NOTE_EXIT =? 0)
    then handle_exit (wrap32 (ident ke)) (wrap32 (data ke))
    else if negb (Z.land (fflags ke) NOTE_EXEC =? 0)
    then handle_exec fuel (wrap32 (ident ke))
    else ret tt
  else ret tt.

(** [for (i = 0; i < n; i++) { ...; if (quit) break; }] *)
Fixpoint handle_batch (fuel : nat) (kev : list kevent) : M unit :=
  match kev with
  | [] => ret tt
  | ke :: rest =>
      handle_event fuel ke >>
      let* q := gets quit in
      if q then ret tt else handle_batch fuel rest
  end.

(** [while (!quit) { n = kevent(kq, 0, 0, kev, 4, 0); ... }], for at most
    [rounds] calls of [kevent]. *)
Fixpoint dispatch (rounds fuel : nat) : M unit :=
  let* q := gets quit in
  if q then ret tt
  else
    match rounds with
    | O => out_of_fuel
    | S rounds' =>
        let* kev := sys (kevent_wait P) in
        handle_batch fuel (take 4 kev) >> dispatch rounds' fuel
    end.

Definition usage_text : string :=
  "Usage: extrace [-deflqt] [-o FILE] [-p PID|CMD...]" +:+ nl.

Definition usage {A : Type} : M A := err_out usage_text >> exit 1.

(** One round of the [getopt] loop: [c] is what [getopt] returned, [optarg]
    its argument. *)
Definition option_case (c : ascii) (optarg : string) : M unit :=
  let flag (f : options -> options) := modify (fun s => set_opt (f (opt s)) s) in
  if Ascii.eqb c "d" then flag set_show_cwd
  else if Ascii.eqb c "e" then flag set_show_env
  else if Ascii.eqb c "f" then flag set_flat
  else if Ascii.eqb c "l" then flag set_full_path
  else if Ascii.eqb c "p" then modify (set_parent (atoi optarg))
  else if Ascii.eqb c "q" then flag clear_show_args
  else if Ascii.eqb c "o" then
    let* ok := sys (fun t => fopen P t optarg) in
    if ok then modify (set_output_file (Some optarg))
    else
      let* e := sys (strerror_errno P) in
      err_out ("fopen: " +:+ e +:+ nl) >> exit 1
  else if Ascii.eqb c "t" then flag set_show_exit
  else if Ascii.eqb c "w" then ret tt
  else usage.

(** The [getopt] loop over the options that [getopt] reports, in order. *)
Fixpoint parse_options (opts : list (ascii * string)) : M unit :=
  match opts with
  | [] => ret tt
  | (c, optarg) :: rest => option_case c optarg >> parse_options rest
  end.

(** The change built for one listed process in the bootstrap loop. *)
Definition bootstrap_change (o : options) (kp : kinfo_proc) : kevent :=
  if (ki_pid kp =? 0) || (ki_ppid kp =? 0) then kevent_zero
  else if ki_stat kp =? SZOMB then kevent_zero
  else EV_SET (ki_pid kp) EVFILT_PROC EV_ADD
         (Z.lor (Z.lor NOTE_EXEC (if show_exit o then NOTE_EXIT else 0)) NOTE_TRACK)
         0 0.

(** The block under the label [again], for at most [tries] listings.
    [errno] is 0 before the call of [kevent] and is read after [warn] and
    [free], which keep it: it is the errno that [kevent] left. *)
Fixpoint bootstrap (tries : nat) : M unit :=
  match tries with
  | O => out_of_fuel
  | S tries' =>
      let* kp := sys (kvm_getprocs_all P) in
      match kp with
      | None =>
          let* e := sys (kvm_geterr P) in
          err_out ("extrace: kvm_getprocs ALL: " +:+ e +:+ nl) >> exit (-1)
      | Some procs =>
          let* mem := sys (calloc P) in
          if negb mem then err P 1 "calloc"
          else
            let* o := gets opt in
            let kevs := map (bootstrap_change o) procs in
            let* errno := kevent_register P kevs in
            when (negb (errno =? 0)) (warn P "kevent ALL") >>
            if errno =? ESRCH then bootstrap tries' else ret tt
      end
  end.

(** [main] up to the dispatch loop: [opts] is what [getopt] reports for the
    command line, and [operands] the arguments left at [optind].  What
    [getopt] itself writes about an option it does not know is not part of
    [stderr] here, and [signal(SIGINT, SIG_IGN)] leaves the state as it
    is.  Of the two processes that [fork] returns in, the child is the
    case [child = 0]. *)
Definition startup (tries : nat)
    (opts : list (ascii * string)) (operands : list string) : M unit :=
  parse_options opts >>
  let* root := gets parent in
  if negb (root =? 1) && negb (bool_decide (operands = [])) then usage
  else
    let* kq := sys (kqueue P) in
    if kq =? -1 then err P 1 "kqueue"
    else
      let* kd := sys (kvm_openfiles P) in
      if negb kd then err P 1 "kvm_open"
      else
        when (negb (bool_decide (operands = [])))
          (let* e := kevent_register P [EV_SET SIGCHLD EVFILT_SIGNAL EV_ADD 0 0 0] in
           if negb (e =? 0) then err P 1 "kevent"
           else
             let* child := sys (fork P) in
             modify (set_parent child) >>
             if child =? -1 then err P 1 "fork"
             else if child =? 0 then
               let* ok := sys (fun t => execvp P t operands) in
               if ok then (fun s => Execed operands s) else err P 1 "execvp"
             else ret tt) >>
        let* e := kevent_register P [EV_SET SIGINT EVFILT_SIGNAL EV_ADD 0 0 0] in
        if negb (e =? 0) then err P 1 "kevent"
        else
          let* root := gets parent in
          if negb (root =? 1) then
            let* e := kevent_register P
                        [EV_SET root EVFILT_PROC EV_ADD (Z.lor NOTE_EXEC NOTE_TRACK) 0 0] in
            if negb (e =? 0) then err P 1 "kevent" else ret tt
          else bootstrap tries.

(** [main]: the start-up, the dispatch loop, [return 0]. *)
Definition main (tries rounds fuel : nat)
    (opts : list (ascii * string)) (operands : list string) : M unit :=
  startup tries opts operands >> dispatch rounds fuel >> exit 0.

End Program.
End Ledger.

(** ** The revision that traces exec only *)

Module Exec_only.
Import Cstr Quote Libc Sys Common.

Section Program.
Variable P : platform.

(** [pid_depth], with [fuel] bounding the nesting of its recursion. *)
Fixpoint pid_depth (fuel : nat) (p : Z) : M Z :=
  match fuel with
  | O => out_of_fuel
  | S fuel' =>
      let* kp := sys (fun t => kvm_getprocs P t p) in
      match kp with
      | None =>
          let* e := sys (kvm_geterr P) in
          err_out ("extrace: kvm_getprocs: " +:+ e +:+ nl) >>
          ret (-1)
      | Some kp =>
          let ppid := ki_ppid kp in
          let* root := gets parent in
          if p =? root then ret 0
          else if ppid =? root then ret 1
          else if ppid =? 0 then ret (-1)
          else
            let* d := pid_depth fuel' ppid in
            if d =? -1 then ret (-1) else ret (d + 1)
      end
  end.

(** The first word of the line: [print_shquoted] of the first argument,
    which is the null pointer when the argument vector is empty. *)
Definition print_argv0 (argv : list string) : M unit :=
  match argv with
  | a :: _ => out (print_shquoted a)
  | [] => fault
  end.

(** [handle_msg]. *)
Definition handle_msg (fuel : nat) (p : Z) : M unit :=
  let* o := gets opt in
  let* go :=
    (if negb (flat o) then
       let* d := pid_depth fuel p in
       if d <? 0 then ret false else out (fmt_pad (2 * d)) >> ret true
     else ret true) in
  if negb go then ret tt
  else
    out (fmt_d p +:+ " ") >>
    when (show_cwd o)
      (let* r := sys (fun t => sysctl_cwd P t p) in
       (if negb (fst r =? 1) then out (print_shquoted (snd r)) else out "?") >>
       out " % ") >>
    let* kp := sys (fun t => kvm_getprocs P t p) in
    match kp with
    | None => err P 1 "kvm_getprocs"
    | Some kp =>
        let* pp := sys (fun t => kvm_getargv P t kp) in
        match pp with
        | None => err P 1 "kvm_getargv"
        | Some argv =>
            (if full_path o then
               let* r := sys (fun t => sysctl_pathname P t p) in
               if negb (fst r =? 1) then out (print_shquoted (snd r))
               else print_argv0 argv
             else print_argv0 argv) >>
            when (show_args o)
              (match argv with
               | _ :: rest => print_args rest
               | [] => fault   (* pp was moved past the terminating null *)
               end) >>
            when (show_env o)
              (let* envp := sys (fun t => kvm_getenvv P t kp) in
               match envp with
               | Some l => print_env l
               | None => out " -"
               end) >>
            out nl
        end
    end.

(** The [switch] on one received event. *)
Definition handle_event (fuel : nat) (ke : kevent) : M unit :=
  if filter ke =? EVFILT_SIGNAL then
    when (ident ke =? SIGCHLD)
      (let* children := sys (waitpid_nohang P) in ret tt) >>
    modify (set_quit true)
  else if filter ke =? EVFILT_PROC then
    if negb (Z.land (fflags ke) NOTE_EXEC =? 0)
    then handle_msg fuel (wrap32 (ident ke))
    else ret tt
  else ret tt.

Fixpoint handle_batch (fuel : nat) (kev : list kevent) : M unit :=
  match kev with
  | [] => ret tt
  | ke :: rest =>
      handle_event fuel ke >>
      let* q := gets quit in
      if q then ret tt else handle_batch fuel rest
  end.

Fixpoint dispatch (rounds fuel : nat) : M unit :=
  let* q := gets quit in
  if q then ret tt
  else
    match rounds with
    | O => out_of_fuel
    | S rounds' =>
        let* kev := sys (kevent_wait P) in
        handle_batch fuel (take 4 kev) >> dispatch rounds' fuel
    end.

Definition usage_text : string :=
  "Usage: extrace [-deflq] [-o FILE] [-p PID|CMD...]" +:+ nl.

Definition usage {A : Type} : M A := err_out usage_text >> exit 1.

Definition option_case (c : ascii) (optarg : string) : M unit :=
  let flag (f : options -> options) := modify (fun s => set_opt (f (opt s)) s) in
  if Ascii.eqb c "d" then flag set_show_cwd
  else if Ascii.eqb c "e" then flag set_show_env
  else if Ascii.eqb c "f" then flag set_flat
  else if Ascii.eqb c "l" then flag set_full_path
  else if Ascii.eqb c "p" then modify (set_parent (atoi optarg))
  else if Ascii.eqb c "q" then flag clear_show_args
  else if Ascii.eqb c "o" then
    let* ok := sys (fun t => fopen P t optarg) in
    if ok then modify (set_output_file (Some optarg))
    else
      let* e := sys (strerror_errno P) in
      err_out ("fopen: " +:+ e +:+ nl) >> exit 1
  else if Ascii.eqb c "w" then ret tt
  else usage.

Fixpoint parse_options (opts : list (ascii * string)) : M unit :=
  match opts with
  | [] => ret tt
  | (c, optarg) :: rest => option_case c optarg >> parse_options rest
  end.

Definition bootstrap_change (kp : kinfo_proc) : kevent :=
  if (ki_pid kp =? 0) || (ki_ppid kp =? 0) then kevent_zero
  else if ki_stat kp =? SZOMB then kevent_zero
  else EV_SET (ki_pid kp) EVFILT_PROC EV_ADD (Z.lor NOTE_EXEC NOTE_TRACK) 0 0.

Fixpoint bootstrap (tries : nat) : M unit :=
  match tries with
  | O => out_of_fuel
  | S tries' =>
      let* kp := sys (kvm_getprocs_all P) in
      match kp with
      | None =>
          let* e := sys (kvm_geterr P) in
          err_out ("extrace: kvm_getprocs ALL: " +:+ e +:+ nl) >> exit (-1)
      | Some procs =>
          let* mem := sys (calloc P) in
          if negb mem then err P 1 "calloc"
          else
            let kevs := map bootstrap_change procs in
            let* errno := kevent_register P kevs in
            when (negb (errno =? 0)) (warn P "kevent ALL") >>
            if errno =? ESRCH then bootstrap tries' else ret tt
      end
  end.

(** [main] up to the dispatch loop: [opts] is what [getopt] reports for the
    command line, and [operands] the arguments left at [optind].  What
    [getopt] itself writes about an option it does not know is not part of
    [stderr] here, and [signal(SIGINT, SIG_IGN)] leaves the state as it
    is.  Of the two processes that [fork] returns in, the child is the
    case [child = 0]. *)
Definition startup (tries : nat)
    (opts : list (ascii * string)) (operands : list string) : M unit :=
  parse_options opts >>
  let* root := gets parent in
  if negb (root =? 1) && negb (bool_decide (operands = [])) then usage
  else
    let* kq := sys (kqueue P) in
    if kq =? -1 then err P 1 "kqueue"
    else
      let* kd := sys (kvm_openfiles P) in
      if negb kd then err P 1 "kvm_open"
      else
        when (negb (bool_decide (operands = [])))
          (let* e := kevent_register P [EV_SET SIGCHLD EVFILT_SIGNAL EV_ADD 0 0 0] in
           if negb (e =? 0) then err P 1 "kevent"
           else
             let* child := sys (fork P) in
             modify (set_parent child) >>
             if child =? -1 then err P 1 "fork"
             else if child =? 0 then
               let* ok := sys (fun t => execvp P t operands) in
               if ok then (fun s => Execed operands s) else err P 1 "execvp"
             else ret tt) >>
        let* e := kevent_register P [EV_SET SIGINT EVFILT_SIGNAL EV_ADD 0 0 0] in
        if negb (e =? 0) then err P 1 "kevent"
        else
          let* root := gets parent in
          if negb (root =? 1) then
            let* e := kevent_register P
                        [EV_SET root EVFILT_PROC EV_ADD (Z.lor NOTE_EXEC NOTE_TRACK) 0 0] in
            if negb (e =? 0) then err P 1 "kevent" else ret tt
          else bootstrap tries.

(** [main]: the start-up, the dispatch loop, [return 0]. *)
Definition main (tries rounds fuel : nat)
    (opts : list (ascii * string)) (operands : list string) : M unit :=
  startup tries opts operands >> dispatch rounds fuel >> exit 0.

End Program.
End Exec_only.

(** ** Notions used to state the properties *)

Module Props.
Import Cstr Quote Sh Libc Sys Common.

(** A byte that the shell reads as itself outside quotes, also at the start
    of a word. *)
Definition plain (c : ascii) : bool :=
  negb (is_blank c) && negb (Ascii.eqb c backslash) && negb (Ascii.eqb c squote)
  && negb (Ascii.eqb c dquote) && negb (Ascii.eqb c dollar)
  && negb (Ascii.eqb c backtick || is_operator c || Ascii.eqb c newline)
  && negb (Ascii.eqb c (ch 35)).

(** The process table does not change while the program runs: every fetch
    of a process record answers from [tbl]. *)
Definition steady (P : platform) (tbl : Z -> option kinfo_proc) : Prop :=
  forall (t : nat) (p : Z), kvm_getprocs P t p = tbl p.

(** [chain tbl root p k]: the parent chain from [root] down to [p] has [k]
    hops, the record of every process on it can be fetched, the root occurs
    on it only as its first element, and no process between the root and
    [p] is process 0 (a parent pid of 0 means that there is no parent). *)
Inductive chain (tbl : Z -> option kinfo_proc) (root : Z) : Z -> nat -> Prop :=
| chain_root (kp : kinfo_proc) :
    tbl root = Some kp -> chain tbl root root 0
| chain_hop (p : Z) (kp : kinfo_proc) (k : nat) :
    tbl p = Some kp -> p <> root ->
    ki_ppid kp = root \/ ki_ppid kp <> 0 ->
    chain tbl root (ki_ppid kp) k ->
    chain tbl root p (S k).

(** [dead_end tbl root p n]: walking up from [p], after [n] hops and before
    the root is met, a process is reached whose record cannot be fetched or
    whose parent pid is 0. *)
Inductive dead_end (tbl : Z -> option kinfo_proc) (root : Z) : Z -> nat -> Prop :=
| dead_gone (p : Z) :
    tbl p = None -> dead_end tbl root p 0
| dead_orphan (p : Z) (kp : kinfo_proc) :
    tbl p = Some kp -> p <> root -> ki_ppid kp <> root -> ki_ppid kp = 0 ->
    dead_end tbl root p 0
| dead_hop (p : Z) (kp : kinfo_proc) (n : nat) :
    tbl p = Some kp -> p <> root -> ki_ppid kp <> root -> ki_ppid kp <> 0 ->
    dead_end tbl root (ki_ppid kp) n ->
    dead_end tbl root p (S n).

(** [s'] differs from [s] at most in the number of platform calls. *)
Definition ticked (s s' : state) : Prop :=
  s' = set_tick (tick s') s.

(** [s'] differs from [s] at most in the number of platform calls and in
    what was written to standard error. *)
Definition ticked_err (s s' : state) : Prop :=
  s' = set_tick (tick s') (set_stderr (stderr s') s).

(** [s'] differs from [s] at most in what a handler may touch: the table,
    the two streams and the number of platform calls. *)
Definition touched (s s' : state) : Prop :=
  s' = set_tick (tick s')
         (set_stderr (stderr s') (set_output (output s') (set_pid_db (pid_db s') s))).

(** [m] neither exits nor replaces the program, from any state, and when it
    ends, the state it ends in is related by [R] to the state it began in. *)
Definition safe {A : Type} (R : state -> state -> Prop) (m : M A) : Prop :=
  forall s : state,
    match m s with
    | Done _ s' => R s s'
    | Fault s' => R s s'
    | Exit _ _ => False
    | Execed _ _ => False
    | OutOfFuel => True
    end.

(** From [s], [m] returns a value and a state that satisfy [Q]. *)
Definition returns {A : Type} (m : M A) (s : state) (Q : A -> state -> Prop) : Prop :=
  match m s with
  | Done a s' => Q a s'
  | _ => False
  end.

(** The argument of the last [-p] among the options that [getopt] reports. *)
Fixpoint last_p (opts : list (ascii * string)) : option string :=
  match opts with
  | [] => None
  | (c, optarg) :: rest =>
      match last_p rest with
      | Some a => Some a
      | None => if Ascii.eqb c "p" then Some optarg else None
      end
  end.

(** [s] begins with a decimal number as [atoi] reads one: optional white
    space, an optional sign, then a digit. *)
Definition begins_with_number (s : string) : bool :=
  let digit_first (r : string) :=
    match r with
    | String d _ => bool_decide (is_Some (digit d))
    | EmptyString => false
    end in
  match skip_space s with
  | String c r =>
      if Ascii.eqb c (ch 45) || Ascii.eqb c (ch 43) then digit_first r
      else digit_first (String c r)
  | EmptyString => false
  end.

(** Every slot of the table is occupied. *)
Definition full (db : list slot) : Prop :=
  length db = PID_DB_SIZE /\ Forall (fun x => pid x <> 0) db.

(** No slot of the table holds [p]. *)
Definition untracked (db : list slot) (p : Z) : Prop :=
  Forall (fun x => pid x <> p) db.

(** The slots of the table that hold [p]. *)
Definition slots_of (db : list slot) (p : Z) : list nat :=
  List.filter (fun i => pid (db !!! i) =? p) (seq 0 (length db)).

(** A process that the bootstrap loop passes over. *)
Definition passed_over (kp : kinfo_proc) : bool :=
  (ki_pid kp =? 0) || (ki_ppid kp =? 0) || (ki_stat kp =? SZOMB).

(** The changes that [main] hands to [kevent] for a process to follow and
    for the interrupt signal. *)
Definition track (p : Z) : list kevent :=
  [EV_SET p EVFILT_PROC EV_ADD (Z.lor NOTE_EXEC NOTE_TRACK) 0 0].
Definition watch_sigint : list kevent :=
  [EV_SET SIGINT EVFILT_SIGNAL EV_ADD 0 0 0].

(** [s'] differs from [s] at most in the number of platform calls, in what
    was written to [output] and in the [cmdline] of slot [i]. *)
Definition renamed (i : nat) (s s' : state) : Prop :=
  stderr s' = stderr s
  /\ (forall j : nat, j <> i -> pid_db s' !! j = pid_db s !! j)
  /\ (forall x : slot, pid_db s !! i = Some x ->
        exists c : string, pid_db s' !! i = Some (with_cmdline c x)).

(** From any state [m] returns, in a state related by [R] to the one it
    began in. *)
Definition total {A : Type} (R : state -> state -> Prop) (m : M A) : Prop :=
  forall s : state, returns m s (fun _ s' => R s s').

(** What one round of the option loop does when files open: it goes on,
    having at most set the root, or it ends in the usage error. *)
Definition option_ok (c : ascii) (o : string) (s : state) (r : outcome unit)
    (text : string) : Prop :=
  (exists s1, r = Done tt s1 /\ stderr s1 = stderr s /\ submitted s1 = submitted s
              /\ parent s1 = (if Ascii.eqb c "p" then atoi o else parent s))
  \/ (exists s1, r = Exit 1 s1 /\ stderr s1 = stderr s +:+ text
                 /\ submitted s1 = submitted s).

(** The same for the whole option loop. *)
Definition parse_ok (opts : list (ascii * string)) (s : state) (r : outcome unit)
    (text : string) : Prop :=
  (exists s1, r = Done tt s1 /\ stderr s1 = stderr s /\ submitted s1 = submitted s
              /\ parent s1 = from_option atoi (parent s) (last_p opts))
  \/ (exists s1, r = Exit 1 s1 /\ stderr s1 = stderr s +:+ text
                 /\ submitted s1 = submitted s).

(** The state after one round of the bootstrap block, begun in [s], in
    which the changes [kevs] were handed to [kevent] and answered with the
    errno [e]: the call is logged and, unless [e] is 0, warned about. *)
Definition after_round (P : platform) (kevs : list kevent) (e : Z) (s : state) : state :=
  let s1 := set_submitted ((kevs, e) :: submitted s) (set_tick (3 + tick s) s) in
  if e =? 0 then s1
  else set_stderr (stderr s +:+ "extrace: kevent ALL: "
                   +:+ strerror_errno P (3 + tick s) +:+ nl)
         (set_tick (4 + tick s) s1).

(** The warning of [handle_exec] when the scan of the table finds no slot. *)
Definition overflow_warning : string :=
  "extrace: warning: pid_db of size 1024 overflowed" +:+ nl.

End Props.

(** ** A host to run the program on *)

Module Scenario.
Import Cstr Quote Sh Libc Sys Common Props.

(** Processes 10 and 20 are children of process 1, 30 is a child of 20 and
    40 a child of 30; process 50 has no parent; process 1 is init. *)
Definition table (p : Z) : option kinfo_proc :=
  if p =? 10 then Some (Kinfo 10 1 2 (Timeval 100 0))
  else if p =? 20 then Some (Kinfo 20 1 2 (Timeval 200 0))
  else if p =? 30 then Some (Kinfo 30 20 2 (Timeval 300 0))
  else if p =? 40 then Some (Kinfo 40 30 2 (Timeval 400 0))
  else if p =? 50 then Some (Kinfo 50 0 2 (Timeval 500 0))
  else if p =? 1 then Some (Kinfo 1 0 2 (Timeval 1 0))
  else None.

(** A listing of all processes: the kernel, init, process 10 and a zombie. *)
Definition listing : list kinfo_proc :=
  [Kinfo 0 0 2 (Timeval 0 0); Kinfo 1 0 2 (Timeval 1 0);
   Kinfo 10 1 2 (Timeval 100 0); Kinfo 60 1 SZOMB (Timeval 600 0)].

Definition seconds (tv : timeval) : string :=
  fmt_d (tv_sec tv) +:+ "." +:+ fmt_d (tv_usec tv / 1000).

(** A host whose clock stands at 1000.5 s: [getprocs] answers the fetches
    of a process record, [getargv] those of an argument vector, [change]
    the submissions to kevent, [events] the waits for events, and [files]
    tells whether files can be opened. *)
Definition make_host (getprocs : nat -> Z -> option kinfo_proc)
    (getargv : option (list string)) (change : nat -> Z)
    (events : list kevent) (files : bool) : platform :=
  Platform
    getprocs
    (fun _ => Some listing)
    (fun _ _ => getargv)
    (fun _ _ => Some [])
    (fun _ => "no such process")
    (fun _ _ => (0, "/"))
    (fun _ _ => (0, "/bin/true"))
    (fun _ => Timeval 1000 500000)
    (fun t _ => change t)
    (fun _ => events)
    (fun _ => [])
    (fun _ => 3)
    (fun _ => true)
    (fun _ => true)
    (fun _ _ => files)
    (fun _ => 77)
    (fun _ _ => true)
    (fun _ => "No such process")
    seconds
    (fun n => "SIG" +:+ fmt_d n)
    (fun _ => 0).

(** Every call succeeds and every process runs [/bin/true]. *)
Definition host : platform :=
  make_host (fun _ => table) (Some ["/bin/true"]) (fun _ => 0) [] true.

(** No process record can be fetched. *)
Definition host_gone : platform :=
  make_host (fun _ _ => None) (Some ["/bin/true"]) (fun _ => 0) [] true.

(** Every process is gone after the first fetch of a record. *)
Definition host_vanishing : platform :=
  make_host (fun t p => if Nat.eqb t 0 then table p else None)
    (Some ["/bin/true"]) (fun _ => 0) [] true.

(** No argument vector can be fetched. *)
Definition host_no_argv : platform :=
  make_host (fun _ => table) None (fun _ => 0) [] true.

(** The user interrupts at once. *)
Definition host_interrupted : platform :=
  make_host (fun _ => table) (Some ["/bin/true"]) (fun _ => 0)
    [Kevent SIGINT EVFILT_SIGNAL 0 0 0 0] true.

(** No file can be opened. *)
Definition host_readonly : platform :=
  make_host (fun _ => table) (Some ["/bin/true"]) (fun _ => 0) [] false.

(** The third call to the platform, a submission to kevent, fails with
    [ESRCH]; the later ones succeed. *)
Definition host_racy : platform :=
  make_host (fun _ => table) (Some ["/bin/true"])
    (fun t => if Nat.eqb t 2 then ESRCH else 0) [] true.

(** The initial state after [-t]. *)
Definition with_t : state := set_opt (set_show_exit (opt initial)) initial.

Definition exec_event (p : Z) : kevent := Kevent p EVFILT_PROC 0 NOTE_EXEC 0 0.
Definition exit_event (p status : Z) : kevent := Kevent p EVFILT_PROC 0 NOTE_EXIT status 0.

(** Process 10 execs, process 20 execs, process 10 exits, process 20 execs
    again. *)
Definition reexec_batch : list kevent :=
  [exec_event 10; exec_event 20; exit_event 10 0; exec_event 20].

(** A table whose 1024 slots hold the processes 1000 to 2023. *)
Definition crowded_db : list slot :=
  map (fun n => Slot (1000 + Z.of_nat n) 1 (Timeval 50 0) "sh") (seq 0 PID_DB_SIZE).

Definition crowded : state := set_pid_db crowded_db with_t.

(** A table whose first slot holds process 20 at depth 5. *)
Definition stale_db : list slot :=
  <[0%nat := Slot 20 5 (Timeval 200 0) "sh"]> (pid_db initial).

Definition stale : state := set_pid_db stale_db initial.

End Scenario.

(** ** Notions used to state further properties *)

Module More.
Import Cstr Quote Sh Libc Sys Common Props.

(** What the loop over the remaining arguments writes. *)
Fixpoint args_text (args : list string) : string :=
  match args with
  | [] => EmptyString
  | a :: rest => " " +:+ print_shquoted a +:+ args_text rest
  end.

(** What the loop over the environment writes for one entry and for all. *)
Definition env_entry_text (e : string) : string :=
  match strchr e (ch 61) with
  | Some (name, value) => print_shquoted name +:+ "=" +:+ print_shquoted value
  | None => print_shquoted e
  end.

Fixpoint env_text (envp : list string) : string :=
  match envp with
  | [] => EmptyString
  | e :: rest => " " +:+ env_entry_text e +:+ env_text rest
  end.

(** The answers of the platform that a trace line shows: the two [sysctl]
    results and the environment. *)
Record answers : Type := Answers {
  cwd : Z * string;
  pathname : Z * string;
  envv : option (list string)
}.

(** The name that [handle_exec] prints and stores for a process. *)
Definition shown_name (o : options) (r : answers) (a : string) : string :=
  if full_path o && negb (fst (pathname r) =? 1) then snd (pathname r) else a.

(** The trace line of an exec event, without its final newline. *)
Definition line_text (o : options) (p d : Z) (r : answers) (a : string)
    (args : list string) : string :=
  (if negb (flat o) then fmt_pad (2 * d) else EmptyString)
  +:+ fmt_d p
  +:+ (if show_exit o then "+" else EmptyString)
  +:+ " "
  +:+ (if show_cwd o
       then (if negb (fst (cwd r) =? 1) then print_shquoted (snd (cwd r)) else "?")
            +:+ " % "
       else EmptyString)
  +:+ print_shquoted (shown_name o r a)
  +:+ (if show_args o then args_text args else EmptyString)
  +:+ (if show_env o
       then match envv r with Some l => env_text l | None => " -" end
       else EmptyString).

(** The words that the line is made of. *)
Definition line_words (o : options) (p : Z) (r : answers) (a : string)
    (args : list string) : list string :=
  [fmt_d p +:+ (if show_exit o then "+" else EmptyString)]
  ++ (if show_cwd o
      then [if negb (fst (cwd r) =? 1) then snd (cwd r) else "?"; "%"]
      else [])
  ++ [shown_name o r a]
  ++ (if show_args o then args else [])
  ++ (if show_env o
      then match envv r with Some l => l | None => ["-"] end
      else []).

(** What the platform answers to the part of [handle_exec] that writes the
    line, begun after [t] calls: each call is made at the tick that the
    calls before it have left. *)
Definition answers_at (P : platform) (o : options) (p : Z) (kp : kinfo_proc)
    (t : nat) : answers :=
  let t1 := if show_cwd o then S t else t in
  let t2 := if full_path o then S t1 else t1 in
  Answers (sysctl_cwd P t p) (sysctl_pathname P t1 p) (kvm_getenvv P t2 kp).

(** The number of platform calls that [exec_line] makes. *)
Definition line_calls (o : options) : nat :=
  (if show_cwd o then 1 else 0) + (if full_path o then 1 else 0)
  + (if show_env o then 1 else 0).

(** The words after [items] were written one by one behind the open word
    [w]: the words completed and the word left open. *)
Fixpoint push (ws : list string) (w : string) (items : list string)
  : list string * string :=
  match items with
  | [] => (ws, w)
  | x :: rest => push (ws ++ [w]) x rest
  end.

(** [m], begun in [s], returns after [k] calls to the platform, having
    written [text] to the output and left the table as [db]; it changes
    nothing else. *)
Definition writes (m : M unit) (s : state) (k : nat) (text : string)
    (db : list slot) : Prop :=
  m s = Done tt (set_tick (k + tick s) (set_output (output s +:+ text) (set_pid_db db s))).

(** The line of [handle_exit] before its newline, for process [p] and the
    slot [x] at which the scan stopped, at the time [now]. *)
Definition exit_text (P : platform) (o : options) (p : Z) (x : slot) (status : Z)
    (now : timeval) : string :=
  (if negb (flat o) then fmt_pad (2 * depth x) else EmptyString)
  +:+ fmt_d p +:+ "- " +:+ print_shquoted (cmdline x)
  +:+ (if WIFSIGNALED status
       then " exited signal=" +:+ sys_signame P (WTERMSIG status)
       else " exited status=" +:+ fmt_d (WEXITSTATUS status))
  +:+ " time=" +:+ fmt_seconds P (timersub now (start x)) +:+ "s".

(** The revision that traces exec only has no [-t]. *)
Definition no_t (o : options) : options :=
  Options (flat o) (full_path o) (show_args o) (show_cwd o) (show_env o) false.

(** What the platform answers to [handle_msg] once the depth is resolved,
    after [t] calls: the working directory is asked for before the record
    and the argument vector are fetched, the path and the environment
    after. *)
Definition answers_msg (P : platform) (o : options) (p : Z) (kp : kinfo_proc)
    (t : nat) : answers :=
  let t1 := if show_cwd o then S t else t in
  let t2 := if full_path o then S (S (S t1)) else S (S t1) in
  Answers (sysctl_cwd P t p) (sysctl_pathname P (S (S t1)) p) (kvm_getenvv P t2 kp).

(** A slot whose name fits its buffer of [CMDLINE_DB_MAX] bytes with the
    terminating NUL, and whose depth is not negative. *)
Definition slot_ok (x : slot) : Prop :=
  (String.length (cmdline x) < CMDLINE_DB_MAX)%nat /\ 0 <= depth x.

(** The table has the size of the array and every slot is sound. *)
Definition table_ok (db : list slot) : Prop :=
  length db = PID_DB_SIZE /\ Forall slot_ok db.

(** What the event loop keeps from [s] to [s']: the scope root, the
    options, the output file and the log of submissions are the same;
    both streams have only grown; and a sound table stays sound. *)
Definition kept (s s' : state) : Prop :=
  parent s' = parent s /\ opt s' = opt s /\ output_file s' = output_file s
  /\ submitted s' = submitted s
  /\ (exists x : string, output s' = output s +:+ x)
  /\ (exists x : string, stderr s' = stderr s +:+ x)
  /\ (table_ok (pid_db s) -> table_ok (pid_db s')).

(** The change that [main] hands to [kevent] for the signal of a child
    that ended. *)
Definition watch_sigchld : list kevent :=
  [EV_SET SIGCHLD EVFILT_SIGNAL EV_ADD 0 0 0].

(** How the start-up [r] ends when a command is given, the options were
    read up to [s1], and the kqueue, the kvm handle and the subscription to
    [SIGCHLD] were obtained.  In the child of the [fork] the command
    replaces the program, or the program exits with status 1 when it cannot
    be run; when the [fork] fails the program exits with status 1; in the
    parent the scope root becomes the child, and when the subscription to
    the interrupt and the change that follows the child are accepted, the
    start-up returns, with no listing of the processes. *)
Definition spawns (P : platform) (operands : list string) (s1 : state)
    (r : outcome unit) : Prop :=
  let child := fork P (3 + tick s1) in
  let t4 := (4 + tick s1)%nat in
  (child = 0 -> execvp P t4 operands = true ->
     exists s', r = Execed operands s'
       /\ output s' = output s1 /\ stderr s' = stderr s1)
  /\ (child = 0 -> execvp P t4 operands = false ->
        exists s', r = Exit 1 s'
          /\ stderr s' = stderr s1 +:+ "extrace: execvp: "
                         +:+ strerror_errno P (S t4) +:+ nl)
  /\ (child = -1 ->
        exists s', r = Exit 1 s'
          /\ stderr s' = stderr s1 +:+ "extrace: fork: "
                         +:+ strerror_errno P t4 +:+ nl)
  /\ (child <> 0 -> child <> -1 -> child <> 1 ->
      kevent_change P t4 watch_sigint = 0 ->
      kevent_change P (S t4) (track child) = 0 ->
        exists s', r = Done tt s'
          /\ parent s' = child
          /\ submitted s'
             = (track child, 0) :: (watch_sigint, 0) :: (watch_sigchld, 0) :: submitted s1
          /\ opt s' = opt s1 /\ pid_db s' = pid_db s1
          /\ output s' = output s1 /\ stderr s' = stderr s1
          /\ tick s' = (6 + tick s1)%nat).

(** Whether the option letter [c] is among the options that [getopt]
    reports. *)
Definition given (c : ascii) (opts : list (ascii * string)) : bool :=
  existsb (fun x => Ascii.eqb (fst x) c) opts.

(** The flags after the options [opts], from the flags [o]: a letter sets
    its flag, [-q] clears the flag of the arguments, and neither the order
    nor a repetition counts. *)
Definition flags_after (o : options) (opts : list (ascii * string)) : options :=
  Options (flat o || given "f" opts) (full_path o || given "l" opts)
          (show_args o && negb (given "q" opts)) (show_cwd o || given "d" opts)
          (show_env o || given "e" opts) (show_exit o || given "t" opts).

(** The outcome [r] with the table replaced by [db] in the state it ends
    in. *)
Definition with_table {A : Type} (db : list slot) (r : outcome A) : outcome A :=
  match r with
  | Done a s => Done a (set_pid_db db s)
  | Exit c s => Exit c (set_pid_db db s)
  | Execed v s => Execed v (set_pid_db db s)
  | Fault s => Fault (set_pid_db db s)
  | OutOfFuel => OutOfFuel
  end.

(** [m], begun in [s], ends in undefined behaviour. *)
Definition faults {A : Type} (m : M A) (s : state) : Prop :=
  exists s' : state, m s = Fault s'.

(** The line that [handle_exec] writes under [-t] before its own line when
    the slot found, [x], already holds the process, before its newline:
    the stored name is written as it is. *)
Definition execed_text (P : platform) (o : options) (p d : Z) (x : slot)
    (now : timeval) : string :=
  (if negb (flat o) then fmt_pad (2 * d) else EmptyString)
  +:+ fmt_d p +:+ "- " +:+ cmdline x +:+ " execed time="
  +:+ fmt_seconds P (timersub now (start x)) +:+ "s".

(** The warning that [handle_exec] writes when its scan of the table has
    stopped at index [i]: none unless [i] is the last index. *)
Definition warning_at (i : nat) : string :=
  if Nat.eqb i (PID_DB_SIZE - 1) then overflow_warning else EmptyString.

End More.

(** * Properties *)

Import Cstr Quote Sh Libc Sys Common Props Scenario.

(** ** Strings *)

Lemma str_app_cons (c : ascii) (a b : string) : String c a +:+ b = String c (a +:+ b).
Proof. reflexivity. Qed.

Lemma str_app_nil_l (b : string) : EmptyString +:+ b = b.
Proof. reflexivity. Qed.

Lemma str_app_assoc (a b c : string) : (a +:+ b) +:+ c = a +:+ (b +:+ c).
Proof. induction a as [|x a IH]; [reflexivity|]. rewrite !str_app_cons. now rewrite IH. Qed.

Lemma str_app_nil_r (a : string) : a +:+ EmptyString = a.
Proof. induction a as [|x a IH]; [reflexivity|]. rewrite str_app_cons. now rewrite IH. Qed.

Lemma snoc_app (w : string) (c : ascii) (s : string) : snoc w c +:+ s = w +:+ String c s.
Proof. unfold snoc. now rewrite str_app_assoc. Qed.

(** ** The quoting formatter read back by the shell *)

Lemma special_plain (c : ascii) : mem c special = false -> plain c = true.
Proof. destruct c as [[] [] [] [] [] [] [] []]; vm_compute; congruence. Qed.

Lemma step_plain (ws : list string) (w : option string) (c : ascii) :
  plain c = true -> step (ws, Out w) c = Some (ws, Out (Some (snoc (open w) c))).
Proof.
  unfold plain, step. intros H.
  repeat (apply andb_prop in H as [H ?]).
  repeat match goal with
         | H : negb ?b = true |- _ => apply negb_true_iff in H; rewrite H
         end.
  reflexivity.
Qed.

(** A string without special bytes is read as itself. *)
Lemma run_bare (ws : list string) (s : string) : forall w : option string,
  strpbrk s special = None ->
  run (ws, Out w) s
  = Some (ws, Out (match s with EmptyString => w | _ => Some (open w +:+ s) end)).
Proof.
  induction s as [|c s IH]; intros w H; [reflexivity|].
  cbn [strpbrk] in H. destruct (mem c special) eqn:E; [discriminate|].
  cbn [run]. rewrite (step_plain ws w c (special_plain c E)).
  rewrite (IH _ H). f_equal. f_equal.
  destruct s; simpl; [|now rewrite snoc_app].
  unfold snoc. reflexivity.
Qed.

(** Inside single quotes, the four bytes written for a single quote are
    read as one single quote. *)
Lemma run_squote (ws : list string) (w rest : string) :
  run (ws, SQ w) (of_chars [squote; backslash; squote; squote] +:+ rest)
  = run (ws, SQ (snoc w squote)) rest.
Proof. reflexivity. Qed.

(** Inside single quotes, the seven bytes written for a newline are read as
    one newline. *)
Lemma run_newline (ws : list string) (w rest : string) :
  run (ws, SQ w)
    (of_chars [squote; dollar; squote; backslash; ch 110; squote; squote] +:+ rest)
  = run (ws, SQ (snoc w newline)) rest.
Proof. reflexivity. Qed.

Lemma run_quoted (ws : list string) (s : string) : forall w : string,
  run (ws, SQ w) (quote_body s +:+ String squote EmptyString)
  = Some (ws, Out (Some (w +:+ s))).
Proof.
  induction s as [|c s IH]; intros w.
  - cbn [quote_body]. rewrite str_app_nil_l, str_app_nil_r. cbn [run step].
    now rewrite Ascii.eqb_refl.
  - cbn [quote_body]. rewrite str_app_assoc.
    destruct (Ascii.eqb c squote) eqn:E1.
    + apply Ascii.eqb_eq in E1. subst c.
      rewrite run_squote, IH. now rewrite snoc_app.
    + destruct (Ascii.eqb c newline) eqn:E2.
      * apply Ascii.eqb_eq in E2. subst c.
        rewrite run_newline, IH. now rewrite snoc_app.
      * rewrite str_app_cons, str_app_nil_l. cbn [run step]. rewrite E1.
        rewrite IH. now rewrite snoc_app.
Qed.


(** A leading tilde is not among the special bytes: it is written bare, and
    read back as a word by [words], which performs no tilde expansion. *)
Lemma print_shquoted_tilde : print_shquoted "~" = "~".
Proof. reflexivity. Qed.

(** ** The state monad *)

Lemma bind_done {A B : Type} (m : M A) (k : A -> M B) (s : state) (a : A) (s' : state) :
  m s = Done a s' -> bind m k s = k a s'.
Proof. unfold bind. now intros ->. Qed.

Lemma returns_elim {A : Type} (m : M A) (s : state) (Q : A -> state -> Prop) :
  returns m s Q -> exists a s', m s = Done a s' /\ Q a s'.
Proof. unfold returns. destruct (m s); try contradiction. eauto. Qed.

Lemma returns_bind {A B : Type} (m : M A) (k : A -> M B) (s : state)
    (Q : B -> state -> Prop) :
  returns m s (fun a s' => returns (k a) s' Q) -> returns (bind m k) s Q.
Proof. unfold returns, bind. destruct (m s); auto. Qed.

Lemma returns_weaken {A : Type} (m : M A) (s : state) (Q Q' : A -> state -> Prop) :
  (forall a s', Q a s' -> Q' a s') -> returns m s Q -> returns m s Q'.
Proof. unfold returns. destruct (m s); auto. Qed.

Section Safe.
Variable R : state -> state -> Prop.
Hypothesis R_refl : forall s, R s s.
Hypothesis R_trans : forall s1 s2 s3, R s1 s2 -> R s2 s3 -> R s1 s3.

Lemma safe_ret {A : Type} (a : A) : safe R (ret a).
Proof. intros s. apply R_refl. Qed.

Lemma safe_gets {A : Type} (f : state -> A) : safe R (gets f).
Proof. intros s. apply R_refl. Qed.

Lemma safe_fault {A : Type} : safe R (@fault A).
Proof. intros s. apply R_refl. Qed.

Lemma safe_out_of_fuel {A : Type} : safe R (@out_of_fuel A).
Proof. intros s. exact I. Qed.

Lemma safe_modify (f : state -> state) : (forall s, R s (f s)) -> safe R (modify f).
Proof. intros H s. apply H. Qed.

Lemma safe_sys {A : Type} (f : nat -> A) :
  (forall s n, R s (set_tick n s)) -> safe R (sys f).
Proof. intros H s. apply H. Qed.

Lemma safe_bind {A B : Type} (m : M A) (k : A -> M B) :
  safe R m -> (forall a, safe R (k a)) -> safe R (bind m k).
Proof.
  intros Hm Hk s. unfold bind. specialize (Hm s).
  destruct (m s) as [a s1 | | | |]; try assumption.
  specialize (Hk a s1).
  destruct (k a s1); try assumption; eapply R_trans; eassumption.
Qed.

Lemma safe_when (b : bool) (m : M unit) : safe R m -> safe R (when b m).
Proof. intros H. destruct b; [exact H | apply safe_ret]. Qed.

Lemma total_ret {A : Type} (a : A) : total R (ret a).
Proof. intros s. apply R_refl. Qed.

Lemma total_gets {A : Type} (f : state -> A) : total R (gets f).
Proof. intros s. apply R_refl. Qed.

Lemma total_modify (f : state -> state) : (forall s, R s (f s)) -> total R (modify f).
Proof. intros H s. apply H. Qed.

Lemma total_sys {A : Type} (f : nat -> A) :
  (forall s n, R s (set_tick n s)) -> total R (sys f).
Proof. intros H s. apply H. Qed.

Lemma total_bind {A B : Type} (m : M A) (k : A -> M B) :
  total R m -> (forall a, total R (k a)) -> total R (bind m k).
Proof.
  intros Hm Hk s. apply returns_bind.
  eapply returns_weaken; [|apply Hm]. cbn beta. intros a s1 H1.
  eapply returns_weaken; [|apply Hk]. cbn beta. intros b s2 H2.
  eapply R_trans; eassumption.
Qed.

Lemma total_when (b : bool) (m : M unit) : total R m -> total R (when b m).
Proof. intros H. destruct b; [exact H | apply total_ret]. Qed.

End Safe.

Lemma safe_weaken {A : Type} (R R' : state -> state -> Prop) (m : M A) :
  (forall s s', R s s' -> R' s s') -> safe R m -> safe R' m.
Proof. intros H Hm s. specialize (Hm s). destruct (m s); auto. Qed.

(** One step through the structure of a computation, for [safe] and for
    [total]; [closed] proves that a state update respects the relation. *)
Ltac safe_step R_refl R_trans closed :=
  first
    [ apply safe_bind; [exact R_trans | | intros ?]
    | apply safe_ret; exact R_refl
    | apply safe_gets; exact R_refl
    | apply safe_fault; exact R_refl
    | apply safe_out_of_fuel
    | apply safe_sys; intros; closed
    | apply safe_modify; intros; closed
    | apply safe_when; [exact R_refl |]
    | match goal with
      | |- safe _ (if ?b then _ else _) => destruct b
      | |- safe _ (match ?x with _ => _ end) => destruct x
      end ].

Ltac total_step R_refl R_trans closed :=
  first
    [ apply total_bind; [exact R_trans | | intros ?]
    | apply total_ret; exact R_refl
    | apply total_gets; exact R_refl
    | apply total_sys; intros; closed
    | apply total_modify; intros; closed
    | apply total_when; [exact R_refl |]
    | match goal with
      | |- total _ (if ?b then _ else _) => destruct b
      | |- total _ (match ?x with _ => _ end) => destruct x
      end ].

(** ** The relations between states *)

Lemma ticked_set_tick (s : state) (n : nat) : ticked s (set_tick n s).
Proof. reflexivity. Qed.

Lemma ticked_trans (s1 s2 s3 : state) : ticked s1 s2 -> ticked s2 s3 -> ticked s1 s3.
Proof. unfold ticked. intros H1 H2. rewrite H2, H1. reflexivity. Qed.

Lemma ticked_err_refl (s : state) : ticked_err s s.
Proof. destruct s; reflexivity. Qed.

Lemma ticked_err_trans (s1 s2 s3 : state) :
  ticked_err s1 s2 -> ticked_err s2 s3 -> ticked_err s1 s3.
Proof. unfold ticked_err. intros H1 H2. rewrite H2, H1. reflexivity. Qed.

Lemma ticked_fields (s s' : state) :
  ticked s s' -> stderr s' = stderr s /\ output s' = output s /\ pid_db s' = pid_db s.
Proof. unfold ticked. intros ->. repeat split; reflexivity. Qed.

Lemma ticked_err_fields (s s' : state) :
  ticked_err s s' ->
  opt s' = opt s /\ pid_db s' = pid_db s /\ quit s' = quit s /\ output s' = output s.
Proof. unfold ticked_err. intros ->. repeat split; reflexivity. Qed.

Lemma touched_refl (s : state) : touched s s.
Proof. destruct s; reflexivity. Qed.

Lemma touched_trans (s1 s2 s3 : state) : touched s1 s2 -> touched s2 s3 -> touched s1 s3.
Proof. unfold touched. intros H1 H2. rewrite H2, H1. reflexivity. Qed.

Lemma ticked_err_touched (s s' : state) : ticked_err s s' -> touched s s'.
Proof. unfold ticked_err, touched. intros H. rewrite H. reflexivity. Qed.

Lemma touched_quit (s s' : state) : touched s s' -> quit s' = quit s.
Proof. unfold touched. intros ->. reflexivity. Qed.

(** ** The ancestry resolver *)

(** The scan of [pid_depth] has no [break]: it always ends at the last
    index. *)
Lemma depth_scan_index (db : list slot) (ppid : Z) (n : nat) :
  forall (i : nat) (d : option Z),
    fst (Ledger.depth_scan db ppid n i d) = (i + n)%nat.
Proof.
  induction n as [|n IH]; intros i d; simpl.
  - lia.
  - rewrite IH. lia.
Qed.

(** Hence the test that follows the scan always succeeds, and [pid_depth]
    of the revision with the table does what [pid_depth] of the revision
    without it does. *)
Lemma pid_depth_same (P : platform) (fuel : nat) : forall (p : Z) (s : state),
  Ledger.pid_depth P fuel p s = Exec_only.pid_depth P fuel p s.
Proof.
  induction fuel as [|fuel IH]; intros p s; [reflexivity|].
  cbn [Ledger.pid_depth Exec_only.pid_depth].
  unfold bind, sys, gets.
  destruct (kvm_getprocs P (tick s) p) as [kp|]; [|reflexivity].
  destruct (p =? parent _); [reflexivity|].
  destruct (ki_ppid kp =? parent _); [reflexivity|].
  destruct (ki_ppid kp =? 0); [reflexivity|].
  pose proof (depth_scan_index (pid_db (set_tick (S (tick s)) s)) (ki_ppid kp)
                (PID_DB_SIZE - 1) 0 None) as Hi.
  destruct (Ledger.depth_scan _ _ _ _ _) as [i d]. simpl in Hi. subst i.
  rewrite Nat.eqb_refl. rewrite IH. reflexivity.
Qed.

Lemma chain_at_root (tbl : Z -> option kinfo_proc) (root : Z) (k : nat) :
  chain tbl root root k -> k = 0%nat.
Proof. inversion 1; [reflexivity | congruence]. Qed.

Section Resolver.
Variable P : platform.
Variable tbl : Z -> option kinfo_proc.
Hypothesis Hsteady : steady P tbl.

Lemma chain_depth (root p : Z) (k : nat) :
  chain tbl root p k ->
  forall (fuel : nat) (s : state), parent s = root -> (k < fuel)%nat ->
  exists s', Exec_only.pid_depth P fuel p s = Done (Z.of_nat k) s' /\ ticked s s'.
Proof.
  induction 1 as [kp Hkp | p kp k Hkp Hne Hpp Hch IH]; intros fuel s Hroot Hfuel;
    (destruct fuel as [|fuel]; [lia|]); cbn [Exec_only.pid_depth];
    unfold bind, sys, gets; rewrite Hsteady, Hkp; cbn [parent set_tick].
  - rewrite Hroot, Z.eqb_refl. eexists; split; [reflexivity | apply ticked_set_tick].
  - rewrite Hroot. destruct (Z.eqb_spec p root) as [|_]; [contradiction|].
    destruct (Z.eqb_spec (ki_ppid kp) root) as [Heq|Hnr].
    + rewrite Heq in Hch. apply chain_at_root in Hch. subst k.
      eexists; split; [reflexivity | apply ticked_set_tick].
    + destruct Hpp as [|Hnz]; [contradiction|].
      destruct (Z.eqb_spec (ki_ppid kp) 0) as [|_]; [contradiction|].
      destruct (IH fuel (set_tick (S (tick s)) s)) as (s' & Hrun & Ht);
        [exact Hroot | lia |].
      rewrite Hrun. unfold ret.
      destruct (Z.eqb_spec (Z.of_nat k) (-1)) as [|_]; [lia|].
      replace (Z.of_nat k + 1) with (Z.of_nat (S k)) by lia.
      eexists; split; [reflexivity|].
      eapply ticked_trans; [apply ticked_set_tick | exact Ht].
Qed.

Lemma dead_end_depth (root p : Z) (n : nat) :
  dead_end tbl root p n ->
  forall (fuel : nat) (s : state), parent s = root -> (n < fuel)%nat ->
  exists s', Exec_only.pid_depth P fuel p s = Done (-1) s' /\ ticked_err s s'.
Proof.
  induction 1 as [p Hkp | p kp Hkp Hne Hnr Hz | p kp n Hkp Hne Hnr Hnz Hd IH];
    intros fuel s Hroot Hfuel;
    (destruct fuel as [|fuel]; [lia|]); cbn [Exec_only.pid_depth];
    unfold bind, sys, gets; rewrite Hsteady, Hkp; cbn [parent set_tick].
  - eexists; split; [reflexivity|]. reflexivity.
  - rewrite Hroot. destruct (Z.eqb_spec p root) as [|_]; [contradiction|].
    destruct (Z.eqb_spec (ki_ppid kp) root) as [|_]; [contradiction|].
    rewrite Hz. eexists; split; [reflexivity|]. reflexivity.
  - rewrite Hroot. destruct (Z.eqb_spec p root) as [|_]; [contradiction|].
    destruct (Z.eqb_spec (ki_ppid kp) root) as [|_]; [contradiction|].
    destruct (Z.eqb_spec (ki_ppid kp) 0) as [|_]; [contradiction|].
    destruct (IH fuel (set_tick (S (tick s)) s)) as (s' & Hrun & Ht);
      [exact Hroot | lia |].
    rewrite Hrun. unfold ret. eexists; split; [reflexivity|].
    eapply ticked_err_trans; [|exact Ht]. reflexivity.
Qed.

End Resolver.

Lemma pid_depth_root (P : platform) (fuel : nat) (p : Z) (s : state) (kp : kinfo_proc) :
  kvm_getprocs P (tick s) p = Some kp -> p = parent s ->
  Exec_only.pid_depth P (S fuel) p s = Done 0 (set_tick (S (tick s)) s).
Proof.
  intros Hkp ->. cbn [Exec_only.pid_depth]. unfold bind, sys, gets. rewrite Hkp.
  cbn [parent set_tick]. now rewrite Z.eqb_refl.
Qed.

Lemma pid_depth_child (P : platform) (fuel : nat) (p : Z) (s : state) (kp : kinfo_proc) :
  kvm_getprocs P (tick s) p = Some kp -> p <> parent s -> ki_ppid kp = parent s ->
  Exec_only.pid_depth P (S fuel) p s = Done 1 (set_tick (S (tick s)) s).
Proof.
  intros Hkp Hne Hpp. cbn [Exec_only.pid_depth]. unfold bind, sys, gets. rewrite Hkp.
  cbn [parent set_tick]. rewrite Hpp, Z.eqb_refl.
  destruct (Z.eqb_spec p (parent s)) as [|_]; [contradiction | reflexivity].
Qed.

(** C1: when the process table is steady and the parent chain from the
    scope root down to [p] has [k] resolvable hops, [pid_depth] returns [k]
    without writing anything; when walking up from [p] reaches, before the
    root, a process whose parent pid is 0 or whose record cannot be
    fetched, it returns -1, the out-of-scope result, and does not exit; it
    returns 0 when [p], once fetched, is the root, and 1 when the parent
    of [p] is the root.  Both revisions agree. *)
Theorem pid_depth_resolves (P : platform) (tbl : Z -> option kinfo_proc)
    (s : state) (p : Z) :
  steady P tbl ->
  (forall k : nat, chain tbl (parent s) p k ->
     forall fuel : nat, (k < fuel)%nat ->
       exists s', Ledger.pid_depth P fuel p s = Done (Z.of_nat k) s'
                  /\ Exec_only.pid_depth P fuel p s = Done (Z.of_nat k) s'
                  /\ ticked s s')
  /\ (forall n : nat, dead_end tbl (parent s) p n ->
        forall fuel : nat, (n < fuel)%nat ->
          exists s', Ledger.pid_depth P fuel p s = Done (-1) s'
                     /\ Exec_only.pid_depth P fuel p s = Done (-1) s'
                     /\ ticked_err s s')
  /\ (forall (kp : kinfo_proc) (fuel : nat),
        tbl p = Some kp -> p = parent s ->
        Ledger.pid_depth P (S fuel) p s = Done 0 (set_tick (S (tick s)) s)
        /\ Exec_only.pid_depth P (S fuel) p s = Done 0 (set_tick (S (tick s)) s))
  /\ (forall (kp : kinfo_proc) (fuel : nat),
        tbl p = Some kp -> p <> parent s -> ki_ppid kp = parent s ->
        Ledger.pid_depth P (S fuel) p s = Done 1 (set_tick (S (tick s)) s)
        /\ Exec_only.pid_depth P (S fuel) p s = Done 1 (set_tick (S (tick s)) s)).
Proof.
  intros Hsteady. split; [|split; [|split]].
  - intros k Hch fuel Hfuel.
    destruct (chain_depth P tbl Hsteady _ _ _ Hch fuel s eq_refl Hfuel) as (s' & Hrun & Ht).
    exists s'. rewrite pid_depth_same. auto.
  - intros n Hd fuel Hfuel.
    destruct (dead_end_depth P tbl Hsteady _ _ _ Hd fuel s eq_refl Hfuel) as (s' & Hrun & Ht).
    exists s'. rewrite pid_depth_same. auto.
  - intros kp fuel Hkp Hp. rewrite <- (Hsteady (tick s)) in Hkp.
    rewrite pid_depth_same. split; now apply (pid_depth_root P fuel p s kp).
  - intros kp fuel Hkp Hne Hpp. rewrite <- (Hsteady (tick s)) in Hkp.
    rewrite pid_depth_same. split; now apply (pid_depth_child P fuel p s kp).
Qed.

Lemma host_steady : steady host table.
Proof. intros t p. reflexivity. Qed.

Lemma chain_to_40 : chain table 1 40 3.
Proof.
  apply (chain_hop table 1 40 (Kinfo 40 30 2 (Timeval 400 0)) 2);
    [reflexivity | discriminate | right; discriminate |].
  apply (chain_hop table 1 30 (Kinfo 30 20 2 (Timeval 300 0)) 1);
    [reflexivity | discriminate | right; discriminate |].
  apply (chain_hop table 1 20 (Kinfo 20 1 2 (Timeval 200 0)) 0);
    [reflexivity | discriminate | left; reflexivity |].
  apply (chain_root table 1 (Kinfo 1 0 2 (Timeval 1 0))). reflexivity.
Defined.

Lemma dead_end_at_50 : dead_end table 1 50 0.
Proof.
  apply (dead_orphan table 1 50 (Kinfo 50 0 2 (Timeval 500 0)));
    [reflexivity | discriminate | discriminate | reflexivity].
Defined.

(** On the host of the scenario, process 40 is resolved to depth 3 and
    process 50, which has no parent, to -1. *)
Lemma pid_depth_resolves_witness :
  (exists s', Ledger.pid_depth host 4 40 initial = Done (Z.of_nat 3) s'
              /\ Exec_only.pid_depth host 4 40 initial = Done (Z.of_nat 3) s'
              /\ ticked initial s')
  /\ (exists s', Ledger.pid_depth host 1 50 initial = Done (-1) s'
                 /\ Exec_only.pid_depth host 1 50 initial = Done (-1) s'
                 /\ ticked_err initial s').
Proof.
  split.
  - apply (proj1 (pid_depth_resolves host table initial 40 host_steady) 3%nat
             chain_to_40 4%nat).
    lia.
  - apply (proj1 (proj2 (pid_depth_resolves host table initial 50 host_steady)) 0%nat
             dead_end_at_50 1%nat).
    lia.
Defined.

(** [pid_depth] never exits, and touches nothing but standard error and the
    count of platform calls. *)
Lemma pid_depth_safe (P : platform) (fuel : nat) :
  forall p : Z, safe ticked_err (Ledger.pid_depth P fuel p).
Proof.
  induction fuel as [|fuel IH]; intros p; cbn [Ledger.pid_depth].
  - apply safe_out_of_fuel.
  - unfold err_out.
    repeat (first [apply IH | safe_step ticked_err_refl ticked_err_trans ltac:(reflexivity)]).
Qed.

Lemma pid_depth_frame (P : platform) (fuel : nat) (p : Z) (s : state) (d : Z) (s1 : state) :
  Ledger.pid_depth P fuel p s = Done d s1 -> ticked_err s s1.
Proof.
  intros H. pose proof (pid_depth_safe P fuel p s) as Hs. now rewrite H in Hs.
Qed.

(** It writes to standard error only when it returns -1. *)
Lemma pid_depth_quiet0 (P : platform) (fuel : nat) :
  forall (p : Z) (s : state) (d : Z) (s1 : state),
    Exec_only.pid_depth P fuel p s = Done d s1 -> d <> -1 -> ticked s s1.
Proof.
  induction fuel as [|fuel IH]; intros p s d s1; [discriminate|].
  cbn [Exec_only.pid_depth]. unfold bind at 1. unfold sys at 1.
  destruct (kvm_getprocs P (tick s) p) as [kp|].
  - unfold bind at 1. unfold gets at 1.
    destruct (p =? _); [intros [= <- <-] _; reflexivity|].
    destruct (ki_ppid kp =? _); [intros [= <- <-] _; reflexivity|].
    destruct (ki_ppid kp =? 0); [intros [= <- <-] Hd; contradiction|].
    unfold bind.
    destruct (Exec_only.pid_depth P fuel (ki_ppid kp) _) as [d0 s0| | | |] eqn:E;
      try discriminate.
    destruct (Z.eqb_spec d0 (-1)) as [|Hne]; intros [= <- <-] Hd; [contradiction|].
    eapply ticked_trans; [|exact (IH _ _ _ _ E Hne)]. reflexivity.
  - cbn. intros [= <- <-] Hd. contradiction.
Qed.

Lemma pid_depth_quiet (P : platform) (fuel : nat) (p : Z) (s : state) (d : Z) (s1 : state) :
  Ledger.pid_depth P fuel p s = Done d s1 -> d <> -1 -> ticked s s1.
Proof. intros H. rewrite pid_depth_same in H. revert H. apply pid_depth_quiet0. Qed.

(** Past the three early returns, [pid_depth] resolves the parent by a
    recursive call, whatever the table holds. *)
Lemma pid_depth_step (P : platform) (fuel : nat) (p : Z) (s : state) (kp : kinfo_proc) :
  kvm_getprocs P (tick s) p = Some kp ->
  p <> parent s -> ki_ppid kp <> parent s -> ki_ppid kp <> 0 ->
  Ledger.pid_depth P (S fuel) p s
  = bind (Ledger.pid_depth P fuel (ki_ppid kp))
      (fun d => if d =? -1 then ret (-1) else ret (d + 1))
      (set_tick (S (tick s)) s).
Proof.
  intros Hkp Hp Hpp Hz. rewrite pid_depth_same.
  cbn [Exec_only.pid_depth]. unfold bind at 1. unfold sys at 1. rewrite Hkp.
  unfold bind at 1. unfold gets at 1. cbn [parent set_tick].
  destruct (Z.eqb_spec p (parent s)) as [|_]; [contradiction|].
  destruct (Z.eqb_spec (ki_ppid kp) (parent s)) as [|_]; [contradiction|].
  destruct (Z.eqb_spec (ki_ppid kp) 0) as [|_]; [contradiction|].
  unfold bind. now rewrite <- (pid_depth_same P fuel (ki_ppid kp)).
Qed.

(** C4 fails as stated.  The table holds depth 5 for process 20, the parent
    of process 30, yet the depth returned for 30 is 2, not 5 + 1: the
    parent was resolved again from the process table.  And after process 40
    was resolved through its ancestors 30 and 20, the table is as it was:
    no depth was stored. *)
Lemma cached_depth_not_used :
  pid_db stale !! 0%nat = Some (Slot 20 5 (Timeval 200 0) "sh")
  /\ kvm_getprocs host 0 30 = Some (Kinfo 30 20 2 (Timeval 300 0))
  /\ Ledger.pid_depth host 5 30 stale = Done 2 (set_tick 2 stale)
  /\ Ledger.pid_depth host 5 40 initial = Done 3 (set_tick 3 initial)
  /\ pid_db (set_tick 3 initial) = pid_db initial.
Proof. repeat split; vm_compute; reflexivity. Qed.

(** C4, as amended: [pid_depth] only reads the table, it never writes it;
    and for a process that is not the root and whose parent is neither the
    root nor 0, when no slot scanned holds the parent, the parent's depth
    is resolved by a recursive call and the result is that depth plus 1, or
    -1 when the parent is out of scope. *)
Theorem pid_depth_reads_only (P : platform) (fuel : nat) (p : Z) (s : state) :
  (forall (d : Z) (s' : state),
     Ledger.pid_depth P fuel p s = Done d s' -> pid_db s' = pid_db s)
  /\ (forall kp : kinfo_proc,
        kvm_getprocs P (tick s) p = Some kp ->
        p <> parent s -> ki_ppid kp <> parent s -> ki_ppid kp <> 0 ->
        Forall (fun x => pid x <> ki_ppid kp) (take (PID_DB_SIZE - 1) (pid_db s)) ->
        Ledger.pid_depth P (S fuel) p s
        = bind (Ledger.pid_depth P fuel (ki_ppid kp))
            (fun d => if d =? -1 then ret (-1) else ret (d + 1))
            (set_tick (S (tick s)) s)).
Proof.
  split.
  - intros d s' H. apply pid_depth_frame in H. now apply ticked_err_fields in H.
  - intros kp Hkp Hp Hpp Hz _. now apply pid_depth_step.
Qed.

Lemma initial_holds_no_20 :
  Forall (fun x => pid x <> 20) (take (PID_DB_SIZE - 1) (pid_db initial)).
Proof. apply Forall_take, Forall_replicate. discriminate. Defined.

(** On the host of the scenario, with an empty table: resolving process 40
    leaves the table as it is, and the depth of process 30 is that of its
    parent 20 plus 1. *)
Lemma pid_depth_reads_only_witness :
  pid_db (set_tick 3 initial) = pid_db initial
  /\ Ledger.pid_depth host 5 30 initial
     = bind (Ledger.pid_depth host 4 20)
         (fun d => if d =? -1 then ret (-1) else ret (d + 1))
         (set_tick 1 initial).
Proof.
  split.
  - apply (proj1 (pid_depth_reads_only host 5 40 initial) 3 (set_tick 3 initial)).
    vm_compute. reflexivity.
  - apply (proj2 (pid_depth_reads_only host 4 30 initial) (Kinfo 30 20 2 (Timeval 300 0))).
    + reflexivity.
    + discriminate.
    + discriminate.
    + discriminate.
    + exact initial_holds_no_20.
Defined.

(** ** The exec and exit handlers *)

Section Handlers.
Variable P : platform.

Lemma print_args_safe (args : list string) : safe touched (print_args args).
Proof.
  induction args as [|a args IH]; cbn [print_args]; unfold out;
    repeat (first [apply IH | safe_step touched_refl touched_trans ltac:(reflexivity)]).
Qed.

Lemma print_env_safe (envp : list string) : safe touched (print_env envp).
Proof.
  induction envp as [|e envp IH]; cbn [print_env]; unfold out;
    repeat (first [apply IH | safe_step touched_refl touched_trans ltac:(reflexivity)]).
Qed.

(** [handle_exit] never exits, and touches only the table, the streams and
    the count of platform calls. *)
Lemma handle_exit_safe (p status : Z) : safe touched (Ledger.handle_exit P p status).
Proof.
  unfold Ledger.handle_exit, out, update_slot.
  repeat safe_step touched_refl touched_trans ltac:(reflexivity).
Qed.

(** So does [handle_exec]. *)
Lemma handle_exec_safe (fuel : nat) (p : Z) : safe touched (Ledger.handle_exec P fuel p).
Proof.
  unfold Ledger.handle_exec, Ledger.exec_line, Ledger.claim_slot, Ledger.name_from_argv,
    Ledger.store_cmdline, warn, out, err_out, update_slot.
  repeat (first
    [ apply (safe_weaken ticked_err touched _ ticked_err_touched), pid_depth_safe
    | apply print_args_safe | apply print_env_safe
    | safe_step touched_refl touched_trans ltac:(reflexivity) ]).
Qed.

(** A process found out of scope is dropped without a line. *)
Lemma handle_exec_out_of_scope (fuel : nat) (p : Z) (s : state) (d : Z) (s1 : state) :
  Ledger.pid_depth P fuel p s = Done d s1 -> d < 0 ->
  Ledger.handle_exec P fuel p s = Done tt s1.
Proof.
  intros Hd Hneg. unfold Ledger.handle_exec.
  rewrite (bind_done _ _ _ _ _ Hd).
  destruct (Z.ltb_spec d 0); [reflexivity | lia].
Qed.

(** The fetch of the record of [p] itself fails inside [pid_depth]. *)
Lemma pid_depth_gone (fuel : nat) (p : Z) (s : state) :
  kvm_getprocs P (tick s) p = None ->
  Ledger.pid_depth P (S fuel) p s
  = Done (-1) (set_stderr (stderr s +:+ "extrace: kvm_getprocs: "
                             +:+ kvm_geterr P (S (tick s)) +:+ nl)
                 (set_tick (S (S (tick s))) s)).
Proof.
  intros H. cbn [Ledger.pid_depth]. unfold bind, sys. rewrite H. reflexivity.
Qed.

(** The fetch of the record by [handle_exec] fails. *)
Lemma handle_exec_no_record (fuel : nat) (p : Z) (s : state) (d : Z) (s1 : state) :
  Ledger.pid_depth P fuel p s = Done d s1 -> 0 <= d ->
  kvm_getprocs P (tick s1) p = None ->
  exists s2, Ledger.handle_exec P fuel p s = Done tt s2
    /\ output s2 = output s1 +:+ nl
    /\ stderr s2 = stderr s1 +:+ "extrace: kvm_getprocs: "
                   +:+ strerror_errno P (S (tick s1)) +:+ nl
    /\ pid_db s2 = pid_db s1 /\ quit s2 = quit s1.
Proof.
  intros Hd Hpos Hkp. unfold Ledger.handle_exec.
  rewrite (bind_done _ _ _ _ _ Hd).
  destruct (Z.ltb_spec d 0); [lia|].
  unfold bind at 1. unfold sys at 1. rewrite Hkp.
  eexists. split; [reflexivity|]. repeat split; reflexivity.
Qed.

(** The fetch of the argument vector fails. *)
Lemma handle_exec_no_argv (fuel : nat) (p : Z) (s : state) (d : Z) (s1 : state)
    (kp : kinfo_proc) :
  Ledger.pid_depth P fuel p s = Done d s1 -> 0 <= d ->
  kvm_getprocs P (tick s1) p = Some kp ->
  kvm_getargv P (S (tick s1)) kp = None ->
  exists s2, Ledger.handle_exec P fuel p s = Done tt s2
    /\ output s2 = output s1 +:+ nl
    /\ stderr s2 = stderr s1 +:+ "extrace: kvm_getargv: "
                   +:+ strerror_errno P (S (S (tick s1))) +:+ nl
    /\ pid_db s2 = pid_db s1 /\ quit s2 = quit s1.
Proof.
  intros Hd Hpos Hkp Hargv. unfold Ledger.handle_exec.
  rewrite (bind_done _ _ _ _ _ Hd).
  destruct (Z.ltb_spec d 0); [lia|].
  unfold bind at 1. unfold sys at 1. rewrite Hkp.
  unfold bind at 1. unfold sys at 1. cbn [tick set_tick]. rewrite Hargv.
  eexists. split; [reflexivity|]. repeat split; reflexivity.
Qed.

(** After an exec event that [handle_exec] returned from, the loop over the
    batch goes on with the next event. *)
Lemma handle_batch_exec (fuel : nat) (ke : kevent) (rest : list kevent) (s s' : state) :
  filter ke = EVFILT_PROC ->
  Z.land (fflags ke) NOTE_EXIT = 0 ->
  Z.land (fflags ke) NOTE_EXEC <> 0 ->
  Ledger.handle_exec P fuel (wrap32 (ident ke)) s = Done tt s' ->
  quit s = false ->
  Ledger.handle_batch P fuel (ke :: rest) s = Ledger.handle_batch P fuel rest s'.
Proof.
  intros Hf Hx He Hrun Hq.
  pose proof (handle_exec_safe fuel (wrap32 (ident ke)) s) as Hsafe.
  rewrite Hrun in Hsafe. apply touched_quit in Hsafe.
  cbn [Ledger.handle_batch]. unfold Ledger.handle_event.
  rewrite Hf, Hx. cbn.
  destruct (Z.eqb_spec (Z.land (fflags ke) NOTE_EXEC) 0) as [|_]; [contradiction|].
  cbn. unfold bind. rewrite Hrun. unfold gets.
  rewrite Hsafe, Hq. reflexivity.
Qed.

End Handlers.

(** In the exec-only revision the same two fetches end the program: with
    flat output, an exec event for a process whose record cannot be fetched
    makes [handle_msg] exit with status 1. *)
Lemma handle_msg_exits (P : platform) (fuel : nat) (p : Z) (s : state) :
  flat (opt s) = true -> show_cwd (opt s) = false ->
  kvm_getprocs P (tick s) p = None ->
  Exec_only.handle_msg P fuel p s
  = Exit 1 (set_stderr (stderr s +:+ "extrace: kvm_getprocs: "
                          +:+ strerror_errno P (S (tick s)) +:+ nl)
              (set_tick (S (S (tick s))) (set_output (output s +:+ fmt_d p +:+ " ") s))).
Proof.
  intros Hflat Hcwd Hkp. unfold Exec_only.handle_msg.
  unfold bind at 1. unfold gets at 1. rewrite Hflat, Hcwd. cbn [negb when].
  unfold bind, out, modify, ret, sys. cbn. rewrite Hkp. reflexivity.
Qed.

(** C5 fails as stated.  The record of process 500 cannot be fetched; the
    handler returns, but no blank line is written to the output: the event
    is dropped after a diagnostic on standard error. *)
Lemma vanished_process_no_blank_line :
  kvm_getprocs host_gone 0 500 = None
  /\ Ledger.handle_exec host_gone 5 500 with_t
     = Done tt (set_tick 2 (set_stderr
                  ("extrace: kvm_getprocs: no such process" +:+ nl) with_t))
  /\ output (set_tick 2 (set_stderr
               ("extrace: kvm_getprocs: no such process" +:+ nl) with_t)) = EmptyString.
Proof. repeat split; vm_compute; reflexivity. Qed.

(** C5, as amended, for the revision with the table: [handle_exec] never
    exits; when the depth resolution ends out of scope, which it does when
    the record of the process cannot be fetched there, the event is dropped
    with a diagnostic on standard error and nothing on the output; when the
    handler's own fetch of the record or of the argument vector fails, a
    blank line is written to the output and a warning to standard error;
    in every case the handler returns and the loop goes on with the next
    event of the batch. *)
Theorem exec_fetch_failure_is_survived (P : platform) (fuel : nat) (p : Z) (s : state) :
  (forall (c : Z) (s' : state), Ledger.handle_exec P fuel p s <> Exit c s')
  /\ (forall (v : list string) (s' : state), Ledger.handle_exec P fuel p s <> Execed v s')
  /\ (forall (d : Z) (s1 : state),
        Ledger.pid_depth P fuel p s = Done d s1 -> d < 0 ->
        Ledger.handle_exec P fuel p s = Done tt s1
        /\ output s1 = output s /\ pid_db s1 = pid_db s)
  /\ (forall fuel' : nat, fuel = S fuel' -> kvm_getprocs P (tick s) p = None ->
        Ledger.handle_exec P fuel p s
        = Done tt (set_stderr (stderr s +:+ "extrace: kvm_getprocs: "
                                 +:+ kvm_geterr P (S (tick s)) +:+ nl)
                     (set_tick (S (S (tick s))) s)))
  /\ (forall (d : Z) (s1 : state),
        Ledger.pid_depth P fuel p s = Done d s1 -> 0 <= d ->
        kvm_getprocs P (tick s1) p = None ->
        exists s2, Ledger.handle_exec P fuel p s = Done tt s2
          /\ output s2 = output s1 +:+ nl
          /\ stderr s2 = stderr s1 +:+ "extrace: kvm_getprocs: "
                         +:+ strerror_errno P (S (tick s1)) +:+ nl
          /\ pid_db s2 = pid_db s1 /\ quit s2 = quit s1)
  /\ (forall (d : Z) (s1 : state) (kp : kinfo_proc),
        Ledger.pid_depth P fuel p s = Done d s1 -> 0 <= d ->
        kvm_getprocs P (tick s1) p = Some kp ->
        kvm_getargv P (S (tick s1)) kp = None ->
        exists s2, Ledger.handle_exec P fuel p s = Done tt s2
          /\ output s2 = output s1 +:+ nl
          /\ stderr s2 = stderr s1 +:+ "extrace: kvm_getargv: "
                         +:+ strerror_errno P (S (S (tick s1))) +:+ nl
          /\ pid_db s2 = pid_db s1 /\ quit s2 = quit s1)
  /\ (forall (ke : kevent) (rest : list kevent) (s' : state),
        filter ke = EVFILT_PROC ->
        Z.land (fflags ke) NOTE_EXIT = 0 ->
        Z.land (fflags ke) NOTE_EXEC <> 0 ->
        wrap32 (ident ke) = p ->
        Ledger.handle_exec P fuel p s = Done tt s' ->
        quit s = false ->
        Ledger.handle_batch P fuel (ke :: rest) s = Ledger.handle_batch P fuel rest s').
Proof.
  pose proof (handle_exec_safe P fuel p s) as Hsafe.
  split; [intros c s' H; now rewrite H in Hsafe|].
  split; [intros v s' H; now rewrite H in Hsafe|].
  split.
  { intros d s1 Hd Hneg. split; [now apply (handle_exec_out_of_scope P fuel p s d)|].
    apply pid_depth_frame, ticked_err_fields in Hd. tauto. }
  split.
  { intros fuel' -> Hkp.
    apply (handle_exec_out_of_scope P _ p s (-1)); [now apply pid_depth_gone | lia]. }
  split; [intros d s1; apply handle_exec_no_record|].
  split; [intros d s1 kp; apply handle_exec_no_argv|].
  intros ke rest s' Hf Hx He <- Hrun Hq. now apply handle_batch_exec.
Qed.

(** On a host where the process is gone after its depth was resolved, and
    on a host where no argument vector can be fetched, the exec event of
    process 10 yields a blank line and the handler returns. *)
Lemma exec_fetch_failure_is_survived_witness :
  (exists s2, Ledger.handle_exec host_vanishing 5 10 with_t = Done tt s2
     /\ output s2 = output (set_tick 1 with_t) +:+ nl
     /\ stderr s2 = stderr (set_tick 1 with_t) +:+ "extrace: kvm_getprocs: "
                    +:+ strerror_errno host_vanishing 2 +:+ nl
     /\ pid_db s2 = pid_db (set_tick 1 with_t) /\ quit s2 = quit (set_tick 1 with_t))
  /\ (exists s2, Ledger.handle_exec host_no_argv 5 10 with_t = Done tt s2
     /\ output s2 = output (set_tick 1 with_t) +:+ nl
     /\ stderr s2 = stderr (set_tick 1 with_t) +:+ "extrace: kvm_getargv: "
                    +:+ strerror_errno host_no_argv 3 +:+ nl
     /\ pid_db s2 = pid_db (set_tick 1 with_t) /\ quit s2 = quit (set_tick 1 with_t)).
Proof.
  split.
  - destruct (exec_fetch_failure_is_survived host_vanishing 5 10 with_t)
      as (_ & _ & _ & _ & H & _).
    apply (H 1 (set_tick 1 with_t)); [vm_compute; reflexivity | lia | reflexivity].
  - destruct (exec_fetch_failure_is_survived host_no_argv 5 10 with_t)
      as (_ & _ & _ & _ & _ & H & _).
    apply (H 1 (set_tick 1 with_t) (Kinfo 10 1 2 (Timeval 100 0)));
      [vm_compute; reflexivity | lia | reflexivity | reflexivity].
Defined.

(** ** The table of processes *)

(** C6, on the code: with [-t] and an empty table, the exit event of
    process 500, which no slot holds, is not ignored.  The scan stops at the
    first free slot and [handle_exit] writes an exit line made of the
    fields of that slot: an empty command and the time since the epoch. *)
Theorem exit_untracked_prints :
  untracked (pid_db with_t) 500
  /\ Ledger.handle_exit host 500 0 with_t
     = Done tt (set_tick 1 (set_output
                  ("500- '' exited status=0 time=1000.500s" +:+ nl) with_t)).
Proof.
  split.
  - apply Forall_forall. intros x Hx. apply elem_of_replicate in Hx as [-> _]. discriminate.
  - vm_compute. reflexivity.
Qed.

(** C2, on the code: process 10 execs, process 20 execs, process 10 exits
    and frees the first slot, process 20 execs again.  The scan for 20 now
    stops at the freed slot before it reaches the slot that holds 20, and
    the table ends with two slots for process 20; the exit of process 20
    then frees only the first of them. *)
Theorem reexec_after_hole_duplicates :
  exists s', Ledger.handle_batch host 5 reexec_batch with_t = Done tt s'
    /\ slots_of (pid_db s') 20 = [0%nat; 1%nat]
    /\ exists s'', Ledger.handle_exit host 20 0 s' = Done tt s''
         /\ slots_of (pid_db s'') 20 = [1%nat].
Proof.
  eexists. split; [vm_compute; reflexivity|]. split; [vm_compute; reflexivity|].
  eexists. split; vm_compute; reflexivity.
Qed.

(** When every slot scanned is held by another process, the scan ends at
    the last index. *)
Lemma slot_scan_none (db : list slot) (p : Z) (n : nat) : forall i : nat,
  (forall j : nat, (i <= j < i + n)%nat -> pid (db !!! j) <> 0 /\ pid (db !!! j) <> p) ->
  Ledger.slot_scan db p n i = (i + n)%nat.
Proof.
  induction n as [|n IH]; intros i H; cbn [Ledger.slot_scan]; [lia|].
  destruct (H i) as [H0 Hp]; [lia|].
  destruct (Z.eqb_spec (pid (db !!! i)) 0) as [|_]; [contradiction|].
  destruct (Z.eqb_spec (pid (db !!! i)) p) as [|_]; [contradiction|].
  cbn [orb]. rewrite IH; [lia|]. intros j Hj. apply H. lia.
Qed.

Lemma find_slot_full (db : list slot) (p : Z) :
  full db -> untracked db p -> Ledger.find_slot db p = (PID_DB_SIZE - 1)%nat.
Proof.
  intros [Hlen Hfull] Hun. unfold Ledger.find_slot.
  rewrite slot_scan_none; [reflexivity|].
  intros j Hj.
  assert (Hlt : (j < length db)%nat) by (rewrite Hlen; unfold PID_DB_SIZE in *; lia).
  split.
  - now apply (proj1 (Forall_lookup_total _ _) Hfull).
  - now apply (proj1 (Forall_lookup_total _ _) Hun).
Qed.

Lemma overflow_warning_eq :
  "extrace: warning: pid_db of size " +:+ fmt_d (Z.of_nat PID_DB_SIZE)
    +:+ " overflowed" +:+ nl = overflow_warning.
Proof. vm_compute. reflexivity. Qed.

Lemma last_index_in_range :
  (0 <=? Z.of_nat (PID_DB_SIZE - 1))
  && (Z.of_nat (PID_DB_SIZE - 1) <? Z.of_nat PID_DB_SIZE) = true.
Proof. vm_compute. reflexivity. Qed.

Lemma with_cmdline_same (x : slot) : with_cmdline (cmdline x) x = x.
Proof. destruct x; reflexivity. Qed.

Lemma renamed_same (i : nat) (s s' : state) :
  stderr s' = stderr s -> pid_db s' = pid_db s -> renamed i s s'.
Proof.
  intros He Hdb. split; [exact He|]. rewrite Hdb. split; [reflexivity|].
  intros x Hx. exists (cmdline x). now rewrite with_cmdline_same.
Qed.

Lemma renamed_refl (i : nat) (s : state) : renamed i s s.
Proof. now apply renamed_same. Qed.

Lemma renamed_trans (i : nat) (s1 s2 s3 : state) :
  renamed i s1 s2 -> renamed i s2 s3 -> renamed i s1 s3.
Proof.
  intros (He1 & Ho1 & Hi1) (He2 & Ho2 & Hi2).
  split; [congruence|]. split.
  - intros j Hj. rewrite Ho2, Ho1 by assumption. reflexivity.
  - intros x Hx. destruct (Hi1 x Hx) as (c1 & Hc1).
    destruct (Hi2 _ Hc1) as (c2 & Hc2). exists c2. exact Hc2.
Qed.

Lemma renamed_tick (i : nat) (s : state) (n : nat) : renamed i s (set_tick n s).
Proof. now apply renamed_same. Qed.

Lemma renamed_out (i : nat) (x : string) (s : state) :
  renamed i s (set_output (output s +:+ x) s).
Proof. now apply renamed_same. Qed.

Lemma renamed_store (i : nat) (w : string) (s : state) :
  renamed i s (set_pid_db (<[i := with_cmdline w (pid_db s !!! i)]> (pid_db s)) s).
Proof.
  split; [reflexivity|]. split.
  - intros j Hj. cbn [pid_db set_pid_db]. now rewrite list_lookup_insert_ne.
  - intros x Hx. exists w. cbn [pid_db set_pid_db].
    rewrite (list_lookup_total_correct _ _ _ Hx).
    apply list_lookup_insert_eq. now apply lookup_lt_Some in Hx.
Qed.

Ltac renamed_closed :=
  first [apply renamed_tick | apply renamed_out | apply renamed_store].

Lemma print_args_renamed (i : nat) (args : list string) :
  total (renamed i) (print_args args).
Proof.
  induction args as [|a args IH]; cbn [print_args]; unfold out;
    repeat (first [apply IH
                  | total_step (renamed_refl i) (renamed_trans i) renamed_closed]).
Qed.

Lemma print_env_renamed (i : nat) (envp : list string) :
  total (renamed i) (print_env envp).
Proof.
  induction envp as [|e envp IH]; cbn [print_env]; unfold out;
    repeat (first [apply IH
                  | total_step (renamed_refl i) (renamed_trans i) renamed_closed]).
Qed.

(** With an argument vector that is not empty and an index inside the
    table, the part of [handle_exec] that writes the line returns, and
    changes in the table only the [cmdline] of the slot at that index. *)
Lemma exec_line_renamed (P : platform) (p d : Z) (kp : kinfo_proc)
    (a : string) (args : list string) (i : nat) :
  (0 <=? Z.of_nat i) && (Z.of_nat i <? Z.of_nat PID_DB_SIZE) = true ->
  total (renamed i) (Ledger.exec_line P p d (Z.of_nat i) kp (a :: args)).
Proof.
  intros Hi.
  unfold Ledger.exec_line, Ledger.name_from_argv, Ledger.store_cmdline, out, update_slot.
  rewrite Hi, Nat2Z.id.
  repeat (first [ apply print_args_renamed | apply print_env_renamed
                | total_step (renamed_refl i) (renamed_trans i) renamed_closed ]).
Qed.

(** What the scan of [handle_exit] and [handle_exec] finds: the first slot,
    among those scanned, that is free or holds [p]; the last index when
    there is none. *)
Lemma slot_scan_spec (db : list slot) (p : Z) (n : nat) : forall i : nat,
  let r := Ledger.slot_scan db p n i in
  (i <= r <= i + n)%nat
  /\ (forall j : nat, (i <= j < r)%nat -> pid (db !!! j) <> 0 /\ pid (db !!! j) <> p)
  /\ ((r < i + n)%nat -> pid (db !!! r) = 0 \/ pid (db !!! r) = p).
Proof.
  induction n as [|n IH]; intros i; cbn [Ledger.slot_scan].
  - cbv zeta. split; [lia|]. split; intros; lia.
  - destruct (Z.eqb_spec (pid (db !!! i)) 0) as [H0|H0]; cbn [orb].
    + cbv zeta. split; [lia|]. split; [intros; lia | auto].
    + destruct (Z.eqb_spec (pid (db !!! i)) p) as [Hp|Hp].
      * cbv zeta. split; [lia|]. split; [intros; lia | auto].
      * specialize (IH (S i)). cbv zeta in *. destruct IH as (Hr & Hbefore & Hat).
        split; [lia|]. split.
        -- intros j Hj. destruct (Nat.eq_dec j i) as [-> | Hne]; [auto|].
           apply Hbefore. lia.
        -- intros Hlt. apply Hat. lia.
Qed.

(** Unless it returns early, [handle_exit] frees the slot that its scan
    found, by resetting the pid of that slot to 0. *)
Lemma handle_exit_frees (P : platform) (p status : Z) (s : state) :
  flat (opt s) = true \/ 0 <= depth (pid_db s !!! Ledger.find_slot (pid_db s) p) ->
  exists s', Ledger.handle_exit P p status s = Done tt s'
    /\ pid_db s'
       = <[Ledger.find_slot (pid_db s) p :=
             with_pid 0 (pid_db s !!! Ledger.find_slot (pid_db s) p)]> (pid_db s)
    /\ stderr s' = stderr s.
Proof.
  intros H. unfold Ledger.handle_exit.
  unfold bind at 1. unfold gets at 1. unfold bind at 1. unfold gets at 1.
  assert (Hgo : negb (flat (opt s))
                && (depth (pid_db s !!! Ledger.find_slot (pid_db s) p) <? 0) = false).
  { destruct H as [-> | H]; [reflexivity|].
    apply andb_false_iff. right. apply Z.ltb_ge. exact H. }
  rewrite Hgo.
  unfold bind, when, out, modify, sys, update_slot, ret.
  destruct (negb (flat (opt s))), (WIFSIGNALED status);
    eexists; (split; [reflexivity|]); split; reflexivity.
Qed.

Section Overflow.
Variable P : platform.

(** On a full table that does not hold [p], the slot claimed is the last
    one: the warning is written and the slot overwritten. *)
Lemma claim_slot_full (p d : Z) (kp : kinfo_proc) (s : state) :
  full (pid_db s) -> untracked (pid_db s) p ->
  Ledger.claim_slot P p d kp s
  = Done (Z.of_nat (PID_DB_SIZE - 1))
      (set_pid_db
         (<[(PID_DB_SIZE - 1)%nat :=
              with_start (ki_start kp)
                (with_depth d (with_pid p (pid_db s !!! (PID_DB_SIZE - 1)%nat)))]>
            (pid_db s))
         (set_stderr (stderr s +:+ overflow_warning) s)).
Proof.
  intros Hfull Hun. unfold Ledger.claim_slot.
  unfold bind at 1. unfold gets at 1. unfold bind at 1. unfold gets at 1.
  rewrite (find_slot_full _ _ Hfull Hun). rewrite Nat.eqb_refl.
  assert (Hp : (pid (pid_db s !!! (PID_DB_SIZE - 1)%nat) =? p) = false).
  { apply Z.eqb_neq. apply (proj1 (Forall_lookup_total _ _) Hun).
    destruct Hfull as [-> _]. unfold PID_DB_SIZE. lia. }
  rewrite Hp, andb_false_r. rewrite overflow_warning_eq.
  reflexivity.
Qed.

End Overflow.

(** C3 fails as stated.  Every slot is occupied and neither 10 nor 20 is
    tracked.  The exec event of process 10 overwrites the last slot, which
    held process 2023, and writes the warning; the exec event of process 20
    that follows writes the warning a second time. *)
Lemma overflow_overwrites_and_warns_again :
  full (pid_db crowded) /\ untracked (pid_db crowded) 10 /\ untracked (pid_db crowded) 20
  /\ exists s1 s2,
       Ledger.handle_exec host 5 10 crowded = Done tt s1
       /\ Ledger.handle_exec host 5 20 s1 = Done tt s2
       /\ pid_db crowded !! 1023%nat = Some (Slot 2023 1 (Timeval 50 0) "sh")
       /\ pid_db s1 !! 1023%nat = Some (Slot 10 1 (Timeval 100 0) "/bin/true")
       /\ stderr s1 = overflow_warning
       /\ stderr s2 = overflow_warning +:+ overflow_warning.
Proof.
  assert (H : forall p, 0 <= p < 1000 -> untracked crowded_db p).
  { intros p Hp. apply Forall_forall. intros x Hx.
    unfold crowded_db in Hx. apply list_elem_of_fmap in Hx as (n & -> & Hn).
    cbn [pid]. lia. }
  split; [|split; [apply H; lia | split; [apply H; lia|]]].
  - split; [reflexivity|]. apply Forall_forall. intros x Hx.
    cbn [pid_db crowded set_pid_db] in Hx.
    unfold crowded_db in Hx. apply list_elem_of_fmap in Hx as (n & -> & Hn).
    cbn [pid]. lia.
  - eexists. eexists. split; [vm_compute; reflexivity|].
    split; [vm_compute; reflexivity|].
    repeat split; vm_compute; reflexivity.
Qed.

(** C3, as amended: when every slot is occupied and an exec event arrives
    for a process that no slot holds, that is in scope, and whose record
    and argument vector are fetched, with [-t] given or indentation on: the
    handler returns; it writes the overflow warning to standard error, at
    this event as at any other such event; the slots before the last one
    are left as they are; and the last slot is overwritten with the pid,
    the depth and the start time of the new process. *)
Theorem handle_exec_overflow (P : platform) (fuel : nat) (p : Z) (s : state)
    (d : Z) (s1 : state) (kp : kinfo_proc) (a : string) (args : list string) :
  full (pid_db s) -> untracked (pid_db s) p ->
  show_exit (opt s) || negb (flat (opt s)) = true ->
  Ledger.pid_depth P fuel p s = Done d s1 -> 0 <= d ->
  kvm_getprocs P (tick s1) p = Some kp ->
  kvm_getargv P (S (tick s1)) kp = Some (a :: args) ->
  exists s', Ledger.handle_exec P fuel p s = Done tt s'
    /\ stderr s' = stderr s +:+ overflow_warning
    /\ (forall i : nat, (i < PID_DB_SIZE - 1)%nat -> pid_db s' !! i = pid_db s !! i)
    /\ exists c : string,
         pid_db s' !! (PID_DB_SIZE - 1)%nat = Some (Slot p d (ki_start kp) c).
Proof.
  intros Hfull Hun Hmode Hd Hpos Hkp Hargv.
  destruct (ticked_err_fields _ _ (pid_depth_frame _ _ _ _ _ _ Hd)) as (Ho & Hdb & _).
  assert (Herr : stderr s1 = stderr s).
  { apply (ticked_fields s s1). apply (pid_depth_quiet P fuel p s d); [exact Hd | lia]. }
  unfold Ledger.handle_exec.
  rewrite (bind_done _ _ _ _ _ Hd).
  destruct (Z.ltb_spec d 0); [lia|].
  unfold bind at 1. unfold sys at 1. rewrite Hkp.
  unfold bind at 1. unfold sys at 1. cbn [tick set_tick]. rewrite Hargv.
  unfold bind at 1. unfold gets at 1. cbn [opt set_tick]. rewrite Ho, Hmode.
  unfold bind at 1. rewrite claim_slot_full by (cbn [pid_db set_tick]; now rewrite Hdb).
  cbn [pid_db set_tick stderr].
  match goal with |- exists s', Ledger.exec_line _ _ _ _ _ _ ?s3 = _ /\ _ =>
    pose proof (exec_line_renamed P p d kp a args (PID_DB_SIZE - 1)
                  last_index_in_range s3) as Hline
  end.
  apply returns_elim in Hline. destruct Hline as ([] & s' & Hrun & He & Hother & Hlast).
  exists s'. split; [exact Hrun|]. cbn [stderr pid_db set_pid_db set_stderr set_tick] in *.
  assert (Hlen : (PID_DB_SIZE - 1 < length (pid_db s))%nat).
  { destruct Hfull as [-> _]. unfold PID_DB_SIZE. lia. }
  split; [now rewrite He, Herr|]. split.
  - intros i Hi. rewrite Hother by lia. rewrite Hdb.
    apply list_lookup_insert_ne. lia.
  - rewrite Hdb in Hlast.
    destruct (Hlast _ (list_lookup_insert_eq _ _ _ Hlen)) as (c & Hc).
    exists c. exact Hc.
Qed.

Lemma crowded_is_full : full (pid_db crowded).
Proof.
  split; [reflexivity|]. apply Forall_forall. intros x Hx.
  cbn [pid_db crowded set_pid_db] in Hx.
  unfold crowded_db in Hx. apply list_elem_of_fmap in Hx as (n & -> & Hn).
  cbn [pid]. lia.
Defined.

Lemma crowded_lacks_10 : untracked (pid_db crowded) 10.
Proof.
  apply Forall_forall. intros x Hx.
  cbn [pid_db crowded set_pid_db] in Hx.
  unfold crowded_db in Hx. apply list_elem_of_fmap in Hx as (n & -> & Hn).
  cbn [pid]. lia.
Defined.

(** On the host of the scenario, with the table full of the processes 1000
    to 2023, the exec event of process 10 lands in the last slot. *)
Lemma handle_exec_overflow_witness :
  exists s', Ledger.handle_exec host 5 10 crowded = Done tt s'
    /\ stderr s' = stderr crowded +:+ overflow_warning
    /\ (forall i : nat, (i < PID_DB_SIZE - 1)%nat ->
          pid_db s' !! i = pid_db crowded !! i)
    /\ exists c : string,
         pid_db s' !! (PID_DB_SIZE - 1)%nat = Some (Slot 10 1 (Timeval 100 0) c).
Proof.
  apply (handle_exec_overflow host 5 10 crowded 1 (set_tick 1 crowded)
           (Kinfo 10 1 2 (Timeval 100 0)) "/bin/true" []).
  - exact crowded_is_full.
  - exact crowded_lacks_10.
  - reflexivity.
  - vm_compute. reflexivity.
  - lia.
  - reflexivity.
  - reflexivity.
Defined.

(** ** The bootstrap enumeration *)

Lemma bootstrap_change_cases (o : options) (kp : kinfo_proc) :
  Ledger.bootstrap_change o kp
  = if passed_over kp then kevent_zero
    else EV_SET (ki_pid kp) EVFILT_PROC EV_ADD
           (Z.lor (Z.lor NOTE_EXEC (if show_exit o then NOTE_EXIT else 0)) NOTE_TRACK) 0 0.
Proof.
  unfold Ledger.bootstrap_change, passed_over.
  destruct (ki_pid kp =? 0), (ki_ppid kp =? 0), (ki_stat kp =? SZOMB); reflexivity.
Qed.

Lemma bootstrap_change_cases0 (kp : kinfo_proc) :
  Exec_only.bootstrap_change kp
  = if passed_over kp then kevent_zero
    else EV_SET (ki_pid kp) EVFILT_PROC EV_ADD (Z.lor NOTE_EXEC NOTE_TRACK) 0 0.
Proof.
  unfold Exec_only.bootstrap_change, passed_over.
  destruct (ki_pid kp =? 0), (ki_ppid kp =? 0), (ki_stat kp =? SZOMB); reflexivity.
Qed.

Section Bootstrap.
Variable P : platform.

(** One round of the block under [again]: after the listing, the changes
    for all listed processes are handed to [kevent] at once; on [ESRCH] the
    block is run again from the state reached, otherwise it is left. *)
Lemma bootstrap_round (tries : nat) (s : state) (procs : list kinfo_proc) :
  kvm_getprocs_all P (tick s) = Some procs ->
  calloc P (S (tick s)) = true ->
  let kevs := map (Ledger.bootstrap_change (opt s)) procs in
  let e := kevent_change P (S (S (tick s))) kevs in
  Ledger.bootstrap P (S tries) s
  = if e =? ESRCH then Ledger.bootstrap P tries (after_round P kevs e s)
    else Done tt (after_round P kevs e s).
Proof.
  intros Hl Hc kevs e. cbn [Ledger.bootstrap].
  unfold bind at 1. unfold sys at 1. rewrite Hl.
  unfold bind at 1. unfold sys at 1. cbn [tick set_tick]. rewrite Hc. cbn [negb].
  unfold bind at 1. unfold gets at 1. cbn [opt set_tick].
  unfold bind at 1. unfold kevent_register, bind at 1, sys at 1. cbn [tick set_tick].
  fold kevs. fold e. clearbody e. unfold after_round.
  unfold bind, modify, ret, when, warn, err_out, sys.
  destruct (e =? 0); cbn; destruct (e =? ESRCH); reflexivity.
Qed.

Lemma bootstrap_round0 (tries : nat) (s : state) (procs : list kinfo_proc) :
  kvm_getprocs_all P (tick s) = Some procs ->
  calloc P (S (tick s)) = true ->
  let kevs := map Exec_only.bootstrap_change procs in
  let e := kevent_change P (S (S (tick s))) kevs in
  Exec_only.bootstrap P (S tries) s
  = if e =? ESRCH then Exec_only.bootstrap P tries (after_round P kevs e s)
    else Done tt (after_round P kevs e s).
Proof.
  intros Hl Hc kevs e. cbn [Exec_only.bootstrap].
  unfold bind at 1. unfold sys at 1. rewrite Hl.
  unfold bind at 1. unfold sys at 1. cbn [tick set_tick]. rewrite Hc. cbn [negb].
  unfold bind at 1. unfold kevent_register, bind at 1, sys at 1. cbn [tick set_tick].
  fold kevs. fold e. clearbody e. unfold after_round.
  unfold bind, modify, ret, when, warn, err_out, sys.
  destruct (e =? 0); cbn; destruct (e =? ESRCH); reflexivity.
Qed.

End Bootstrap.

(** C8: in the bootstrap of the system-wide mode, after a listing of the
    processes, the change built for a zombie or for a process whose pid or
    parent pid is 0 is the all-zero entry, which asks for nothing, and the
    change for any other process asks to follow it; all changes are handed
    to [kevent] in one call.  When that call fails with [ESRCH], the whole
    block is run again from the listing on (with every change built and
    handed over anew); when it fails with another error, a warning is
    written to standard error and the bootstrap is left normally; a warning
    is written in the [ESRCH] case too. *)
Theorem bootstrap_retries_whole_listing (P : platform) (tries : nat) (s : state)
    (procs : list kinfo_proc) :
  kvm_getprocs_all P (tick s) = Some procs ->
  calloc P (S (tick s)) = true ->
  let kevs := map (Ledger.bootstrap_change (opt s)) procs in
  let kevs0 := map Exec_only.bootstrap_change procs in
  let e := kevent_change P (S (S (tick s))) kevs in
  let e0 := kevent_change P (S (S (tick s))) kevs0 in
  (forall kp : kinfo_proc,
     (passed_over kp = true ->
        Ledger.bootstrap_change (opt s) kp = kevent_zero
        /\ Exec_only.bootstrap_change kp = kevent_zero)
     /\ (passed_over kp = false ->
           Ledger.bootstrap_change (opt s) kp
           = EV_SET (ki_pid kp) EVFILT_PROC EV_ADD
               (Z.lor (Z.lor NOTE_EXEC (if show_exit (opt s) then NOTE_EXIT else 0))
                  NOTE_TRACK) 0 0
           /\ Exec_only.bootstrap_change kp
              = EV_SET (ki_pid kp) EVFILT_PROC EV_ADD (Z.lor NOTE_EXEC NOTE_TRACK) 0 0))
  /\ (e = ESRCH ->
        Ledger.bootstrap P (S tries) s = Ledger.bootstrap P tries (after_round P kevs e s))
  /\ (e <> ESRCH -> Ledger.bootstrap P (S tries) s = Done tt (after_round P kevs e s))
  /\ (e0 = ESRCH ->
        Exec_only.bootstrap P (S tries) s
        = Exec_only.bootstrap P tries (after_round P kevs0 e0 s))
  /\ (e0 <> ESRCH -> Exec_only.bootstrap P (S tries) s = Done tt (after_round P kevs0 e0 s))
  /\ (forall (l : list kevent) (x : Z),
        submitted (after_round P l x s) = (l, x) :: submitted s
        /\ (x <> 0 ->
              stderr (after_round P l x s)
              = stderr s +:+ "extrace: kevent ALL: "
                +:+ strerror_errno P (3 + tick s) +:+ nl)
        /\ (x = 0 -> stderr (after_round P l x s) = stderr s)).
Proof.
  intros Hl Hc kevs kevs0 e e0.
  pose proof (bootstrap_round P tries s procs Hl Hc) as H.
  pose proof (bootstrap_round0 P tries s procs Hl Hc) as H0.
  cbv zeta in H, H0. fold kevs in H. fold e in H. fold kevs0 in H0. fold e0 in H0.
  split.
  { intros kp. rewrite bootstrap_change_cases, bootstrap_change_cases0.
    split; intros ->; split; reflexivity. }
  split; [intros He; rewrite H, He; reflexivity|].
  split; [intros He; rewrite H; apply Z.eqb_neq in He; now rewrite He|].
  split; [intros He; rewrite H0, He; reflexivity|].
  split; [intros He; rewrite H0; apply Z.eqb_neq in He; now rewrite He|].
  intros l x. unfold after_round.
  destruct (Z.eqb_spec x 0) as [-> | Hx]; repeat split; cbn; intros; congruence.
Qed.

(** On a host where the first submission fails with [ESRCH]: the kernel and
    init (parent pid 0) and the zombie get a zero entry, process 10 is
    followed, and the block is run a second time. *)
Lemma bootstrap_retries_whole_listing_witness :
  map (Ledger.bootstrap_change (opt with_t)) listing
  = [kevent_zero; kevent_zero;
     EV_SET 10 EVFILT_PROC EV_ADD (Z.lor (Z.lor NOTE_EXEC NOTE_EXIT) NOTE_TRACK) 0 0;
     kevent_zero]
  /\ Ledger.bootstrap host_racy 2 with_t
     = Ledger.bootstrap host_racy 1
         (after_round host_racy (map (Ledger.bootstrap_change (opt with_t)) listing)
            ESRCH with_t).
Proof.
  split; [reflexivity|].
  destruct (bootstrap_retries_whole_listing host_racy 1 with_t listing eq_refl eq_refl)
    as (_ & H & _).
  apply H. reflexivity.
Defined.

(** ** The command line *)

Lemma digits_no_digit (acc : Z) (s : string) :
  match s with String d _ => digit d = None | EmptyString => True end ->
  digits acc s = acc.
Proof. destruct s as [|d r]; [reflexivity|]. simpl. now intros ->. Qed.

Lemma not_is_Some_None {A : Type} (o : option A) :
  bool_decide (is_Some o) = false -> o = None.
Proof.
  intros H. apply bool_decide_eq_false in H. destruct o; [|reflexivity].
  exfalso. apply H. eauto.
Qed.

(** [atoi] of a string that does not begin with a number is 0. *)
Lemma atoi_no_number (a : string) : begins_with_number a = false -> atoi a = 0.
Proof.
  unfold begins_with_number, atoi, strtol10.
  destruct (skip_space a) as [|c r]; [reflexivity|].
  destruct (Ascii.eqb c (ch 45)) eqn:E1; simpl orb.
  - intros H. rewrite digits_no_digit; [reflexivity|].
    destruct r; [exact I|]. now apply not_is_Some_None.
  - destruct (Ascii.eqb c (ch 43)) eqn:E2.
    + intros H. rewrite digits_no_digit; [reflexivity|].
      destruct r; [exact I|]. now apply not_is_Some_None.
    + intros H. rewrite digits_no_digit; [reflexivity|].
      now apply not_is_Some_None.
Qed.

Lemma option_case_p (P : platform) (a : string) (s : state) :
  Ledger.option_case P "p" a s = Done tt (set_parent (atoi a) s).
Proof. reflexivity. Qed.

Lemma option_case_p0 (P : platform) (a : string) (s : state) :
  Exec_only.option_case P "p" a s = Done tt (set_parent (atoi a) s).
Proof. reflexivity. Qed.

(** Two arguments of [-p] with the same [atoi] make the same option loop. *)
Lemma parse_options_same_p (P : platform) (a b : string) : atoi a = atoi b ->
  forall (pre post : list (ascii * string)) (s : state),
    Ledger.parse_options P (pre ++ ("p"%char, a) :: post) s
    = Ledger.parse_options P (pre ++ ("p"%char, b) :: post) s.
Proof.
  intros Hab pre post. induction pre as [|[c o] pre IH]; intros s.
  - cbn [app Ledger.parse_options]. unfold bind. rewrite !option_case_p, Hab. reflexivity.
  - cbn [app Ledger.parse_options]. unfold bind.
    destruct (Ledger.option_case P c o s); try reflexivity. apply IH.
Qed.

Lemma parse_options_same_p0 (P : platform) (a b : string) : atoi a = atoi b ->
  forall (pre post : list (ascii * string)) (s : state),
    Exec_only.parse_options P (pre ++ ("p"%char, a) :: post) s
    = Exec_only.parse_options P (pre ++ ("p"%char, b) :: post) s.
Proof.
  intros Hab pre post. induction pre as [|[c o] pre IH]; intros s.
  - cbn [app Exec_only.parse_options]. unfold bind. rewrite !option_case_p0, Hab. reflexivity.
  - cbn [app Exec_only.parse_options]. unfold bind.
    destruct (Exec_only.option_case P c o s); try reflexivity. apply IH.
Qed.

(** The cases of the [switch] on the option letter, one after the other. *)
Ltac option_case_tac Hopen :=
  repeat match goal with
    | |- context [Ascii.eqb ?c ?x] =>
        is_var c;
        let E := fresh "E" in
        destruct (Ascii.eqb c x) eqn:E;
        [ apply Ascii.eqb_eq in E; subst c;
          try (left; eexists; repeat split; reflexivity) | ]
    end;
  try (unfold bind, sys; rewrite Hopen; left; eexists; repeat split; reflexivity);
  try (right; eexists; repeat split; reflexivity).

Section Parse.
Variable P : platform.
Hypothesis Hopen : forall (t : nat) (f : string), fopen P t f = true.

Lemma option_case_ok (c : ascii) (o : string) (s : state) :
  option_ok c o s (Ledger.option_case P c o s) Ledger.usage_text.
Proof. unfold option_ok, Ledger.option_case. option_case_tac Hopen. Qed.

Lemma option_case_ok0 (c : ascii) (o : string) (s : state) :
  option_ok c o s (Exec_only.option_case P c o s) Exec_only.usage_text.
Proof. unfold option_ok, Exec_only.option_case. option_case_tac Hopen. Qed.

End Parse.

Section ParseLoop.
Variable oc : ascii -> string -> M unit.
Variable po : list (ascii * string) -> M unit.
Variable text : string.
Hypothesis po_nil : forall s, po [] s = Done tt s.
Hypothesis po_cons : forall c o rest s,
  po ((c, o) :: rest) s = bind (oc c o) (fun _ => po rest) s.
Hypothesis oc_ok : forall c o s, option_ok c o s (oc c o s) text.

(** The option loop leaves the root at the [atoi] of the last [-p], or
    ends in the usage error. *)
Lemma parse_loop_ok (opts : list (ascii * string)) :
  forall s : state, parse_ok opts s (po opts s) text.
Proof.
  induction opts as [|[c o] rest IH]; intros s.
  - left. exists s. rewrite po_nil. repeat split; reflexivity.
  - rewrite po_cons. unfold bind.
    destruct (oc_ok c o s) as [(s1 & -> & He & Hs & Hp) | (s1 & -> & He & Hs)].
    + destruct (IH s1) as [(s2 & Hr & He2 & Hs2 & Hp2) | (s2 & Hr & He2 & Hs2)];
        rewrite Hr.
      * left. exists s2. split; [reflexivity|].
        split; [congruence|]. split; [congruence|].
        rewrite Hp2, Hp. cbn [last_p].
        destruct (last_p rest); [reflexivity|].
        destruct (Ascii.eqb c "p"); reflexivity.
      * right. exists s2. split; [reflexivity|]. split; congruence.
    + right. exists s1. split; [reflexivity|]. split; assumption.
Qed.

End ParseLoop.

Section Usage.
Variable P : platform.
Hypothesis Hopen : forall (t : nat) (f : string), fopen P t f = true.

Lemma parse_options_ok (opts : list (ascii * string)) (s : state) :
  parse_ok opts s (Ledger.parse_options P opts s) Ledger.usage_text.
Proof.
  apply (parse_loop_ok (Ledger.option_case P)); try reflexivity.
  apply option_case_ok, Hopen.
Qed.

Lemma parse_options_ok0 (opts : list (ascii * string)) (s : state) :
  parse_ok opts s (Exec_only.parse_options P opts s) Exec_only.usage_text.
Proof.
  apply (parse_loop_ok (Exec_only.option_case P)); try reflexivity.
  apply option_case_ok0, Hopen.
Qed.

Lemma startup_usage (tries : nat) (opts : list (ascii * string))
    (operands : list string) (a : string) (s : state) :
  last_p opts = Some a -> atoi a <> 1 -> operands <> [] ->
  exists s', Ledger.startup P tries opts operands s = Exit 1 s'
             /\ stderr s' = stderr s +:+ Ledger.usage_text
             /\ submitted s' = submitted s.
Proof.
  intros Hlast Hne Hcmd.
  assert (Hdec : bool_decide (operands = []) = false) by now apply bool_decide_eq_false.
  unfold Ledger.startup. unfold bind at 1.
  destruct (parse_options_ok opts s)
    as [(s1 & -> & He & Hs & Hp) | (s1 & -> & He & Hs)].
  - rewrite Hlast in Hp. cbn [from_option] in Hp.
    unfold bind at 1. unfold gets. rewrite Hp, Hdec.
    destruct (Z.eqb_spec (atoi a) 1) as [|_]; [contradiction|].
    cbn. eexists. split; [reflexivity|]. cbn. split; congruence.
  - exists s1. repeat split; assumption.
Qed.

Lemma startup_usage0 (tries : nat) (opts : list (ascii * string))
    (operands : list string) (a : string) (s : state) :
  last_p opts = Some a -> atoi a <> 1 -> operands <> [] ->
  exists s', Exec_only.startup P tries opts operands s = Exit 1 s'
             /\ stderr s' = stderr s +:+ Exec_only.usage_text
             /\ submitted s' = submitted s.
Proof.
  intros Hlast Hne Hcmd.
  assert (Hdec : bool_decide (operands = []) = false) by now apply bool_decide_eq_false.
  unfold Exec_only.startup. unfold bind at 1.
  destruct (parse_options_ok0 opts s)
    as [(s1 & -> & He & Hs & Hp) | (s1 & -> & He & Hs)].
  - rewrite Hlast in Hp. cbn [from_option] in Hp.
    unfold bind at 1. unfold gets. rewrite Hp, Hdec.
    destruct (Z.eqb_spec (atoi a) 1) as [|_]; [contradiction|].
    cbn. eexists. split; [reflexivity|]. cbn. split; congruence.
  - exists s1. repeat split; assumption.
Qed.

End Usage.



Lemma host_opens_files : forall (t : nat) (f : string), fopen host t f = true.
Proof. intros t f. reflexivity. Defined.

Lemma atoi_5 : atoi "5" <> 1.
Proof. vm_compute. discriminate. Defined.

Lemma true_is_command : ["true"] <> @nil string.
Proof. discriminate. Defined.


Section Track.
Variable P : platform.

(** With a root of 0 and no command, the start-up hands to [kevent] the
    change that asks to follow process 0. *)
Lemma startup_tracks_zero (tries : nat) (a : string) (s : state) :
  atoi a = 0 ->
  kqueue P (tick s) <> -1 ->
  kvm_openfiles P (S (tick s)) = true ->
  kevent_change P (S (S (tick s))) watch_sigint = 0 ->
  let e := kevent_change P (S (S (S (tick s)))) (track 0) in
  exists s', (if e =? 0
              then Ledger.startup P tries [("p"%char, a)] [] s = Done tt s'
                   /\ stderr s' = stderr s
              else Ledger.startup P tries [("p"%char, a)] [] s = Exit 1 s')
             /\ parent s' = 0
             /\ submitted s' = (track 0, e) :: (watch_sigint, 0) :: submitted s.
Proof.
  intros Ha Hkq Hkd Hint e.
  unfold Ledger.startup. cbn [Ledger.parse_options].
  unfold bind, gets, ret, sys, kevent_register, modify, when. rewrite option_case_p, Ha.
  cbn. destruct (Z.eqb_spec (kqueue P (tick s)) (-1)) as [|_]; [contradiction|].
  cbn. rewrite Hkd. cbn. unfold watch_sigint in Hint. rewrite Hint. cbn.
  fold (track 0). fold e. fold watch_sigint.
  destruct (e =? 0); cbn; eexists; repeat split; reflexivity.
Qed.

Lemma startup_tracks_zero0 (tries : nat) (a : string) (s : state) :
  atoi a = 0 ->
  kqueue P (tick s) <> -1 ->
  kvm_openfiles P (S (tick s)) = true ->
  kevent_change P (S (S (tick s))) watch_sigint = 0 ->
  let e := kevent_change P (S (S (S (tick s)))) (track 0) in
  exists s', (if e =? 0
              then Exec_only.startup P tries [("p"%char, a)] [] s = Done tt s'
                   /\ stderr s' = stderr s
              else Exec_only.startup P tries [("p"%char, a)] [] s = Exit 1 s')
             /\ parent s' = 0
             /\ submitted s' = (track 0, e) :: (watch_sigint, 0) :: submitted s.
Proof.
  intros Ha Hkq Hkd Hint e.
  unfold Exec_only.startup. cbn [Exec_only.parse_options].
  unfold bind, gets, ret, sys, kevent_register, modify, when. rewrite option_case_p0, Ha.
  cbn. destruct (Z.eqb_spec (kqueue P (tick s)) (-1)) as [|_]; [contradiction|].
  cbn. rewrite Hkd. cbn. unfold watch_sigint in Hint. rewrite Hint. cbn.
  fold (track 0). fold e. fold watch_sigint.
  destruct (e =? 0); cbn; eexists; repeat split; reflexivity.
Qed.

End Track.

(** C10: when the argument of [-p] does not begin with a decimal number
    (after optional white space and sign, as [atoi] reads it), [atoi] gives
    0; the option sets the scope root to 0 and writes no diagnostic; the
    program then runs exactly as with [-p 0]; and when it is the only
    option and the kqueue, the kvm handle and the interrupt subscription
    are obtained, the start-up asks [kevent] to follow process 0.  Both
    revisions do so. *)
Theorem pid_without_number_is_zero (P : platform) (a : string) :
  begins_with_number a = false ->
  atoi a = 0
  /\ (forall s : state,
        Ledger.option_case P "p" a s = Done tt (set_parent 0 s)
        /\ Exec_only.option_case P "p" a s = Done tt (set_parent 0 s))
  /\ (forall (tries rounds fuel : nat) (pre post : list (ascii * string))
        (operands : list string) (s : state),
        Ledger.main P tries rounds fuel (pre ++ ("p"%char, a) :: post) operands s
        = Ledger.main P tries rounds fuel (pre ++ ("p"%char, "0") :: post) operands s
        /\ Exec_only.main P tries rounds fuel (pre ++ ("p"%char, a) :: post) operands s
           = Exec_only.main P tries rounds fuel (pre ++ ("p"%char, "0") :: post) operands s)
  /\ (forall (tries : nat) (s : state),
        kqueue P (tick s) <> -1 ->
        kvm_openfiles P (S (tick s)) = true ->
        kevent_change P (S (S (tick s))) watch_sigint = 0 ->
        let e := kevent_change P (S (S (S (tick s)))) (track 0) in
        (exists s', (if e =? 0
                     then Ledger.startup P tries [("p"%char, a)] [] s = Done tt s'
                          /\ stderr s' = stderr s
                     else Ledger.startup P tries [("p"%char, a)] [] s = Exit 1 s')
                    /\ parent s' = 0
                    /\ submitted s' = (track 0, e) :: (watch_sigint, 0) :: submitted s)
        /\ (exists s', (if e =? 0
                        then Exec_only.startup P tries [("p"%char, a)] [] s = Done tt s'
                             /\ stderr s' = stderr s
                        else Exec_only.startup P tries [("p"%char, a)] [] s = Exit 1 s')
                       /\ parent s' = 0
                       /\ submitted s' = (track 0, e) :: (watch_sigint, 0) :: submitted s)).
Proof.
  intros Hno. pose proof (atoi_no_number a Hno) as Ha.
  split; [exact Ha|]. split.
  { intros s. rewrite option_case_p, option_case_p0, Ha. split; reflexivity. }
  split.
  { intros tries rounds fuel pre post operands s.
    assert (Hab : atoi a = atoi "0") by (rewrite Ha; reflexivity).
    unfold Ledger.main, Ledger.startup, Exec_only.main, Exec_only.startup, bind.
    rewrite (parse_options_same_p P a "0" Hab pre post s).
    rewrite (parse_options_same_p0 P a "0" Hab pre post s).
    split; reflexivity. }
  intros tries s Hkq Hkd Hint e. split.
  - apply startup_tracks_zero; assumption.
  - apply startup_tracks_zero0; assumption.
Qed.

Lemma host_has_kqueue : kqueue host (tick initial) <> -1.
Proof. discriminate. Defined.

(** [extrace -p abc] sets the root to 0 and asks to follow process 0. *)
Lemma pid_without_number_is_zero_witness :
  atoi "abc" = 0
  /\ exists s', (Ledger.startup host 1 [("p"%char, "abc")] [] initial = Done tt s'
                 /\ stderr s' = stderr initial)
                /\ parent s' = 0
                /\ submitted s' = (track 0, 0) :: (watch_sigint, 0) :: submitted initial.
Proof.
  destruct (pid_without_number_is_zero host "abc" eq_refl) as (Ha & _ & _ & H).
  split; [exact Ha|].
  destruct (H 1%nat initial host_has_kqueue eq_refl eq_refl) as [Hl _].
  exact Hl.
Defined.

(** * Further properties *)

Import More.


(** ** What the output loops write *)

Lemma print_args_text (args : list string) : forall s : state,
  print_args args s = Done tt (set_output (output s +:+ args_text args) s).
Proof.
  induction args as [|a args IH]; intros s; cbn [print_args args_text].
  - rewrite str_app_nil_r. destruct s; reflexivity.
  - unfold bind, out, modify. rewrite IH. cbn [output set_output].
    rewrite !str_app_assoc. reflexivity.
Qed.

Lemma print_env_text (envp : list string) : forall s : state,
  print_env envp s = Done tt (set_output (output s +:+ env_text envp) s).
Proof.
  induction envp as [|e envp IH]; intros s; cbn [print_env env_text].
  - rewrite str_app_nil_r. destruct s; reflexivity.
  - unfold env_entry_text, bind, out, modify.
    destruct (strchr e (ch 61)) as [[name value]|]; rewrite IH; cbn [output set_output];
      rewrite !str_app_assoc; reflexivity.
Qed.

(** ** Reading a trace line back *)

Lemma run_app (a b : string) : forall st : list string * mode,
  run st (a +:+ b) = match run st a with Some st' => run st' b | None => None end.
Proof.
  induction a as [|c a IH]; intros st; [reflexivity|].
  rewrite str_app_cons. cbn [run]. destruct (step st c); [apply IH | reflexivity].
Qed.

(** What [print_shquoted] writes continues the open word, if any, by the
    string itself. *)
Lemma run_shquoted (ws : list string) (w : option string) (x : string) :
  run (ws, Out w) (print_shquoted x) = Some (ws, Out (Some (open w +:+ x))).
Proof.
  unfold print_shquoted. destruct x as [|c x].
  - rewrite str_app_nil_r. reflexivity.
  - destruct (strpbrk (String c x) special) eqn:E.
    + change (run (ws, Out w) (String squote ?y)) with (run (ws, SQ (open w)) y).
      apply run_quoted.
    + now rewrite (run_bare ws _ w E).
Qed.

Lemma run_blanks (ws : list string) (n : nat) :
  run (ws, Out None) (of_chars (replicate n space)) = Some (ws, Out None).
Proof. induction n as [|n IH]; [reflexivity|]. exact IH. Qed.

Lemma string_of_uint_plain (u : Decimal.uint) :
  strpbrk (NilEmpty.string_of_uint u) special = None.
Proof. induction u; cbn [NilEmpty.string_of_uint strpbrk]; try rewrite IHu; reflexivity. Qed.

(** A number printed with [%d] has no special byte. *)
Lemma fmt_d_plain (z : Z) : strpbrk (fmt_d z) special = None.
Proof.
  unfold fmt_d, NilZero.string_of_int, NilZero.string_of_uint.
  destruct (Z.to_int z) as [u|u]; destruct u; cbn [strpbrk]; 
    try reflexivity;
    try (change (mem ?c special) with false; cbv iota);
    try apply (string_of_uint_plain (Decimal.D0 u));
    try apply string_of_uint_plain.
Qed.

Lemma strchr_split (e : string) (c : ascii) (name value : string) :
  strchr e c = Some (name, value) ->
  e = name +:+ String c value /\ mem c name = false.
Proof.
  revert name value. induction e as [|x e IH]; intros name value; cbn [strchr]; [discriminate|].
  destruct (Ascii.eqb x c) eqn:E.
  - intros [= <- <-]. apply Ascii.eqb_eq in E. subst x. split; reflexivity.
  - destruct (strchr e c) as [[pre post]|]; [|discriminate].
    intros [= <- <-]. destruct (IH pre post eq_refl) as [-> Hm].
    split; [reflexivity|]. cbn [mem]. rewrite Ascii.eqb_sym, E. exact Hm.
Qed.

Lemma push_all (items : list string) : forall (ws : list string) (w : string),
  fst (push ws w items) ++ [snd (push ws w items)] = ws ++ w :: items.
Proof.
  induction items as [|x items IH]; intros ws w; cbn [push]; [reflexivity|].
  rewrite IH. now rewrite <- app_assoc.
Qed.

Lemma run_space (ws : list string) (w : string) (rest : string) :
  run (ws, Out (Some w)) (String space rest) = run (ws ++ [w], Out None) rest.
Proof. reflexivity. Qed.

Lemma run_args_text (args : list string) : forall (ws : list string) (w : string),
  run (ws, Out (Some w)) (args_text args)
  = Some (fst (push ws w args), Out (Some (snd (push ws w args)))).
Proof.
  induction args as [|a args IH]; intros ws w; cbn [args_text push]; [reflexivity|].
  change (" " +:+ ?x) with (String space x). rewrite run_space, run_app, run_shquoted.
  apply IH.
Qed.

Lemma run_env_entry (ws : list string) (e : string) :
  run (ws, Out None) (env_entry_text e) = Some (ws, Out (Some e)).
Proof.
  unfold env_entry_text. destruct (strchr e (ch 61)) as [[name value]|] eqn:E.
  - apply strchr_split in E as [-> _].
    rewrite run_app, run_shquoted. change ("=" +:+ ?x) with (String (ch 61) x).
    cbn [run]. rewrite step_plain by reflexivity.
    rewrite run_shquoted. unfold open. cbn [default from_option id].
    rewrite str_app_nil_l. now rewrite snoc_app.
  - apply run_shquoted.
Qed.

Lemma run_env_text (envp : list string) : forall (ws : list string) (w : string),
  run (ws, Out (Some w)) (env_text envp)
  = Some (fst (push ws w envp), Out (Some (snd (push ws w envp)))).
Proof.
  induction envp as [|e envp IH]; intros ws w; cbn [env_text push]; [reflexivity|].
  change (" " +:+ ?x) with (String space x). rewrite run_space, run_app, run_env_entry.
  apply IH.
Qed.

Lemma fmt_d_nonempty (z : Z) : fmt_d z <> EmptyString.
Proof.
  unfold fmt_d, NilZero.string_of_int, NilZero.string_of_uint.
  destruct (Z.to_int z) as [u|u]; destruct u; discriminate.
Qed.

Lemma run_head (ws : list string) (p : Z) (b : bool) (rest : string) :
  run (ws, Out None) (fmt_d p +:+ (if b then "+" else EmptyString) +:+ " " +:+ rest)
  = run (ws ++ [fmt_d p +:+ (if b then "+" else EmptyString)], Out None) rest.
Proof.
  rewrite run_app, (run_bare ws _ None (fmt_d_plain p)).
  pose proof (fmt_d_nonempty p) as Hne.
  destruct (fmt_d p) as [|c x] eqn:E; [contradiction|].
  unfold open. cbn [default from_option id]. rewrite str_app_nil_l.
  destruct b.
  - change ("+" +:+ " " +:+ rest) with (String "+" (String space rest)).
    change (run (ws, Out (Some (String c x))) (String "+" (String space rest)))
      with (match step (ws, Out (Some (String c x))) "+" with
            | Some st' => run st' (String space rest)
            | None => None
            end).
    rewrite step_plain by reflexivity. rewrite run_space.
    unfold open, snoc. cbn [default from_option id]. reflexivity.
  - rewrite str_app_nil_l, str_app_nil_r.
    change (" " +:+ rest) with (String space rest). apply run_space.
Qed.

Lemma run_cwd (ws : list string) (b : bool) (x rest : string) :
  run (ws, Out None) ((if b then print_shquoted x else "?") +:+ " % " +:+ rest)
  = run (ws ++ [if b then x else "?"; "%"], Out None) rest.
Proof.
  rewrite run_app.
  assert (H : run (ws, Out None) (if b then print_shquoted x else "?")
              = Some (ws, Out (Some (if b then x else "?")))).
  { destruct b; [|reflexivity]. rewrite run_shquoted. reflexivity. }
  rewrite H.
  change (" % " +:+ rest) with (String space (String "%" (String space rest))).
  rewrite run_space.
  change (run (ws ++ [if b then x else "?"], Out None) (String "%" (String space rest)))
    with (match step (ws ++ [if b then x else "?"], Out None) "%" with
          | Some st' => run st' (String space rest)
          | None => None
          end).
  rewrite step_plain by reflexivity. rewrite run_space.
  rewrite <- app_assoc. reflexivity.
Qed.

(** The words of the tail of a line: the arguments and the environment
    behind the name. *)
Lemma run_tail (ws : list string) (name : string) (args : list string)
    (envp : list string) :
  match run (ws, Out (Some name)) (args_text args +:+ env_text envp) with
  | Some (ws', Out (Some w)) => ws' ++ [w] = ws ++ name :: args ++ envp
  | _ => False
  end.
Proof.
  rewrite run_app, run_args_text. cbv iota. rewrite run_env_text.
  rewrite (push_all envp (push ws name args).1 (push ws name args).2).
  rewrite (cons_middle (push ws name args).2 (push ws name args).1 envp).
  rewrite (app_assoc (push ws name args).1 [(push ws name args).2] envp).
  rewrite (push_all args ws name). rewrite <- app_assoc. reflexivity.
Qed.

(** Whatever the options, the line is a list of words for the
    shell, and these words are the pid, the working directory and its
    marker, the name, the arguments and the environment, as far as each was
    asked for. *)
Lemma words_line_text (o : options) (p d : Z) (r : answers) (a : string)
    (args : list string) :
  words (line_text o p d r a args) = Some (line_words o p r a args).
Proof.
  unfold words, line_text, line_words.
  rewrite run_app.
  assert (Hpad : run ([], Out None) (if negb (flat o) then fmt_pad (2 * d) else EmptyString)
                 = Some ([], Out None)).
  { destruct (negb (flat o)); [apply run_blanks | reflexivity]. }
  rewrite Hpad, run_head.
  set (head := fmt_d p +:+ (if show_exit o then "+" else EmptyString)).
  assert (Hcwd : forall rest,
            run ([] ++ [head], Out None)
              ((if show_cwd o
                then (if negb (fst (cwd r) =? 1) then print_shquoted (snd (cwd r)) else "?")
                     +:+ " % "
                else EmptyString) +:+ rest)
            = run ([head] ++ (if show_cwd o
                              then [if negb (fst (cwd r) =? 1) then snd (cwd r) else "?"; "%"]
                              else []), Out None) rest).
  { intros rest. destruct (show_cwd o).
    - rewrite str_app_assoc. apply run_cwd.
    - rewrite str_app_nil_l, app_nil_r. reflexivity. }
  rewrite Hcwd. rewrite run_app, run_shquoted.
  unfold open. cbn [default from_option id]. rewrite str_app_nil_l.
  set (ws := [head] ++ _).
  set (argl := if show_args o then args else []).
  set (envl := if show_env o then match envv r with Some l => l | None => ["-"] end else []).
  assert (Hargs : (if show_args o then args_text args else EmptyString) = args_text argl).
  { unfold argl. destruct (show_args o); reflexivity. }
  assert (Henv : (if show_env o
                  then match envv r with Some l => env_text l | None => " -" end
                  else EmptyString) = env_text envl).
  { unfold envl. destruct (show_env o); [destruct (envv r)|]; reflexivity. }
  rewrite Hargs, Henv.
  pose proof (run_tail ws (shown_name o r a) argl envl) as Ht.
  clear Hpad Hcwd.
  destruct (run (ws, Out (Some (shown_name o r a))) _)
    as [[ws' [[w|]| | | | | | |]]|]; try contradiction.
  rewrite Ht. unfold ws. rewrite <- !app_assoc. reflexivity.
Qed.

(** ** The line of an exec event, piece by piece *)

Lemma index_in_range (i : nat) :
  (i < PID_DB_SIZE)%nat ->
  (0 <=? Z.of_nat i) && (Z.of_nat i <? Z.of_nat PID_DB_SIZE) = true.
Proof.
  intros H. apply andb_true_intro. split; [apply Z.leb_le | apply Z.ltb_lt]; lia.
Qed.

Lemma writes_eq (m : M unit) (s : state) (k k' : nat) (t t' : string)
    (db db' : list slot) :
  writes m s k t db -> k = k' -> t = t' -> db = db' -> writes m s k' t' db'.
Proof. now intros H <- <- <-. Qed.

Lemma writes_ret (s : state) : writes (ret tt) s 0 EmptyString (pid_db s).
Proof. unfold writes, ret. rewrite str_app_nil_r. destruct s; reflexivity. Qed.

Lemma writes_out (x : string) (s : state) (db : list slot) :
  pid_db s = db -> writes (out x) s 0 x db.
Proof. intros <-. unfold writes, out, modify. destruct s; reflexivity. Qed.

Lemma writes_when (b : bool) (m : M unit) (s : state) (k : nat) (t : string)
    (db : list slot) :
  pid_db s = db ->
  writes m s k t db ->
  writes (when b m) s (if b then k else 0%nat) (if b then t else EmptyString) db.
Proof. intros Hdb H. destruct b; [exact H|]. subst db. apply writes_ret. Qed.

Lemma writes_if_out (b : bool) (x y : string) (s : state) (db : list slot) :
  pid_db s = db -> writes (if b then out x else out y) s 0 (if b then x else y) db.
Proof. intros H. destruct b; now apply writes_out. Qed.

Lemma writes_seq (m1 m2 : M unit) (s : state) (k1 k2 : nat) (t1 t2 : string)
    (db1 db2 : list slot) :
  writes m1 s k1 t1 db1 ->
  (forall s1 : state,
     tick s1 = (k1 + tick s)%nat -> pid_db s1 = db1 -> opt s1 = opt s ->
     writes m2 s1 k2 t2 db2) ->
  writes (m1 >> m2) s (k2 + k1) (t1 +:+ t2) db2.
Proof.
  unfold writes. intros H1 H2. unfold bind. rewrite H1.
  rewrite H2 by reflexivity.
  destruct s. unfold set_tick, set_output, set_pid_db.
  cbn [parent opt quit pid_db output_file output stderr submitted tick].
  now rewrite str_app_assoc, Nat.add_assoc.
Qed.

Lemma writes_sys {A : Type} (f : nat -> A) (k : A -> M unit) (s : state)
    (n : nat) (t : string) (db : list slot) :
  (forall s1 : state,
     tick s1 = S (tick s) -> pid_db s1 = pid_db s -> opt s1 = opt s ->
     writes (k (f (tick s))) s1 n t db) ->
  writes (let* x := sys f in k x) s (n + 1) t db.
Proof.
  unfold writes. intros H. unfold bind, sys.
  rewrite H by reflexivity.
  destruct s. unfold set_tick, set_output, set_pid_db.
  cbn [parent opt quit pid_db output_file output stderr submitted tick].
  f_equal. f_equal. lia.
Qed.

Lemma writes_args (args : list string) (s : state) (db : list slot) :
  pid_db s = db -> writes (print_args args) s 0 (args_text args) db.
Proof.
  intros <-. unfold writes. rewrite print_args_text. destruct s; reflexivity.
Qed.

Lemma writes_env (envp : list string) (s : state) (db : list slot) :
  pid_db s = db -> writes (print_env envp) s 0 (env_text envp) db.
Proof.
  intros <-. unfold writes. rewrite print_env_text. destruct s; reflexivity.
Qed.

Lemma writes_store (i : nat) (w : string) (s : state) (db : list slot) :
  (i < PID_DB_SIZE)%nat -> pid_db s = db ->
  writes (Ledger.store_cmdline (Z.of_nat i) w) s 0 EmptyString
    (<[i := with_cmdline (truncate (CMDLINE_DB_MAX - 1) w) (db !!! i)]> db).
Proof.
  intros Hi <-. unfold writes, Ledger.store_cmdline.
  rewrite (index_in_range i Hi), Nat2Z.id.
  unfold update_slot, modify. rewrite str_app_nil_r. destruct s; reflexivity.
Qed.

Section Line.
Variable P : platform.
Variables (p d : Z) (kp : kinfo_proc) (a : string) (args : list string).

(** The working directory and its marker. *)
Lemma writes_cwd (b : bool) (s : state) (t : nat) (db : list slot) :
  tick s = t -> pid_db s = db ->
  writes
    (when b
       (let* r := sys (fun t => sysctl_cwd P t p) in
        (if negb (fst r =? 1) then out (print_shquoted (snd r)) else out "?") >>
        out " % "))
    s (if b then 1 else 0)%nat
    (if b
     then (if negb (fst (sysctl_cwd P t p) =? 1)
           then print_shquoted (snd (sysctl_cwd P t p)) else "?") +:+ " % "
     else EmptyString)
    db.
Proof.
  intros Ht Hdb. apply writes_when; [exact Hdb|].
  apply (writes_sys _ _ s (0 + 0)). intros s1 _ Hdb1 _. rewrite Ht.
  eapply writes_seq.
  - apply writes_if_out. rewrite Hdb1. exact Hdb.
  - intros s2 _ Hdb2 _. now apply writes_out.
Qed.

(** The name: printed, and stored in the slot at index [i]. *)
Lemma writes_name (b : bool) (i : nat) (s : state) (t : nat) (db : list slot) :
  (i < PID_DB_SIZE)%nat -> tick s = t -> pid_db s = db ->
  let name := if b && negb (fst (sysctl_pathname P t p) =? 1)
              then snd (sysctl_pathname P t p) else a in
  writes
    (if b then
       let* r := sys (fun t => sysctl_pathname P t p) in
       if negb (fst r =? 1)
       then Ledger.store_cmdline (Z.of_nat i) (snd r) >> out (print_shquoted (snd r))
       else Ledger.name_from_argv (Z.of_nat i) (a :: args)
     else Ledger.name_from_argv (Z.of_nat i) (a :: args))
    s (if b then 1 else 0)%nat (print_shquoted name)
    (<[i := with_cmdline (truncate (CMDLINE_DB_MAX - 1) name) (db !!! i)]> db).
Proof.
  intros Hi Ht Hdb name.
  assert (Hstore : forall (w : string) (s1 : state), pid_db s1 = db ->
            writes (Ledger.store_cmdline (Z.of_nat i) w >> out (print_shquoted w)) s1 0
              (print_shquoted w)
              (<[i := with_cmdline (truncate (CMDLINE_DB_MAX - 1) w) (db !!! i)]> db)).
  { intros w s1 H1.
    eapply writes_eq;
      [eapply writes_seq;
         [apply writes_store; [exact Hi | exact H1]
         | intros s2 _ H2 _; apply writes_out; exact H2]
      | reflexivity..]. }
  unfold name. destruct b; cbn [andb].
  - apply (writes_sys _ _ s 0). intros s1 _ Hdb1 _. rewrite Ht.
    destruct (negb _); apply Hstore; congruence.
  - apply Hstore. exact Hdb.
Qed.

(** The environment. *)
Lemma writes_environment (b : bool) (s : state) (t : nat) (db : list slot) :
  tick s = t -> pid_db s = db ->
  writes
    (when b
       (let* envp := sys (fun t => kvm_getenvv P t kp) in
        match envp with
        | Some l => print_env l
        | None => out " -"
        end))
    s (if b then 1 else 0)%nat
    (if b then match kvm_getenvv P t kp with Some l => env_text l | None => " -" end
     else EmptyString)
    db.
Proof.
  intros Ht Hdb. apply writes_when; [exact Hdb|].
  apply (writes_sys _ _ s 0). intros s1 _ Hdb1 _. rewrite Ht.
  destruct (kvm_getenvv P t kp); [apply writes_env | apply writes_out]; congruence.
Qed.

(** The part of [handle_exec] that writes the line, in one step: the line,
    the name stored, the calls made. *)
Lemma exec_line_exact (i : nat) (s : state) :
  (i < PID_DB_SIZE)%nat ->
  Ledger.exec_line P p d (Z.of_nat i) kp (a :: args) s
  = Done tt
      (set_tick (tick s + line_calls (opt s))
         (set_output
            (output s +:+ line_text (opt s) p d (answers_at P (opt s) p kp (tick s)) a args +:+ nl)
            (set_pid_db
               (<[i := with_cmdline
                         (truncate (CMDLINE_DB_MAX - 1)
                            (shown_name (opt s) (answers_at P (opt s) p kp (tick s)) a))
                         (pid_db s !!! i)]> (pid_db s))
               s))).
Proof.
  intros Hi. unfold Ledger.exec_line. unfold bind at 1. unfold gets at 1.
  set (o := opt s).
  rewrite (Nat.add_comm (tick s)).
  change (writes
    (when (negb (flat o)) (out (fmt_pad (2 * d))) >>
     out (fmt_d p) >>
     when (show_exit o) (out "+") >>
     out " " >>
     when (show_cwd o)
       (let* r := sys (fun t => sysctl_cwd P t p) in
        (if negb (fst r =? 1) then out (print_shquoted (snd r)) else out "?") >>
        out " % ") >>
     (if full_path o then
        let* r := sys (fun t => sysctl_pathname P t p) in
        if negb (fst r =? 1)
        then Ledger.store_cmdline (Z.of_nat i) (snd r) >> out (print_shquoted (snd r))
        else Ledger.name_from_argv (Z.of_nat i) (a :: args)
      else Ledger.name_from_argv (Z.of_nat i) (a :: args)) >>
     when (show_args o) (print_args args) >>
     when (show_env o)
       (let* envp := sys (fun t => kvm_getenvv P t kp) in
        match envp with
        | Some l => print_env l
        | None => out " -"
        end) >>
     out nl)
    s (line_calls o)
    (line_text o p d (answers_at P o p kp (tick s)) a args +:+ nl)
    (<[i := with_cmdline
              (truncate (CMDLINE_DB_MAX - 1)
                 (shown_name o (answers_at P o p kp (tick s)) a))
              (pid_db s !!! i)]> (pid_db s))).
  eapply writes_eq.
  - eapply writes_seq;
      [apply writes_when; [reflexivity | apply writes_out; reflexivity]|].
    intros s1 Ht1 Hdb1 _.
    eapply writes_seq; [apply writes_out; exact Hdb1|].
    intros s2 Ht2 Hdb2 _.
    eapply writes_seq;
      [apply writes_when; [exact Hdb2 | apply writes_out; exact Hdb2]|].
    intros s3 Ht3 Hdb3 _.
    eapply writes_seq; [apply writes_out; exact Hdb3|].
    intros s4 Ht4 Hdb4 _.
    eapply writes_seq; [apply (writes_cwd (show_cwd o) s4 (tick s)); [|exact Hdb4]|].
    { rewrite Ht4, Ht3, Ht2, Ht1. now destruct (negb (flat o)), (show_exit o). }
    intros s5 Ht5 Hdb5 _.
    eapply writes_seq;
      [apply (writes_name (full_path o) i s5
                (if show_cwd o then S (tick s) else tick s)); [exact Hi | | exact Hdb5]|].
    { rewrite Ht5, Ht4, Ht3, Ht2, Ht1.
      now destruct (negb (flat o)), (show_exit o), (show_cwd o). }
    intros s6 Ht6 Hdb6 _.
    eapply writes_seq;
      [apply writes_when; [exact Hdb6 | apply writes_args; exact Hdb6]|].
    intros s7 Ht7 Hdb7 _.
    eapply writes_seq;
      [apply (writes_environment (show_env o) s7
                (if full_path o then S (if show_cwd o then S (tick s) else tick s)
                 else (if show_cwd o then S (tick s) else tick s))); [|exact Hdb7]|].
    { rewrite Ht7, Ht6, Ht5, Ht4, Ht3, Ht2, Ht1.
      now destruct (negb (flat o)), (show_exit o), (show_cwd o), (full_path o),
        (show_args o). }
    intros s8 Ht8 Hdb8 _. apply writes_out. exact Hdb8.
  - unfold line_calls.
    now destruct (negb (flat o)), (show_exit o), (show_cwd o), (full_path o),
      (show_args o), (show_env o).
  - unfold line_text, shown_name, answers_at. cbn [cwd pathname envv].
    rewrite !str_app_assoc. reflexivity.
  - reflexivity.
Qed.

End Line.

(** ** An exec event that claims a slot *)

Lemma find_slot_bound (db : list slot) (p : Z) :
  (Ledger.find_slot db p <= PID_DB_SIZE - 1)%nat.
Proof.
  unfold Ledger.find_slot.
  pose proof (slot_scan_spec db p (PID_DB_SIZE - 1) 0) as (H & _). lia.
Qed.

Lemma slot_fields (x : slot) (p d : Z) (st : timeval) (c : string) :
  with_cmdline c (with_start st (with_depth d (with_pid p x))) = Slot p d st c.
Proof. reflexivity. Qed.

(** The part of [handle_exec] under [if (show_exit || !flat)], when the
    slot found is not reported as a re-exec: the slot takes the pid, the
    depth and the start time, and the warning is written when the scan ran
    to the last index. *)
Lemma claim_slot_fresh (P : platform) (p d : Z) (kp : kinfo_proc) (s : state) :
  let i := Ledger.find_slot (pid_db s) p in
  show_exit (opt s) && (pid (pid_db s !!! i) =? p) = false ->
  Ledger.claim_slot P p d kp s
  = Done (Z.of_nat i)
      (set_pid_db
         (<[i := with_start (ki_start kp) (with_depth d (with_pid p (pid_db s !!! i)))]>
            (pid_db s))
         (set_stderr (stderr s +:+ warning_at i) s)).
Proof.
  intros i Hfresh. unfold Ledger.claim_slot.
  unfold bind at 1. unfold gets at 1. unfold bind at 1. unfold gets at 1.
  fold i. rewrite Hfresh. unfold warning_at.
  destruct (Nat.eqb i (PID_DB_SIZE - 1)).
  - rewrite overflow_warning_eq. reflexivity.
  - rewrite str_app_nil_r. destruct s; reflexivity.
Qed.

(** [handle_exec] for an event in scope whose record and argument vector
    are fetched, with the table in use and no re-exec reported: the state
    that it leaves. *)
Lemma handle_exec_fresh (P : platform) (fuel : nat) (p : Z) (s : state)
    (d : Z) (s1 : state) (kp : kinfo_proc) (a : string) (args : list string) :
  let i := Ledger.find_slot (pid_db s) p in
  let o := opt s in
  let r := answers_at P o p kp (S (S (tick s1))) in
  length (pid_db s) = PID_DB_SIZE ->
  show_exit o || negb (flat o) = true ->
  show_exit o && (pid (pid_db s !!! i) =? p) = false ->
  Ledger.pid_depth P fuel p s = Done d s1 -> 0 <= d ->
  kvm_getprocs P (tick s1) p = Some kp ->
  kvm_getargv P (S (tick s1)) kp = Some (a :: args) ->
  Ledger.handle_exec P fuel p s
  = Done tt
      (set_tick (S (S (tick s1)) + line_calls o)
         (set_output (output s +:+ line_text o p d r a args +:+ nl)
            (set_pid_db
               (<[i := Slot p d (ki_start kp)
                         (truncate (CMDLINE_DB_MAX - 1) (shown_name o r a))]> (pid_db s))
               (set_stderr (stderr s +:+ warning_at i) s)))).
Proof.
  intros i o r Hlen Hmode Hfresh Hd Hpos Hkp Hargv.
  assert (Ht : exists n, s1 = set_tick n s).
  { exists (tick s1). apply (pid_depth_quiet P fuel p s d); [exact Hd | lia]. }
  destruct Ht as [n ->]. cbn [tick set_tick] in *.
  unfold Ledger.handle_exec.
  rewrite (bind_done _ _ _ _ _ Hd).
  destruct (Z.ltb_spec d 0); [lia|].
  unfold bind at 1. unfold sys at 1. cbn [tick set_tick]. rewrite Hkp.
  unfold bind at 1. unfold sys at 1. cbn [tick set_tick]. rewrite Hargv.
  unfold bind at 1. unfold gets at 1. cbn [opt set_tick]. fold o. rewrite Hmode.
  unfold bind at 1. rewrite claim_slot_fresh by exact Hfresh.
  cbn [pid_db set_tick stderr opt]. fold i. fold o.
  assert (Hi : (i < PID_DB_SIZE)%nat).
  { pose proof (find_slot_bound (pid_db s) p). unfold PID_DB_SIZE in *. fold i in H0. lia. }
  rewrite (exec_line_exact P p d kp a args i _ Hi).
  cbn [pid_db opt tick output set_pid_db set_stderr set_tick]. fold o. fold r.
  rewrite list_lookup_total_insert_eq by (rewrite Hlen; exact Hi).
  rewrite list_insert_insert_eq, slot_fields.
  destruct s; reflexivity.
Qed.

(** ** One event, one line *)

Lemma mem_app (c : ascii) (a b : string) : mem c (a +:+ b) = mem c a || mem c b.
Proof.
  induction a as [|x a IH]; [reflexivity|].
  rewrite str_app_cons. cbn [mem]. destruct (Ascii.eqb c x); [reflexivity | exact IH].
Qed.

Lemma strpbrk_none_mem (s accept : string) (c : ascii) :
  strpbrk s accept = None -> mem c accept = true -> mem c s = false.
Proof.
  induction s as [|x s IH]; intros H Hc; [reflexivity|].
  cbn [strpbrk] in H. destruct (mem x accept) eqn:E; [discriminate|].
  cbn [mem]. destruct (Ascii.eqb_spec c x) as [->|_]; [congruence|].
  now apply IH.
Qed.

Lemma newline_special : mem newline special = true.
Proof. reflexivity. Qed.

Lemma quote_body_one_line (s : string) : mem newline (quote_body s) = false.
Proof.
  induction s as [|c s IH]; [reflexivity|].
  cbn [quote_body]. rewrite mem_app, IH, orb_false_r.
  destruct (Ascii.eqb c squote); [reflexivity|].
  destruct (Ascii.eqb_spec c newline) as [->|Hn]; [reflexivity|].
  cbn [mem]. destruct (Ascii.eqb_spec newline c) as [E|_]; [congruence | reflexivity].
Qed.

(** What [print_shquoted] writes holds no newline. *)
Lemma print_shquoted_one_line (s : string) : mem newline (print_shquoted s) = false.
Proof.
  assert (Hq : mem newline (String squote (quote_body s +:+ String squote EmptyString))
               = false).
  { change (mem newline (String squote ?x)) with (mem newline x).
    rewrite mem_app, quote_body_one_line. reflexivity. }
  unfold print_shquoted. destruct s as [|c s]; [exact Hq|].
  destruct (strpbrk (String c s) special) eqn:E; [exact Hq|].
  exact (strpbrk_none_mem _ _ _ E newline_special).
Qed.

Lemma fmt_pad_one_line (w : Z) : mem newline (fmt_pad w) = false.
Proof.
  unfold fmt_pad. induction (Z.to_nat w) as [|n IH]; [reflexivity | exact IH].
Qed.

Lemma fmt_d_one_line (z : Z) : mem newline (fmt_d z) = false.
Proof. exact (strpbrk_none_mem _ _ _ (fmt_d_plain z) newline_special). Qed.

Lemma args_text_one_line (args : list string) : mem newline (args_text args) = false.
Proof.
  induction args as [|a args IH]; [reflexivity|].
  cbn [args_text]. now rewrite !mem_app, print_shquoted_one_line, IH.
Qed.

Lemma env_text_one_line (envp : list string) : mem newline (env_text envp) = false.
Proof.
  induction envp as [|e envp IH]; [reflexivity|].
  cbn [env_text]. rewrite !mem_app, IH, orb_false_r.
  unfold env_entry_text. destruct (strchr e (ch 61)) as [[name value]|].
  - now rewrite !mem_app, !print_shquoted_one_line.
  - now rewrite print_shquoted_one_line.
Qed.

Lemma line_text_one_line (o : options) (p d : Z) (r : answers) (a : string)
    (args : list string) :
  mem newline (line_text o p d r a args) = false.
Proof.
  unfold line_text.
  rewrite !mem_app, fmt_d_one_line, !print_shquoted_one_line.
  destruct (negb (flat o)), (show_exit o), (show_cwd o), (show_args o), (show_env o);
    rewrite ?fmt_pad_one_line, ?args_text_one_line, ?mem_app, ?print_shquoted_one_line;
    try destruct (negb (fst (cwd r) =? 1)); rewrite ?print_shquoted_one_line;
    try destruct (envv r); rewrite ?env_text_one_line; reflexivity.
Qed.

Lemma truncate_length (n : nat) (s : string) : (String.length (truncate n s) <= n)%nat.
Proof.
  revert s. induction n as [|n IH]; intros [|c s]; cbn [truncate String.length]; try lia.
  specialize (IH s). lia.
Qed.



(** ** The slot of a process *)

(** The scan stops at [i] when no slot before [i] is free or holds [p], and
    the slot at [i] is free or holds [p] unless [i] is where the scan
    ends. *)
Lemma slot_scan_stop (db : list slot) (p : Z) (i : nat) : forall n k : nat,
  (k <= i <= k + n)%nat ->
  (forall j : nat, (k <= j < i)%nat -> pid (db !!! j) <> 0 /\ pid (db !!! j) <> p) ->
  ((i < k + n)%nat -> pid (db !!! i) = 0 \/ pid (db !!! i) = p) ->
  Ledger.slot_scan db p n k = i.
Proof.
  induction n as [|n IH]; intros k Hk Hbefore Hat; cbn [Ledger.slot_scan]; [lia|].
  destruct (Nat.eq_dec k i) as [->|Hne].
  - destruct Hat as [E|E]; [lia | |]; rewrite E.
    + reflexivity.
    + rewrite Z.eqb_refl, orb_true_r. reflexivity.
  - destruct (Hbefore k) as [H0 Hp]; [lia|].
    apply Z.eqb_neq in H0, Hp. rewrite H0, Hp. cbn [orb].
    apply IH; [lia | | intros; apply Hat; lia].
    intros j Hj. apply Hbefore. lia.
Qed.

(** Once a slot found for [p] holds [p], the scan for [p] finds it again. *)
Lemma find_slot_insert (db : list slot) (p : Z) (x : slot) :
  let i := Ledger.find_slot db p in
  (i < length db)%nat -> pid x = p ->
  Ledger.find_slot (<[i := x]> db) p = i.
Proof.
  intros i Hlen Hx. unfold Ledger.find_slot.
  pose proof (slot_scan_spec db p (PID_DB_SIZE - 1) 0) as (Hr & Hbefore & _).
  fold (Ledger.find_slot db p) in Hr, Hbefore. fold i in Hr, Hbefore.
  apply slot_scan_stop.
  - exact Hr.
  - intros j Hj. rewrite list_lookup_total_insert_ne by lia. now apply Hbefore.
  - intros _. right. now rewrite list_lookup_total_insert_eq.
Qed.

(** X2: an exec event in scope, whose record and argument vector are
    fetched, with the table in use and no re-exec reported, fills the slot
    at which the scan of the table stopped: the slot takes the pid, the
    depth, the start time of the process and the name shown on the line,
    cut to 31 bytes; every other slot is left as it is; the scan for the
    same pid stops at the same slot afterwards; and standard error gets the
    overflow warning exactly when the scan ran to the last index. *)
Theorem exec_claims_slot (P : platform) (fuel : nat) (p : Z) (s : state)
    (d : Z) (s1 : state) (kp : kinfo_proc) (a : string) (args : list string) :
  length (pid_db s) = PID_DB_SIZE ->
  show_exit (opt s) || negb (flat (opt s)) = true ->
  show_exit (opt s) && (pid (pid_db s !!! Ledger.find_slot (pid_db s) p) =? p) = false ->
  Ledger.pid_depth P fuel p s = Done d s1 -> 0 <= d ->
  kvm_getprocs P (tick s1) p = Some kp ->
  kvm_getargv P (S (tick s1)) kp = Some (a :: args) ->
  let i := Ledger.find_slot (pid_db s) p in
  let name := shown_name (opt s) (answers_at P (opt s) p kp (S (S (tick s1)))) a in
  exists s' : state,
    Ledger.handle_exec P fuel p s = Done tt s'
    /\ pid_db s' !! i
       = Some (Slot p d (ki_start kp) (truncate (CMDLINE_DB_MAX - 1) name))
    /\ (String.length (truncate (CMDLINE_DB_MAX - 1) name) < CMDLINE_DB_MAX)%nat
    /\ (forall j : nat, j <> i -> pid_db s' !! j = pid_db s !! j)
    /\ length (pid_db s') = PID_DB_SIZE
    /\ Ledger.find_slot (pid_db s') p = i
    /\ stderr s' = stderr s +:+ warning_at i.
Proof.
  intros Hlen Hmode Hfresh Hd Hpos Hkp Hargv i name.
  assert (Hi : (i < length (pid_db s))%nat).
  { pose proof (find_slot_bound (pid_db s) p) as Hb. fold i in Hb.
    rewrite Hlen. unfold PID_DB_SIZE in *. lia. }
  eexists. split.
  - apply (handle_exec_fresh P fuel p s d s1 kp a args Hlen Hmode Hfresh Hd Hpos Hkp Hargv).
  - cbn [pid_db stderr set_tick set_output set_pid_db set_stderr]. fold i. fold name.
    repeat split.
    + now apply list_lookup_insert_eq.
    + pose proof (truncate_length (CMDLINE_DB_MAX - 1) name). unfold CMDLINE_DB_MAX in *. lia.
    + intros j Hj. apply list_lookup_insert_ne. congruence.
    + now rewrite length_insert.
    + now apply find_slot_insert.
Qed.

(** On the host of the scenario, from the initial state, the exec of
    process 10 fills the first slot. *)
Lemma exec_claims_slot_witness :
  exists s' : state,
    Ledger.handle_exec host 5 10 initial = Done tt s'
    /\ pid_db s' !! Ledger.find_slot (pid_db initial) 10
       = Some (Slot 10 1 (Timeval 100 0)
                 (truncate (CMDLINE_DB_MAX - 1)
                    (shown_name (opt initial)
                       (answers_at host (opt initial) 10 (Kinfo 10 1 2 (Timeval 100 0)) 3)
                       "/bin/true")))
    /\ (String.length
          (truncate (CMDLINE_DB_MAX - 1)
             (shown_name (opt initial)
                (answers_at host (opt initial) 10 (Kinfo 10 1 2 (Timeval 100 0)) 3)
                "/bin/true")) < CMDLINE_DB_MAX)%nat
    /\ (forall j : nat, j <> Ledger.find_slot (pid_db initial) 10 ->
          pid_db s' !! j = pid_db initial !! j)
    /\ length (pid_db s') = PID_DB_SIZE
    /\ Ledger.find_slot (pid_db s') 10 = Ledger.find_slot (pid_db initial) 10
    /\ stderr s' = stderr initial +:+ warning_at (Ledger.find_slot (pid_db initial) 10).
Proof.
  apply (exec_claims_slot host 5 10 initial 1 (set_tick 1 initial)
           (Kinfo 10 1 2 (Timeval 100 0)) "/bin/true" []).
  - reflexivity.
  - reflexivity.
  - reflexivity.
  - vm_compute. reflexivity.
  - lia.
  - reflexivity.
  - reflexivity.
Defined.

(** ** The line of an exit event *)

Lemma writes_update (i : nat) (f : slot -> slot) (s : state) (db : list slot) :
  pid_db s = db ->
  writes (update_slot i f) s 0 EmptyString (<[i := f (db !!! i)]> db).
Proof.
  intros <-. unfold writes, update_slot, modify. rewrite str_app_nil_r.
  destruct s; reflexivity.
Qed.

(** [handle_exit] when the line is written: the line, the slot freed, the
    one call made. *)
Lemma handle_exit_exact (P : platform) (p status : Z) (s : state) :
  let i := Ledger.find_slot (pid_db s) p in
  let x := pid_db s !!! i in
  flat (opt s) = true \/ 0 <= depth x ->
  Ledger.handle_exit P p status s
  = Done tt
      (set_tick (S (tick s))
         (set_output
            (output s +:+ exit_text P (opt s) p x status (gettimeofday P (tick s)) +:+ nl)
            (set_pid_db (<[i := with_pid 0 x]> (pid_db s)) s))).
Proof.
  intros i x Hshown. unfold Ledger.handle_exit.
  unfold bind at 1. unfold gets at 1. fold i. fold x.
  unfold bind at 1. unfold gets at 1.
  assert (Hgo : negb (flat (opt s)) && (depth x <? 0) = false).
  { destruct Hshown as [->|H]; [reflexivity|].
    apply andb_false_iff. right. apply Z.ltb_ge. exact H. }
  rewrite Hgo.
  change (writes
    (when (negb (flat (opt s))) (out (fmt_pad (2 * depth x))) >>
     out (fmt_d p +:+ "- ") >>
     out (print_shquoted (cmdline x)) >>
     (if WIFSIGNALED status
      then out (" exited signal=" +:+ sys_signame P (WTERMSIG status))
      else out (" exited status=" +:+ fmt_d (WEXITSTATUS status))) >>
     let* now := sys (gettimeofday P) in
     out (" time=" +:+ fmt_seconds P (timersub now (start x)) +:+ "s" +:+ nl) >>
     update_slot i (with_pid 0))
    s 1 (exit_text P (opt s) p x status (gettimeofday P (tick s)) +:+ nl)
    (<[i := with_pid 0 x]> (pid_db s))).
  eapply writes_eq.
  - eapply writes_seq;
      [apply writes_when; [reflexivity | apply writes_out; reflexivity]|].
    intros s1 Ht1 Hdb1 _.
    eapply writes_seq; [apply writes_out; exact Hdb1|].
    intros s2 Ht2 Hdb2 _.
    eapply writes_seq; [apply writes_out; exact Hdb2|].
    intros s3 Ht3 Hdb3 _.
    eapply writes_seq; [apply writes_if_out; exact Hdb3|].
    intros s4 Ht4 Hdb4 _.
    assert (Ht : tick s4 = tick s).
    { rewrite Ht4, Ht3, Ht2, Ht1. now destruct (negb (flat (opt s))). }
    apply writes_sys. intros s5 Ht5 Hdb5 _. cbv beta. rewrite Ht.
    eapply writes_seq; [apply writes_out; rewrite Hdb5; exact Hdb4|].
    intros s6 Ht6 Hdb6 _.
    apply writes_update. exact Hdb6.
  - now destruct (negb (flat (opt s))).
  - unfold exit_text. rewrite !str_app_assoc, str_app_nil_r.
    destruct (WIFSIGNALED status); reflexivity.
  - reflexivity.
Qed.

(** X3: the exit of a process after its exec.  When an exec event has
    filled a slot as above, the exit event of the same process finds that
    slot: its line shows the indentation of the stored depth, the pid, the
    name stored by the exec event (cut to 31 bytes, quoted for the shell),
    the way the process ended and the time since the start time recorded;
    the slot is then free, every other slot is as it was before the exec
    event, and the next scan for the pid stops at the same slot. *)
Theorem exec_then_exit (P : platform) (fuel : nat) (p : Z) (s : state)
    (d : Z) (s1 : state) (kp : kinfo_proc) (a : string) (args : list string)
    (status : Z) :
  length (pid_db s) = PID_DB_SIZE ->
  show_exit (opt s) || negb (flat (opt s)) = true ->
  show_exit (opt s) && (pid (pid_db s !!! Ledger.find_slot (pid_db s) p) =? p) = false ->
  Ledger.pid_depth P fuel p s = Done d s1 -> 0 <= d ->
  kvm_getprocs P (tick s1) p = Some kp ->
  kvm_getargv P (S (tick s1)) kp = Some (a :: args) ->
  let i := Ledger.find_slot (pid_db s) p in
  let name := shown_name (opt s) (answers_at P (opt s) p kp (S (S (tick s1)))) a in
  let x := Slot p d (ki_start kp) (truncate (CMDLINE_DB_MAX - 1) name) in
  exists s' s'' : state,
    Ledger.handle_exec P fuel p s = Done tt s'
    /\ Ledger.handle_exit P p status s' = Done tt s''
    /\ output s''
       = output s' +:+ exit_text P (opt s) p x status (gettimeofday P (tick s')) +:+ nl
    /\ pid_db s'' !! i = Some (with_pid 0 x)
    /\ (forall j : nat, j <> i -> pid_db s'' !! j = pid_db s !! j)
    /\ Ledger.find_slot (pid_db s'') p = i.
Proof.
  intros Hlen Hmode Hfresh Hd Hpos Hkp Hargv i name x.
  assert (Hi : (i < length (pid_db s))%nat).
  { pose proof (find_slot_bound (pid_db s) p) as Hb. fold i in Hb.
    rewrite Hlen. unfold PID_DB_SIZE in *. lia. }
  pose proof (handle_exec_fresh P fuel p s d s1 kp a args Hlen Hmode Hfresh Hd Hpos Hkp Hargv)
    as Hexec.
  cbv zeta in Hexec. fold i in Hexec. fold name in Hexec. fold x in Hexec.
  match type of Hexec with _ = Done tt ?s2 => set (s' := s2) in * end.
  assert (Hdb' : pid_db s' = <[i := x]> (pid_db s)) by reflexivity.
  assert (Hfind : Ledger.find_slot (pid_db s') p = i).
  { rewrite Hdb'. now apply find_slot_insert. }
  assert (Hx : pid_db s' !!! i = x).
  { rewrite Hdb'. now apply list_lookup_total_insert_eq. }
  pose proof (handle_exit_exact P p status s') as Hexit.
  cbv zeta in Hexit. rewrite Hfind, Hx in Hexit.
  specialize (Hexit (or_intror Hpos)).
  exists s'. eexists. split; [exact Hexec|]. split; [exact Hexit|].
  cbn [output pid_db set_tick set_output set_pid_db]. rewrite Hdb'.
  rewrite list_insert_insert_eq.
  split; [reflexivity|]. split; [now apply list_lookup_insert_eq|].
  split; [intros j Hj; apply list_lookup_insert_ne; congruence|].
  unfold Ledger.find_slot.
  pose proof (slot_scan_spec (pid_db s) p (PID_DB_SIZE - 1) 0) as (Hr & Hbefore & _).
  fold (Ledger.find_slot (pid_db s) p) in Hr, Hbefore. fold i in Hr, Hbefore.
  apply slot_scan_stop.
  - exact Hr.
  - intros j Hj. rewrite list_lookup_total_insert_ne by lia. now apply Hbefore.
  - intros _. left. now rewrite list_lookup_total_insert_eq.
Qed.

(** On the host of the scenario, with [-t], process 10 execs and then
    exits with status 0. *)
Lemma exec_then_exit_witness :
  exists s' s'' : state,
    Ledger.handle_exec host 5 10 with_t = Done tt s'
    /\ Ledger.handle_exit host 10 0 s' = Done tt s''
    /\ output s''
       = output s'
         +:+ exit_text host (opt with_t) 10
               (Slot 10 1 (Timeval 100 0)
                  (truncate (CMDLINE_DB_MAX - 1)
                     (shown_name (opt with_t)
                        (answers_at host (opt with_t) 10 (Kinfo 10 1 2 (Timeval 100 0)) 3)
                        "/bin/true")))
               0 (gettimeofday host (tick s'))
         +:+ nl
    /\ pid_db s'' !! Ledger.find_slot (pid_db with_t) 10
       = Some (with_pid 0
                 (Slot 10 1 (Timeval 100 0)
                    (truncate (CMDLINE_DB_MAX - 1)
                       (shown_name (opt with_t)
                          (answers_at host (opt with_t) 10 (Kinfo 10 1 2 (Timeval 100 0)) 3)
                          "/bin/true"))))
    /\ (forall j : nat, j <> Ledger.find_slot (pid_db with_t) 10 ->
          pid_db s'' !! j = pid_db with_t !! j)
    /\ Ledger.find_slot (pid_db s'') 10 = Ledger.find_slot (pid_db with_t) 10.
Proof.
  apply (exec_then_exit host 5 10 with_t 1 (set_tick 1 with_t)
           (Kinfo 10 1 2 (Timeval 100 0)) "/bin/true" [] 0).
  - reflexivity.
  - reflexivity.
  - reflexivity.
  - vm_compute. reflexivity.
  - lia.
  - reflexivity.
  - reflexivity.
Defined.

(** ** How a process ended *)

Lemma WSTATUS_mod (x : Z) : WSTATUS x = x mod 128.
Proof. unfold WSTATUS. change 127 with (Z.ones 7). now rewrite Z.land_ones by lia. Qed.

Lemma exited_decoded (c : Z) :
  0 <= c < 256 -> WIFSIGNALED (256 * c) = false /\ WEXITSTATUS (256 * c) = c.
Proof.
  intros Hc. unfold WIFSIGNALED, WEXITSTATUS. rewrite WSTATUS_mod.
  replace ((256 * c) mod 128) with 0
    by (symmetry; apply Z.mod_divide; [lia | exists (2 * c); lia]).
  split; [reflexivity|].
  rewrite Z.shiftr_div_pow2 by lia. change (2 ^ 8) with 256.
  rewrite Z.mul_comm. now apply Z.div_mul.
Qed.

Lemma signaled_decoded (g core : Z) :
  0 < g < 127 -> core = 0 \/ core = 1 -> g + 128 * core <> 19 ->
  WIFSIGNALED (g + 128 * core) = true /\ WTERMSIG (g + 128 * core) = g.
Proof.
  intros Hg Hcore Hne. unfold WIFSIGNALED, WTERMSIG. rewrite WSTATUS_mod.
  assert (E : (g + 128 * core) mod 128 = g).
  { replace (g + 128 * core) with (g + core * 128) by lia.
    rewrite Z.mod_add by lia. apply Z.mod_small. lia. }
  rewrite E. split; [|reflexivity].
  unfold WSTOPPED.
  destruct (Z.eqb_spec g 127); [lia|]. destruct (Z.eqb_spec g 0); [lia|].
  destruct (Z.eqb_spec (g + 128 * core) 19); [lia | reflexivity].
Qed.

(** X4: what an exit line says about the way the process ended.  When the
    line is written (with [-f], or when the depth in the slot found is not
    negative), a wait status of a normal exit with code [c] is shown as
    [exited status=c], and a wait status of a death by signal [g], with or
    without a core dump, as [exited signal=] followed by the name of [g];
    in both cases the line ends with the time elapsed and the slot found
    is freed. *)
Theorem exit_line_shows_status (P : platform) (p : Z) (s : state) :
  let i := Ledger.find_slot (pid_db s) p in
  let x := pid_db s !!! i in
  let lead := (if negb (flat (opt s)) then fmt_pad (2 * depth x) else EmptyString)
              +:+ fmt_d p +:+ "- " +:+ print_shquoted (cmdline x) in
  let time := " time=" +:+ fmt_seconds P (timersub (gettimeofday P (tick s)) (start x))
              +:+ "s" +:+ nl in
  flat (opt s) = true \/ 0 <= depth x ->
  (forall c : Z, 0 <= c < 256 ->
     exists s', Ledger.handle_exit P p (256 * c) s = Done tt s'
       /\ output s' = output s +:+ lead +:+ " exited status=" +:+ fmt_d c +:+ time
       /\ pid_db s' = <[i := with_pid 0 x]> (pid_db s))
  /\ (forall g core : Z, 0 < g < 127 -> core = 0 \/ core = 1 -> g + 128 * core <> 19 ->
        exists s', Ledger.handle_exit P p (g + 128 * core) s = Done tt s'
          /\ output s' = output s +:+ lead +:+ " exited signal=" +:+ sys_signame P g +:+ time
          /\ pid_db s' = <[i := with_pid 0 x]> (pid_db s)).
Proof.
  intros i x lead time Hshown. split.
  - intros c Hc. destruct (exited_decoded c Hc) as [Hsig Hcode].
    eexists. split; [apply (handle_exit_exact P p (256 * c) s Hshown)|].
    cbn [output pid_db set_tick set_output set_pid_db]. split; [|reflexivity].
    unfold exit_text. rewrite Hsig, Hcode. fold i. fold x.
    unfold lead, time. now rewrite !str_app_assoc.
  - intros g core Hg Hcore Hne. destruct (signaled_decoded g core Hg Hcore Hne) as [Hsig Hterm].
    eexists. split; [apply (handle_exit_exact P p (g + 128 * core) s Hshown)|].
    cbn [output pid_db set_tick set_output set_pid_db]. split; [|reflexivity].
    unfold exit_text. rewrite Hsig, Hterm. fold i. fold x.
    unfold lead, time. now rewrite !str_app_assoc.
Qed.

(** On the host of the scenario, in the initial state after [-t], for
    process 10: exit code 3 and signal 9. *)
Lemma exit_line_shows_status_witness :
  (exists s', Ledger.handle_exit host 10 (256 * 3) with_t = Done tt s'
     /\ output s' = "10- '' exited status=3 time=1000.500s" +:+ nl)
  /\ (exists s', Ledger.handle_exit host 10 (9 + 128 * 0) with_t = Done tt s'
        /\ output s' = "10- '' exited signal=SIG9 time=1000.500s" +:+ nl).
Proof.
  assert (Hshown : flat (opt with_t) = true
                   \/ 0 <= depth (pid_db with_t !!! Ledger.find_slot (pid_db with_t) 10)).
  { right. apply Z.leb_le. vm_compute. reflexivity. }
  destruct (exit_line_shows_status host 10 with_t Hshown) as [Hexit Hsig].
  split.
  - destruct (Hexit 3 ltac:(lia)) as (s' & Hrun & Hout & _).
    exists s'. split; [exact Hrun|]. rewrite Hout. reflexivity.
  - destruct (Hsig 9 0 ltac:(lia) ltac:(left; reflexivity) ltac:(lia)) as (s' & Hrun & Hout & _).
    exists s'. split; [exact Hrun|]. rewrite Hout. reflexivity.
Defined.

(** ** The index that was never set *)

Lemma faults_after (m1 m2 : M unit) (s : state) (k : nat) (t : string) (db : list slot) :
  writes m1 s k t db ->
  (forall s1 : state, faults m2 s1) ->
  faults (m1 >> m2) s.
Proof. unfold writes, faults, bind. intros -> H. apply H. Qed.

Lemma faults_first {A : Type} (m1 : M unit) (m2 : M A) (s : state) :
  faults m1 s -> faults (m1 >> m2) s.
Proof. unfold faults, bind. intros [s' ->]. now exists s'. Qed.

Lemma faults_sys {A B : Type} (f : nat -> A) (k : A -> M B) (s : state) :
  (forall (x : A) (s1 : state), faults (k x) s1) -> faults (let* x := sys f in k x) s.
Proof. unfold faults, bind, sys. intros H. apply H. Qed.

Lemma store_cmdline_out_of_range (z : Z) (w : string) (s : state) :
  ~ (0 <= z < Z.of_nat PID_DB_SIZE) -> faults (Ledger.store_cmdline z w) s.
Proof.
  intros H. unfold Ledger.store_cmdline.
  destruct ((0 <=? z) && (z <? Z.of_nat PID_DB_SIZE)) eqn:E.
  - apply andb_prop in E as [H1 H2].
    apply Z.leb_le in H1. apply Z.ltb_lt in H2. lia.
  - now exists s.
Qed.

(** With an index outside the table, the part of [handle_exec] that writes
    the line ends in the store of the name. *)
Lemma exec_line_out_of_range (P : platform) (p d z : Z) (kp : kinfo_proc)
    (a : string) (args : list string) (s : state) :
  ~ (0 <= z < Z.of_nat PID_DB_SIZE) ->
  faults (Ledger.exec_line P p d z kp (a :: args)) s.
Proof.
  intros Hz. unfold Ledger.exec_line. unfold bind at 1. unfold gets at 1.
  set (o := opt s).
  eapply faults_after;
    [apply writes_when; [reflexivity | apply writes_out; reflexivity]|]. intros s1.
  eapply faults_after; [apply writes_out; reflexivity|]. intros s2.
  eapply faults_after;
    [apply writes_when; [reflexivity | apply writes_out; reflexivity]|]. intros s3.
  eapply faults_after; [apply writes_out; reflexivity|]. intros s4.
  eapply faults_after; [apply (writes_cwd P p (show_cwd o) s4); reflexivity|]. intros s5.
  apply faults_first.
  assert (Hname : forall s6, faults (Ledger.name_from_argv z (a :: args)) s6).
  { intros s6. unfold Ledger.name_from_argv. apply faults_first.
    now apply store_cmdline_out_of_range. }
  destruct (full_path (opt s)); [|apply Hname].
  apply faults_sys. intros r s6.
  destruct (negb (fst r =? 1)); [|apply Hname].
  apply faults_first. now apply store_cmdline_out_of_range.
Qed.

(** X5: with [-f] and without [-t], [handle_exec] does not scan the table,
    and the index through which it then stores the name was never set.
    For an event in scope whose record and argument vector are fetched:
    when the value found in the index lies inside the table, the line is
    written as usual and the name lands in the slot at that index, whose
    pid, depth and start time are left as they are, as are all other
    slots, and nothing is written to standard error; when it lies outside,
    the store is undefined behaviour. *)
Theorem flat_exec_stores_through_unset_index (P : platform) (fuel : nat) (p : Z)
    (s : state) (d : Z) (s1 : state) (kp : kinfo_proc) (a : string)
    (args : list string) :
  flat (opt s) = true -> show_exit (opt s) = false ->
  Ledger.pid_depth P fuel p s = Done d s1 -> 0 <= d ->
  kvm_getprocs P (tick s1) p = Some kp ->
  kvm_getargv P (S (tick s1)) kp = Some (a :: args) ->
  let z := indeterminate P (S (S (tick s1))) in
  let r := answers_at P (opt s) p kp (S (S (S (tick s1)))) in
  (0 <= z < Z.of_nat PID_DB_SIZE ->
     exists s' : state,
       Ledger.handle_exec P fuel p s = Done tt s'
       /\ output s' = output s +:+ line_text (opt s) p d r a args +:+ nl
       /\ stderr s' = stderr s
       /\ pid_db s'
          = <[Z.to_nat z := with_cmdline (truncate (CMDLINE_DB_MAX - 1) (shown_name (opt s) r a))
                              (pid_db s !!! Z.to_nat z)]> (pid_db s))
  /\ (~ (0 <= z < Z.of_nat PID_DB_SIZE) -> faults (Ledger.handle_exec P fuel p) s).
Proof.
  intros Hflat Hnot Hd Hpos Hkp Hargv z r.
  assert (Ht : exists n, s1 = set_tick n s).
  { exists (tick s1). apply (pid_depth_quiet P fuel p s d); [exact Hd | lia]. }
  destruct Ht as [n ->]. cbn [tick set_tick] in *.
  assert (Hrun : Ledger.handle_exec P fuel p s
                 = Ledger.exec_line P p d z kp (a :: args) (set_tick (S (S (S n))) s)).
  { unfold Ledger.handle_exec.
    rewrite (bind_done _ _ _ _ _ Hd).
    destruct (Z.ltb_spec d 0); [lia|].
    unfold bind at 1. unfold sys at 1. cbn [tick set_tick]. rewrite Hkp.
    unfold bind at 1. unfold sys at 1. cbn [tick set_tick]. rewrite Hargv.
    unfold bind at 1. unfold gets at 1. cbn [opt set_tick]. rewrite Hflat, Hnot.
    cbn [orb negb]. unfold bind at 1. unfold sys at 1. cbn [tick set_tick].
    destruct s; reflexivity. }
  split.
  - intros Hz. eexists. split.
    + rewrite Hrun. rewrite <- (Z2Nat.id z) at 1 by lia.
      apply exec_line_exact. unfold PID_DB_SIZE in *. lia.
    + cbn [output stderr pid_db opt tick set_tick set_output set_pid_db].
      repeat split.
  - intros Hz. unfold faults. rewrite Hrun. now apply exec_line_out_of_range.
Qed.

(** On the host of the scenario, whose unset index reads as 0, with [-f]:
    the name of process 10 lands in the first slot. *)
Lemma flat_exec_stores_through_unset_index_witness :
  exists s' : state,
    Ledger.handle_exec host 5 10 (set_opt (set_flat (opt initial)) initial) = Done tt s'
    /\ pid_db s' !! 0%nat = Some (Slot 0 0 (Timeval 0 0) "/bin/true").
Proof.
  destruct (flat_exec_stores_through_unset_index host 5 10
              (set_opt (set_flat (opt initial)) initial) 1
              (set_tick 1 (set_opt (set_flat (opt initial)) initial))
              (Kinfo 10 1 2 (Timeval 100 0)) "/bin/true" [])
    as [Hin _].
  - reflexivity.
  - reflexivity.
  - vm_compute. reflexivity.
  - lia.
  - reflexivity.
  - reflexivity.
  - destruct Hin as (s' & Hrun & _ & _ & Hdb).
    + split; [apply Z.leb_le | apply Z.ltb_lt]; vm_compute; reflexivity.
    + exists s'. split; [exact Hrun|]. rewrite Hdb. reflexivity.
Defined.

(** ** The line of the revision that traces exec only *)

Section Msg.
Variable P : platform.
Variables (p : Z) (kp : kinfo_proc) (a : string) (args : list string).

(** The name, printed. *)
Lemma writes_name0 (b : bool) (s : state) (t : nat) (db : list slot) :
  tick s = t -> pid_db s = db ->
  let name := if b && negb (fst (sysctl_pathname P t p) =? 1)
              then snd (sysctl_pathname P t p) else a in
  writes
    (if b then
       let* r := sys (fun t => sysctl_pathname P t p) in
       if negb (fst r =? 1) then out (print_shquoted (snd r))
       else Exec_only.print_argv0 (a :: args)
     else Exec_only.print_argv0 (a :: args))
    s (if b then 1 else 0)%nat (print_shquoted name) db.
Proof.
  intros Ht Hdb name. unfold name, Exec_only.print_argv0. destruct b; cbn [andb].
  - apply (writes_sys _ _ s 0). intros s1 _ Hdb1 _. rewrite Ht.
    destruct (negb _); apply writes_out; congruence.
  - now apply writes_out.
Qed.

(** The part of [handle_msg] from the pid on, when the record and the
    argument vector are fetched. *)
Lemma handle_msg_line (o : options) (s : state) :
  let t1 := if show_cwd o then S (tick s) else tick s in
  let r := answers_msg P o p kp (tick s) in
  kvm_getprocs P t1 p = Some kp ->
  kvm_getargv P (S t1) kp = Some (a :: args) ->
  writes
    (out (fmt_d p +:+ " ") >>
     when (show_cwd o)
       (let* r := sys (fun t => sysctl_cwd P t p) in
        (if negb (fst r =? 1) then out (print_shquoted (snd r)) else out "?") >>
        out " % ") >>
     let* kp := sys (fun t => kvm_getprocs P t p) in
     match kp with
     | None => err P 1 "kvm_getprocs"
     | Some kp =>
         let* pp := sys (fun t => kvm_getargv P t kp) in
         match pp with
         | None => err P 1 "kvm_getargv"
         | Some argv =>
             (if full_path o then
                let* r := sys (fun t => sysctl_pathname P t p) in
                if negb (fst r =? 1) then out (print_shquoted (snd r))
                else Exec_only.print_argv0 argv
              else Exec_only.print_argv0 argv) >>
             when (show_args o)
               (match argv with
                | _ :: rest => print_args rest
                | [] => fault
                end) >>
             when (show_env o)
               (let* envp := sys (fun t => kvm_getenvv P t kp) in
                match envp with
                | Some l => print_env l
                | None => out " -"
                end) >>
             out nl
         end
     end)
    s (2 + line_calls o)
    (fmt_d p +:+ " "
     +:+ (if show_cwd o
          then (if negb (fst (cwd r) =? 1) then print_shquoted (snd (cwd r)) else "?")
               +:+ " % "
          else EmptyString)
     +:+ print_shquoted (shown_name o r a)
     +:+ (if show_args o then args_text args else EmptyString)
     +:+ (if show_env o
          then match envv r with Some l => env_text l | None => " -" end
          else EmptyString)
     +:+ nl)
    (pid_db s).
Proof.
  intros t1 r Hkp Hargv.
  eapply writes_eq.
  - eapply writes_seq; [apply writes_out; reflexivity|].
    intros s1 Ht1 Hdb1 _.
    eapply writes_seq; [apply (writes_cwd P p (show_cwd o) s1 (tick s)); [|exact Hdb1]|].
    { exact Ht1. }
    intros s2 Ht2 Hdb2 _.
    assert (Hs2 : tick s2 = t1).
    { rewrite Ht2, Ht1. unfold t1. now destruct (show_cwd o). }
    apply writes_sys. intros s3 Ht3 Hdb3 _. rewrite Hs2, Hkp.
    apply writes_sys. intros s4 Ht4 Hdb4 _. rewrite Ht3, Hs2, Hargv.
    eapply writes_seq;
      [apply (writes_name0 (full_path o) s4 (S (S t1))); [|rewrite Hdb4, Hdb3; exact Hdb2]|].
    { rewrite Ht4, Ht3, Hs2. reflexivity. }
    intros s5 Ht5 Hdb5 _.
    eapply writes_seq;
      [apply writes_when; [exact Hdb5 | apply writes_args; exact Hdb5]|].
    intros s6 Ht6 Hdb6 _.
    eapply writes_seq;
      [apply (writes_environment P kp (show_env o) s6
                (if full_path o then S (S (S t1)) else S (S t1))); [|exact Hdb6]|].
    { rewrite Ht6, Ht5, Ht4, Ht3, Hs2.
      now destruct (full_path o), (show_args o). }
    intros s7 Ht7 Hdb7 _. apply writes_out. exact Hdb7.
  - unfold line_calls.
    now destruct (show_cwd o), (full_path o), (show_args o), (show_env o).
  - unfold r, shown_name, answers_msg. cbn [cwd pathname envv]. fold t1.
    rewrite !str_app_assoc. reflexivity.
  - reflexivity.
Qed.

End Msg.

(** [handle_msg] for an event in scope whose record and argument vector
    are fetched: the state that it leaves.  [s1] and [d] are the state and
    the depth after the depth was resolved, which [-f] skips. *)
Lemma handle_msg_exact (P : platform) (fuel : nat) (p : Z) (s : state)
    (d : Z) (s1 : state) (kp : kinfo_proc) (a : string) (args : list string) :
  let o := opt s in
  let t1 := if show_cwd o then S (tick s1) else tick s1 in
  let r := answers_msg P o p kp (tick s1) in
  (if flat o then s1 = s
   else Exec_only.pid_depth P fuel p s = Done d s1 /\ 0 <= d) ->
  kvm_getprocs P t1 p = Some kp ->
  kvm_getargv P (S t1) kp = Some (a :: args) ->
  Exec_only.handle_msg P fuel p s
  = Done tt
      (set_tick (2 + line_calls o + tick s1)
         (set_output (output s +:+ line_text (no_t o) p d r a args +:+ nl) s)).
Proof.
  intros o t1 r Hscope Hkp Hargv.
  pose proof (handle_msg_line P p kp a args o) as Hline.
  unfold Exec_only.handle_msg. unfold bind at 1. unfold gets at 1. fold o.
  unfold line_text. cbn [flat show_exit show_cwd show_args show_env no_t].
  change (shown_name (no_t o) r a) with (shown_name o r a).
  destruct (flat o) eqn:Hflat; cbn [negb].
  - subst s1. unfold bind at 1. unfold ret at 1. cbn [negb].
    specialize (Hline s Hkp Hargv). unfold writes in Hline. rewrite Hline.
    fold r. rewrite !str_app_nil_l, !str_app_assoc. destruct s; reflexivity.
  - destruct Hscope as [Hd Hpos].
    assert (Ht : exists n, s1 = set_tick n s).
    { exists (tick s1). apply (pid_depth_quiet0 P fuel p s d); [exact Hd | lia]. }
    destruct Ht as [n ->]. cbn [tick set_tick] in *.
    unfold bind at 1. unfold bind at 1. rewrite Hd.
    destruct (Z.ltb_spec d 0); [lia|].
    unfold bind at 1. unfold out at 1, modify at 1. unfold ret at 1. cbn [negb].
    specialize (Hline (set_output (output (set_tick n s) +:+ fmt_pad (2 * d)) (set_tick n s))
                  Hkp Hargv).
    unfold writes in Hline. rewrite Hline.
    cbn [tick output pid_db set_tick set_output set_pid_db]. fold r.
    rewrite !str_app_nil_l, !str_app_assoc. destruct s; reflexivity.
Qed.



(** The part of [handle_msg] from the pid on, when the record or the
    argument vector cannot be fetched: the program exits with status 1 in
    the middle of the line. *)
Lemma handle_msg_line_exits (P : platform) (p : Z) (o : options) (s : state) :
  let t1 := if show_cwd o then S (tick s) else tick s in
  let lead :=
    fmt_d p +:+ " "
    +:+ (if show_cwd o
         then (if negb (fst (sysctl_cwd P (tick s) p) =? 1)
               then print_shquoted (snd (sysctl_cwd P (tick s) p)) else "?") +:+ " % "
         else EmptyString) in
  forall rest : kinfo_proc -> list string -> M unit,
  (kvm_getprocs P t1 p = None ->
   (out (fmt_d p +:+ " ") >>
    when (show_cwd o)
      (let* r := sys (fun t => sysctl_cwd P t p) in
       (if negb (fst r =? 1) then out (print_shquoted (snd r)) else out "?") >>
       out " % ") >>
    let* kp := sys (fun t => kvm_getprocs P t p) in
    match kp with
    | None => err P 1 "kvm_getprocs"
    | Some kp =>
        let* pp := sys (fun t => kvm_getargv P t kp) in
        match pp with
        | None => err P 1 "kvm_getargv"
        | Some argv => rest kp argv
        end
    end) s
   = Exit 1
       (set_stderr (stderr s +:+ "extrace: kvm_getprocs: "
                    +:+ strerror_errno P (S t1) +:+ nl)
          (set_tick (S (S t1)) (set_output (output s +:+ lead) s))))
  /\ (forall kp : kinfo_proc,
        kvm_getprocs P t1 p = Some kp -> kvm_getargv P (S t1) kp = None ->
        (out (fmt_d p +:+ " ") >>
         when (show_cwd o)
           (let* r := sys (fun t => sysctl_cwd P t p) in
            (if negb (fst r =? 1) then out (print_shquoted (snd r)) else out "?") >>
            out " % ") >>
         let* kp := sys (fun t => kvm_getprocs P t p) in
         match kp with
         | None => err P 1 "kvm_getprocs"
         | Some kp =>
             let* pp := sys (fun t => kvm_getargv P t kp) in
             match pp with
             | None => err P 1 "kvm_getargv"
             | Some argv => rest kp argv
             end
         end) s
        = Exit 1
            (set_stderr (stderr s +:+ "extrace: kvm_getargv: "
                         +:+ strerror_errno P (S (S t1)) +:+ nl)
               (set_tick (S (S (S t1))) (set_output (output s +:+ lead) s)))).
Proof.
  intros t1 lead rest.
  assert (Hlead : forall m : M unit,
    (out (fmt_d p +:+ " ") >>
     when (show_cwd o)
       (let* r := sys (fun t => sysctl_cwd P t p) in
        (if negb (fst r =? 1) then out (print_shquoted (snd r)) else out "?") >>
        out " % ") >> m) s
    = m (set_tick t1 (set_output (output s +:+ lead) s))).
  { intros m. unfold bind at 1. unfold out at 1, modify at 1.
    unfold bind at 1. unfold lead, t1.
    destruct (show_cwd o); unfold when.
    - unfold bind at 1. unfold sys at 1.
      cbn [tick output set_tick set_output].
      destruct (negb (fst (sysctl_cwd P (tick s) p) =? 1));
        unfold bind, out, modify;
        cbn [tick output set_tick set_output];
        rewrite ?str_app_assoc; destruct s; reflexivity.
    - unfold ret. rewrite str_app_nil_r. destruct s; reflexivity. }
  split.
  - intros Hkp. rewrite Hlead.
    unfold bind at 1. unfold sys at 1. cbn [tick set_tick]. rewrite Hkp.
    unfold err, warn, bind, sys, err_out, modify, exit.
    cbn [tick stderr set_tick set_output set_stderr].
    rewrite ?str_app_assoc. reflexivity.
  - intros kp Hkp Hargv. rewrite Hlead.
    unfold bind at 1. unfold sys at 1. cbn [tick set_tick]. rewrite Hkp.
    unfold bind at 1. unfold sys at 1. cbn [tick set_tick]. rewrite Hargv.
    unfold err, warn, bind, sys, err_out, modify, exit.
    cbn [tick stderr set_tick set_output set_stderr].
    rewrite ?str_app_assoc. reflexivity.
Qed.

(** X7: in the revision that traces exec only, an exec event in scope whose
    record or argument vector cannot be fetched ends the program: it exits
    with status 1 after the [err] diagnostic on standard error, and the
    output is left in the middle of a line, after the indentation, the
    pid and, under [-d], the working directory, with no newline written. *)
Theorem handle_msg_exits_when_fetch_fails (P : platform) (fuel : nat) (p : Z)
    (s : state) (d : Z) (s1 : state) :
  let o := opt s in
  let t1 := if show_cwd o then S (tick s1) else tick s1 in
  let lead :=
    (if flat o then EmptyString else fmt_pad (2 * d)) +:+ fmt_d p +:+ " "
    +:+ (if show_cwd o
         then (if negb (fst (sysctl_cwd P (tick s1) p) =? 1)
               then print_shquoted (snd (sysctl_cwd P (tick s1) p)) else "?") +:+ " % "
         else EmptyString) in
  (if flat o then s1 = s
   else Exec_only.pid_depth P fuel p s = Done d s1 /\ 0 <= d) ->
  mem newline lead = false
  /\ (kvm_getprocs P t1 p = None ->
      exists s' : state,
        Exec_only.handle_msg P fuel p s = Exit 1 s'
        /\ output s' = output s +:+ lead
        /\ stderr s' = stderr s +:+ "extrace: kvm_getprocs: "
                       +:+ strerror_errno P (S t1) +:+ nl)
  /\ (forall kp : kinfo_proc,
        kvm_getprocs P t1 p = Some kp -> kvm_getargv P (S t1) kp = None ->
        exists s' : state,
          Exec_only.handle_msg P fuel p s = Exit 1 s'
          /\ output s' = output s +:+ lead
          /\ stderr s' = stderr s +:+ "extrace: kvm_getargv: "
                         +:+ strerror_errno P (S (S t1)) +:+ nl).
Proof.
  intros o t1 lead Hscope.
  split.
  { unfold lead. rewrite !mem_app, fmt_d_one_line.
    destruct (flat o), (show_cwd o); rewrite ?fmt_pad_one_line; try reflexivity;
      rewrite mem_app; destruct (negb _); rewrite ?print_shquoted_one_line; reflexivity. }
  assert (Hrun : exists s2 : state,
    tick s2 = tick s1 /\ stderr s2 = stderr s
    /\ output s2 = output s +:+ (if flat o then EmptyString else fmt_pad (2 * d))
    /\ forall rest : kinfo_proc -> list string -> M unit,
       (let* o := gets opt in
        let* go :=
          (if negb (flat o) then
             let* d := Exec_only.pid_depth P fuel p in
             if d <? 0 then ret false else out (fmt_pad (2 * d)) >> ret true
           else ret true) in
        if negb go then ret tt
        else
          out (fmt_d p +:+ " ") >>
          when (show_cwd o)
            (let* r := sys (fun t => sysctl_cwd P t p) in
             (if negb (fst r =? 1) then out (print_shquoted (snd r)) else out "?") >>
             out " % ") >>
          let* kp := sys (fun t => kvm_getprocs P t p) in
          match kp with
          | None => err P 1 "kvm_getprocs"
          | Some kp =>
              let* pp := sys (fun t => kvm_getargv P t kp) in
              match pp with
              | None => err P 1 "kvm_getargv"
              | Some argv => rest kp argv
              end
          end) s
       = (out (fmt_d p +:+ " ") >>
          when (show_cwd o)
            (let* r := sys (fun t => sysctl_cwd P t p) in
             (if negb (fst r =? 1) then out (print_shquoted (snd r)) else out "?") >>
             out " % ") >>
          let* kp := sys (fun t => kvm_getprocs P t p) in
          match kp with
          | None => err P 1 "kvm_getprocs"
          | Some kp =>
              let* pp := sys (fun t => kvm_getargv P t kp) in
              match pp with
              | None => err P 1 "kvm_getargv"
              | Some argv => rest kp argv
              end
          end) s2).
  { fold o. destruct (flat o) eqn:Hflat.
    - subst s1. exists s. rewrite str_app_nil_r. repeat split.
      intros rest. unfold bind at 1. unfold gets at 1. fold o. rewrite Hflat.
      reflexivity.
    - destruct Hscope as [Hd Hpos].
      assert (Ht : exists n, s1 = set_tick n s).
      { exists (tick s1). apply (pid_depth_quiet0 P fuel p s d); [exact Hd | lia]. }
      destruct Ht as [n ->].
      exists (set_output (output s +:+ fmt_pad (2 * d)) (set_tick n s)).
      repeat split.
      intros rest. unfold bind at 1. unfold gets at 1. fold o. rewrite Hflat.
      cbn [negb]. unfold bind at 1. unfold bind at 1. rewrite Hd.
      destruct (Z.ltb_spec d 0); [lia|].
      reflexivity. }
  destruct Hrun as (s2 & Ht2 & He2 & Ho2 & Hrun).
  pose proof (handle_msg_line_exits P p o s2) as Hline. cbv zeta in Hline.
  rewrite Ht2, He2, Ho2 in Hline.
  set (rest := fun (kp : kinfo_proc) (argv : list string) =>
    (if full_path o then
       let* r := sys (fun t => sysctl_pathname P t p) in
       if negb (fst r =? 1) then out (print_shquoted (snd r))
       else Exec_only.print_argv0 argv
     else Exec_only.print_argv0 argv) >>
    when (show_args o)
      (match argv with
       | _ :: rest => print_args rest
       | [] => fault
       end) >>
    when (show_env o)
      (let* envp := sys (fun t => kvm_getenvv P t kp) in
       match envp with
       | Some l => print_env l
       | None => out " -"
       end) >>
    out nl).
  assert (E : Exec_only.handle_msg P fuel p s
              = (out (fmt_d p +:+ " ") >>
                 when (show_cwd o)
                   (let* r := sys (fun t => sysctl_cwd P t p) in
                    (if negb (fst r =? 1) then out (print_shquoted (snd r)) else out "?") >>
                    out " % ") >>
                 let* kp := sys (fun t => kvm_getprocs P t p) in
                 match kp with
                 | None => err P 1 "kvm_getprocs"
                 | Some kp =>
                     let* pp := sys (fun t => kvm_getargv P t kp) in
                     match pp with
                     | None => err P 1 "kvm_getargv"
                     | Some argv => rest kp argv
                     end
                 end) s2)
    by exact (Hrun rest).
  split.
  - intros Hkp. eexists. split.
    + rewrite E. apply (proj1 (Hline rest)). exact Hkp.
    + cbn [output stderr set_stderr set_tick set_output].
      unfold lead. rewrite ?str_app_assoc. split; reflexivity.
  - intros kp Hkp Hargv. eexists. split.
    + rewrite E. apply (proj2 (Hline rest) kp Hkp Hargv).
    + cbn [output stderr set_stderr set_tick set_output].
      unfold lead. rewrite ?str_app_assoc. split; reflexivity.
Qed.

(** On a host where no argument vector can be fetched, the exec event of
    process 10 ends the program. *)
Lemma handle_msg_exits_when_fetch_fails_witness :
  exists s' : state,
    Exec_only.handle_msg host_no_argv 5 10 initial = Exit 1 s'
    /\ output s' = "  10 "
    /\ stderr s' = "extrace: kvm_getargv: No such process" +:+ nl.
Proof.
  destruct (handle_msg_exits_when_fetch_fails host_no_argv 5 10 initial 1
              (set_tick 1 initial)) as (_ & _ & Hargv).
  - split; [vm_compute; reflexivity | lia].
  - destruct (Hargv (Kinfo 10 1 2 (Timeval 100 0))) as (s' & Hrun & Hout & Herr).
    + reflexivity.
    + reflexivity.
    + exists s'. split; [exact Hrun|]. rewrite Hout, Herr. split; reflexivity.
Defined.

(** ** What the event loop keeps *)

Lemma kept_refl (s : state) : kept s s.
Proof.
  unfold kept. do 4 (split; [reflexivity|]).
  split; [exists EmptyString; now rewrite str_app_nil_r|].
  split; [exists EmptyString; now rewrite str_app_nil_r | exact id].
Qed.

Lemma kept_trans (s1 s2 s3 : state) : kept s1 s2 -> kept s2 s3 -> kept s1 s3.
Proof.
  unfold kept.
  intros (Hp & Ho & Hf & Hs & [x Hx] & [y Hy] & Ht)
         (Hp' & Ho' & Hf' & Hs' & [x' Hx'] & [y' Hy'] & Ht').
  do 4 (split; [congruence|]).
  split; [exists (x +:+ x'); now rewrite Hx', Hx, str_app_assoc|].
  split; [exists (y +:+ y'); now rewrite Hy', Hy, str_app_assoc | tauto].
Qed.

Lemma kept_tick (s : state) (n : nat) : kept s (set_tick n s).
Proof. apply (kept_refl s). Qed.

Lemma kept_quit (s : state) (q : bool) : kept s (set_quit q s).
Proof. apply (kept_refl s). Qed.

Lemma kept_out (s : state) (x : string) : kept s (set_output (output s +:+ x) s).
Proof.
  unfold kept. cbn [parent opt output_file submitted output stderr pid_db set_output].
  do 4 (split; [reflexivity|]).
  split; [now exists x|].
  split; [exists EmptyString; now rewrite str_app_nil_r | exact id].
Qed.

Lemma kept_err (s : state) (x : string) : kept s (set_stderr (stderr s +:+ x) s).
Proof.
  unfold kept. cbn [parent opt output_file submitted output stderr pid_db set_stderr].
  do 4 (split; [reflexivity|]).
  split; [exists EmptyString; now rewrite str_app_nil_r|].
  split; [now exists x | exact id].
Qed.

Lemma table_ok_update (db : list slot) (i : nat) (f : slot -> slot) :
  (forall x : slot, slot_ok x -> slot_ok (f x)) ->
  table_ok db -> table_ok (<[i := f (db !!! i)]> db).
Proof.
  intros Hf [Hlen Hall]. split; [now rewrite length_insert|].
  destruct (Nat.lt_ge_cases i (length db)) as [Hi|Hi].
  - apply Forall_insert; [exact Hall|]. apply Hf.
    apply (proj1 (Forall_lookup_total _ _) Hall). exact Hi.
  - now rewrite list_insert_ge.
Qed.

Lemma kept_slot (s : state) (i : nat) (f : slot -> slot) :
  (forall x : slot, slot_ok x -> slot_ok (f x)) ->
  kept s (set_pid_db (<[i := f (pid_db s !!! i)]> (pid_db s)) s).
Proof.
  intros Hf. unfold kept.
  cbn [parent opt output_file submitted output stderr pid_db set_pid_db].
  do 4 (split; [reflexivity|]).
  split; [exists EmptyString; now rewrite str_app_nil_r|].
  split; [exists EmptyString; now rewrite str_app_nil_r|].
  now apply table_ok_update.
Qed.

Lemma slot_ok_pid (v : Z) (x : slot) : slot_ok x -> slot_ok (with_pid v x).
Proof. exact id. Qed.

Lemma slot_ok_start (v : timeval) (x : slot) : slot_ok x -> slot_ok (with_start v x).
Proof. exact id. Qed.

Lemma slot_ok_claim (p d : Z) (v : timeval) (x : slot) :
  0 <= d -> slot_ok x -> slot_ok (with_start v (with_depth d (with_pid p x))).
Proof. intros Hd [Hc _]. split; [exact Hc | exact Hd]. Qed.

Lemma slot_ok_cmdline (w : string) (x : slot) :
  slot_ok x -> slot_ok (with_cmdline (truncate (CMDLINE_DB_MAX - 1) w) x).
Proof.
  intros [_ Hd]. split; [|exact Hd]. cbn [cmdline with_cmdline].
  pose proof (truncate_length (CMDLINE_DB_MAX - 1) w). unfold CMDLINE_DB_MAX in *. lia.
Qed.

Lemma kept_claim (s : state) (i : nat) (p d : Z) (v : timeval) :
  0 <= d ->
  kept s (set_pid_db
            (<[i := with_start v (with_depth d (with_pid p (pid_db s !!! i)))]> (pid_db s))
            s).
Proof.
  intros Hd.
  apply (kept_slot s i (fun x => with_start v (with_depth d (with_pid p x)))).
  intros x. now apply slot_ok_claim.
Qed.

(** A state update of the handlers respects [kept]. *)
Ltac kept_closed :=
  first
    [ apply kept_tick | apply kept_quit | apply kept_out | apply kept_err
    | apply kept_claim; assumption
    | apply kept_slot; intros ? ?;
      first [ now apply slot_ok_pid | now apply slot_ok_start
            | now apply slot_ok_cmdline ] ].

Ltac kept_step :=
  first
    [ apply safe_bind; [exact kept_trans | | intros ?]
    | apply safe_ret; exact kept_refl
    | apply safe_gets; exact kept_refl
    | apply safe_fault; exact kept_refl
    | apply safe_out_of_fuel
    | apply safe_sys; intros; kept_closed
    | apply safe_modify; intros; kept_closed
    | apply safe_when; [exact kept_refl |]
    | match goal with
      | |- safe _ (if ?b then _ else _) => destruct b
      | |- safe _ (match ?x with _ => _ end) => destruct x
      | |- safe _ (let '(_, _) := ?x in _) => destruct x
      end ].

Section Kept.
Variable P : platform.

Lemma pid_depth_kept (fuel : nat) : forall p : Z, safe kept (Ledger.pid_depth P fuel p).
Proof.
  induction fuel as [|fuel IH]; intros p; cbn [Ledger.pid_depth]; unfold err_out;
    repeat (first [apply IH | kept_step]).
Qed.

Lemma print_args_kept (args : list string) : safe kept (print_args args).
Proof.
  induction args as [|a args IH]; cbn [print_args]; unfold out;
    repeat (first [apply IH | kept_step]).
Qed.

Lemma print_env_kept (envp : list string) : safe kept (print_env envp).
Proof.
  induction envp as [|e envp IH]; cbn [print_env]; unfold out;
    repeat (first [apply IH | kept_step]).
Qed.

Lemma handle_exit_kept (p status : Z) : safe kept (Ledger.handle_exit P p status).
Proof.
  unfold Ledger.handle_exit, out, update_slot.
  repeat kept_step.
Qed.

Lemma exec_line_kept (p d i : Z) (kp : kinfo_proc) (argv : list string) :
  safe kept (Ledger.exec_line P p d i kp argv).
Proof.
  unfold Ledger.exec_line, Ledger.name_from_argv, Ledger.store_cmdline, out, update_slot.
  repeat (first [apply print_args_kept | apply print_env_kept | kept_step]).
Qed.

Lemma claim_slot_kept (p d : Z) (kp : kinfo_proc) :
  0 <= d -> safe kept (Ledger.claim_slot P p d kp).
Proof.
  intros Hd. unfold Ledger.claim_slot, out, err_out, update_slot.
  repeat kept_step.
Qed.

Lemma handle_exec_kept (fuel : nat) (p : Z) : safe kept (Ledger.handle_exec P fuel p).
Proof.
  unfold Ledger.handle_exec.
  apply safe_bind; [exact kept_trans | apply pid_depth_kept | intros d].
  destruct (Z.ltb_spec d 0) as [_|Hd]; [apply safe_ret; exact kept_refl|].
  apply safe_bind;
    [exact kept_trans | apply safe_sys; intros; apply kept_tick | intros kp].
  destruct kp as [kp|]; [|unfold warn, out, err_out; repeat kept_step].
  apply safe_bind;
    [exact kept_trans | apply safe_sys; intros; apply kept_tick | intros pp].
  destruct pp as [argv|]; [|unfold warn, out, err_out; repeat kept_step].
  apply safe_bind; [exact kept_trans | apply safe_gets; exact kept_refl | intros o].
  apply safe_bind; [exact kept_trans | | intros i; apply exec_line_kept].
  destruct (show_exit o || negb (flat o)).
  - apply claim_slot_kept. exact Hd.
  - apply safe_sys. intros. apply kept_tick.
Qed.

Lemma reap_kept (children : list (Z * Z)) : safe kept (Ledger.reap P children).
Proof.
  induction children as [|[p w] children IH]; cbn [Ledger.reap];
    repeat (first [apply IH | apply handle_exit_kept | kept_step]).
Qed.

Lemma handle_event_kept (fuel : nat) (ke : kevent) :
  safe kept (Ledger.handle_event P fuel ke).
Proof.
  unfold Ledger.handle_event.
  repeat (first [ apply reap_kept | apply handle_exit_kept | apply handle_exec_kept
                | kept_step ]).
Qed.

Lemma handle_batch_kept (fuel : nat) (kev : list kevent) :
  safe kept (Ledger.handle_batch P fuel kev).
Proof.
  induction kev as [|ke kev IH]; cbn [Ledger.handle_batch];
    repeat (first [apply IH | apply handle_event_kept | kept_step]).
Qed.

Lemma dispatch_kept (rounds fuel : nat) : safe kept (Ledger.dispatch P rounds fuel).
Proof.
  induction rounds as [|rounds IH]; cbn [Ledger.dispatch];
    repeat (first [apply IH | apply handle_batch_kept | kept_step]).
Qed.

(** The loop is left only with [quit] set. *)
Lemma dispatch_quits (fuel : nat) : forall (rounds : nat) (s s' : state),
  Ledger.dispatch P rounds fuel s = Done tt s' -> quit s' = true.
Proof.
  induction rounds as [|rounds IH]; intros s s'; cbn [Ledger.dispatch];
    unfold bind at 1; unfold gets at 1; destruct (quit s) eqn:Hq.
  - intros [= <-]. exact Hq.
  - discriminate.
  - intros [= <-]. exact Hq.
  - unfold bind at 1. unfold sys at 1. unfold bind at 1.
    destruct (Ledger.handle_batch P fuel _ _) as [[] s1| | | |]; try discriminate.
    apply IH.
Qed.

End Kept.



(** ** Signals *)

(** X9: a signal event ends the loop at once.  When the first event of a
    batch is a signal event for a signal other than [SIGCHLD] (the
    interrupt, for one), [quit] is set, nothing is written, the table is
    left as it is, and the events behind it in the batch are dropped
    without being looked at; the loop then returns.  For [SIGCHLD] the
    children are reaped first, and without [-t] nothing is written for
    them either.  Both revisions do so. *)
Theorem signal_event_ends_loop (P : platform) (fuel rounds : nat) (ke : kevent)
    (rest : list kevent) (s : state) :
  filter ke = EVFILT_SIGNAL ->
  (ident ke <> SIGCHLD ->
     Ledger.handle_batch P fuel (ke :: rest) s = Done tt (set_quit true s)
     /\ Exec_only.handle_batch P fuel (ke :: rest) s = Done tt (set_quit true s))
  /\ (ident ke = SIGCHLD -> show_exit (opt s) = false ->
        Ledger.handle_batch P fuel (ke :: rest) s
        = Done tt (set_quit true (set_tick (S (tick s)) s)))
  /\ (ident ke = SIGCHLD ->
        Exec_only.handle_batch P fuel (ke :: rest) s
        = Done tt (set_quit true (set_tick (S (tick s)) s)))
  /\ (ident ke <> SIGCHLD -> quit s = false -> kevent_wait P (tick s) = ke :: rest ->
        Ledger.dispatch P (S rounds) fuel s
        = Done tt (set_quit true (set_tick (S (tick s)) s))
        /\ Exec_only.dispatch P (S rounds) fuel s
           = Done tt (set_quit true (set_tick (S (tick s)) s))).
Proof.
  intros Hf.
  assert (Hother' : forall (l : list kevent) (s0 : state), ident ke <> SIGCHLD ->
            Ledger.handle_batch P fuel (ke :: l) s0 = Done tt (set_quit true s0)
            /\ Exec_only.handle_batch P fuel (ke :: l) s0 = Done tt (set_quit true s0)).
  { intros l s0 Hne. apply Z.eqb_neq in Hne.
    cbn [Ledger.handle_batch Exec_only.handle_batch].
    unfold Ledger.handle_event, Exec_only.handle_event. rewrite Hf, Hne.
    split; reflexivity. }
  split; [apply Hother'|]. split; [|split].
  - intros Hc Ht.
    assert (Hreap : forall (l : list (Z * Z)) (s0 : state),
              show_exit (opt s0) = false -> Ledger.reap P l s0 = Done tt s0).
    { induction l as [|[q w] l IH]; intros s0 H0; [reflexivity|].
      cbn [Ledger.reap]. unfold bind at 1. unfold gets at 1. rewrite H0.
      unfold bind at 1. unfold when, ret. now apply IH. }
    cbn [Ledger.handle_batch]. unfold Ledger.handle_event.
    rewrite Hf, Hc, !Z.eqb_refl.
    unfold bind, sys, when. rewrite Hreap by exact Ht. reflexivity.
  - intros Hc. cbn [Exec_only.handle_batch]. unfold Exec_only.handle_event.
    rewrite Hf, Hc. reflexivity.
  - intros Hne Hq Hw.
    assert (Htake : take 4 (ke :: rest) = ke :: take 3 rest) by reflexivity.
    split.
    + cbn [Ledger.dispatch]. unfold bind at 1. unfold gets at 1. rewrite Hq.
      unfold bind at 1. unfold sys at 1. rewrite Hw, Htake.
      unfold bind at 1. rewrite (proj1 (Hother' (take 3 rest) _ Hne)).
      destruct rounds; reflexivity.
    + cbn [Exec_only.dispatch]. unfold bind at 1. unfold gets at 1. rewrite Hq.
      unfold bind at 1. unfold sys at 1. rewrite Hw, Htake.
      unfold bind at 1. rewrite (proj2 (Hother' (take 3 rest) _ Hne)).
      destruct rounds; reflexivity.
Qed.

(** On the host where the user interrupts at once, with a second event
    behind the interrupt in the batch. *)
Lemma signal_event_ends_loop_witness :
  Ledger.handle_batch host 5 (Kevent SIGINT EVFILT_SIGNAL 0 0 0 0 :: [exec_event 10]) initial
  = Done tt (set_quit true initial)
  /\ Ledger.dispatch host_interrupted 1 5 initial
     = Done tt (set_quit true (set_tick 1 initial)).
Proof.
  split.
  - apply (signal_event_ends_loop host 5 0 (Kevent SIGINT EVFILT_SIGNAL 0 0 0 0)
             [exec_event 10] initial).
    + reflexivity.
    + discriminate.
  - apply (signal_event_ends_loop host_interrupted 5 0 (Kevent SIGINT EVFILT_SIGNAL 0 0 0 0)
             [] initial).
    + reflexivity.
    + discriminate.
    + reflexivity.
    + reflexivity.
Defined.

(** ** Running a command *)

(** The start-up, from the options read to the [fork]. *)
Ltac run_startup Hparse Hroot Hne Hkq Hkd Hchld :=
  rewrite (bind_done _ _ _ _ _ Hparse);
  unfold bind at 1; unfold gets at 1; rewrite Hroot;
  change (negb (1 =? 1)) with false; cbn [andb];
  unfold bind at 1; unfold sys at 1; rewrite Hkq;
  unfold bind at 1; unfold sys at 1; cbn [tick set_tick]; rewrite Hkd; cbn [negb];
  rewrite (bool_decide_eq_false_2 _ Hne); cbn [negb]; unfold when at 1;
  unfold bind at 1; unfold bind at 1;
  unfold kevent_register at 1; unfold bind at 1; unfold sys at 1;
  cbn [tick set_tick]; rewrite Hchld;
  unfold bind at 1; unfold modify at 1; unfold ret at 1;
  change (negb (0 =? 0)) with false; cbv iota;
  unfold bind at 1; unfold sys at 1;
  cbn [tick set_tick set_submitted];
  unfold bind at 1; unfold modify at 1.

Lemma kevent_register_run (P : platform) (l : list kevent) (s : state) :
  kevent_register P l s
  = Done (kevent_change P (tick s) l)
      (set_submitted ((l, kevent_change P (tick s) l) :: submitted s)
         (set_tick (S (tick s)) s)).
Proof. reflexivity. Qed.

(** From the [fork] on. *)
Ltac run_spawn Hparse Hroot Hne Hkq Hkd Hchld :=
  unfold spawns, track, watch_sigint, watch_sigchld in *; cbn [Nat.add];
  split; [|split; [|split]];
  [ intros Hchild Hexec; eexists; split;
    [ run_startup Hparse Hroot Hne Hkq Hkd Hchld;
      rewrite Hchild;
      change (0 =? -1) with false; change (0 =? 0) with true; cbv iota;
      unfold bind at 1; unfold bind at 1; unfold sys at 1;
      cbn [tick set_tick set_parent]; rewrite Hexec; reflexivity
    | split; reflexivity ]
  | intros Hchild Hexec; eexists; split;
    [ run_startup Hparse Hroot Hne Hkq Hkd Hchld;
      rewrite Hchild;
      change (0 =? -1) with false; change (0 =? 0) with true; cbv iota;
      unfold bind at 1; unfold bind at 1; unfold sys at 1;
      cbn [tick set_tick set_parent]; rewrite Hexec;
      unfold err, warn, bind, sys, err_out, modify, exit; reflexivity
    | reflexivity ]
  | intros Hchild; eexists; split;
    [ run_startup Hparse Hroot Hne Hkq Hkd Hchld;
      rewrite Hchild;
      change (-1 =? -1) with true; cbv iota;
      unfold err, warn, bind, sys, err_out, modify, exit; reflexivity
    | reflexivity ]
  | intros Hc0 Hc1 Hc2 Hint Htrack; eexists; split;
    [ run_startup Hparse Hroot Hne Hkq Hkd Hchld;
      apply Z.eqb_neq in Hc0, Hc1, Hc2; rewrite Hc0, Hc1;
      unfold ret at 1;
      rewrite (bind_done _ _ _ _ _ (kevent_register_run _ _ _));
      cbn [tick set_tick set_parent set_submitted]; rewrite Hint;
      change (negb (0 =? 0)) with false; cbv iota;
      unfold bind at 1; unfold gets at 1;
      cbn [parent set_tick set_parent set_submitted]; rewrite Hc2; cbn [negb];
      rewrite (bind_done _ _ _ _ _ (kevent_register_run _ _ _));
      cbn [tick set_tick set_parent set_submitted]; rewrite Htrack;
      reflexivity
    | cbn [tick parent opt pid_db output stderr submitted
           set_tick set_parent set_submitted];
      repeat split ] ].

(** X10: the start-up with a command.  When a command is given, no [-p] has
    moved the scope root from 1, and the kqueue, the kvm handle and the
    subscription to [SIGCHLD] are obtained, the program forks.  In the
    child the command replaces the program (or the program exits with
    status 1 after the [execvp] diagnostic).  When the fork fails the
    program exits with status 1 after the [fork] diagnostic.  In the parent
    the scope root becomes the child, the interrupt is subscribed to, and
    the one change handed to [kevent] for the child asks for its exec
    events and for its offspring to be followed, with or without [-t]; the
    processes are not listed.  Both revisions do so. *)
Theorem command_is_spawned_and_followed (P : platform) (tries : nat)
    (opts : list (ascii * string)) (operands : list string) (s s1 : state) :
  operands <> [] ->
  parent s1 = 1 ->
  kqueue P (tick s1) <> -1 ->
  kvm_openfiles P (S (tick s1)) = true ->
  kevent_change P (S (S (tick s1))) watch_sigchld = 0 ->
  (Ledger.parse_options P opts s = Done tt s1 ->
     spawns P operands s1 (Ledger.startup P tries opts operands s))
  /\ (Exec_only.parse_options P opts s = Done tt s1 ->
        spawns P operands s1 (Exec_only.startup P tries opts operands s)).
Proof.
  intros Hne Hroot Hkq Hkd Hchld. apply Z.eqb_neq in Hkq.
  split; intros Hparse.
  - unfold Ledger.startup. run_spawn Hparse Hroot Hne Hkq Hkd Hchld.
  - unfold Exec_only.startup. run_spawn Hparse Hroot Hne Hkq Hkd Hchld.
Qed.

(** On the host of the scenario, whose [fork] returns 77, for the command
    [true] and no option. *)
Lemma command_is_spawned_and_followed_witness :
  spawns host ["true"] initial (Ledger.startup host 1 [] ["true"] initial)
  /\ spawns host ["true"] initial (Exec_only.startup host 1 [] ["true"] initial).
Proof.
  destruct (command_is_spawned_and_followed host 1 [] ["true"] initial initial) as [H H0].
  - discriminate.
  - reflexivity.
  - discriminate.
  - reflexivity.
  - reflexivity.
  - split; [apply H | apply H0]; reflexivity.
Defined.

(** ** The option flags *)

Lemma flags_after_nil (o : options) : flags_after o [] = o.
Proof.
  destruct o. unfold flags_after, given. cbn [existsb flat full_path show_args show_cwd
    show_env show_exit negb]. now rewrite !orb_false_r, andb_true_r.
Qed.

Lemma flags_after_cons (o : options) (x : ascii * string) (opts : list (ascii * string)) :
  flags_after (flags_after o [x]) opts = flags_after o (x :: opts).
Proof.
  unfold flags_after, given.
  cbn [existsb flat full_path show_args show_cwd show_env show_exit].
  rewrite !orb_false_r, negb_orb, <- !orb_assoc, <- !andb_assoc. reflexivity.
Qed.

(** The cases of the [switch] on the option letter, in the order of the
    source: in each one the letter is known. *)
Ltac option_letters :=
  repeat match goal with
    | |- context [if Ascii.eqb ?c ?x then _ else _] =>
        is_var c;
        let E := fresh "E" in
        destruct (Ascii.eqb c x) eqn:E;
        [ apply Ascii.eqb_eq in E; subst c | ]
    end.

Ltac option_flags Ho :=
  cbn [opt pid_db output quit set_tick]; rewrite Ho;
  cbn [flat full_path show_args show_cwd show_env show_exit
       set_flat set_full_path clear_show_args set_show_cwd set_show_env set_show_exit];
  rewrite ?orb_false_r, ?orb_true_r, ?andb_true_r, ?andb_false_r;
  repeat split; reflexivity.

Lemma option_case_flags (P : platform) (c : ascii) (a : string) (s s1 : state) :
  Ledger.option_case P c a s = Done tt s1 ->
  opt s1 = flags_after (opt s) [(c, a)]
  /\ pid_db s1 = pid_db s /\ output s1 = output s /\ quit s1 = quit s.
Proof.
  unfold Ledger.option_case, flags_after, given. cbn [existsb fst].
  destruct (opt s) as [fl fp sa sc se sx] eqn:Ho.
  option_letters;
    cbn [Ascii.eqb Bool.eqb orb andb negb];
    unfold modify, ret, Ledger.usage, bind, exit, err_out, sys, set_opt, set_parent,
      set_output_file;
    try (intros [= <-]; option_flags Ho);
    try discriminate.
  destruct (fopen P (tick s) a); [|discriminate].
  intros [= <-]. option_flags Ho.
Qed.

Lemma option_case_flags0 (P : platform) (c : ascii) (a : string) (s s1 : state) :
  Exec_only.option_case P c a s = Done tt s1 ->
  Ascii.eqb c "t" = false
  /\ opt s1 = flags_after (opt s) [(c, a)]
  /\ pid_db s1 = pid_db s /\ output s1 = output s /\ quit s1 = quit s.
Proof.
  unfold Exec_only.option_case, flags_after, given. cbn [existsb fst].
  destruct (opt s) as [fl fp sa sc se sx] eqn:Ho.
  option_letters;
    cbn [Ascii.eqb Bool.eqb orb andb negb];
    unfold modify, ret, Exec_only.usage, bind, exit, err_out, sys, set_opt, set_parent,
      set_output_file;
    try (intros [= <-]; split; [reflexivity|]; option_flags Ho);
    try discriminate.
  destruct (fopen P (tick s) a); [|discriminate].
  intros [= <-]. split; [reflexivity|]. option_flags Ho.
Qed.

(** X11: the option loop and the flags.  When the loop over the options
    returns, each of [-f], [-l], [-d], [-e] and [-t] that was given has set
    its flag, [-q] has cleared the flag of the arguments, and no other
    flag has changed: neither the order of the options nor a repetition
    counts, and [-w], [-p] and [-o] leave the flags alone.  The table, the
    output and [quit] are untouched.  The revision that traces exec only
    does the same, and does not return when [-t] is given. *)
Theorem options_set_flags (P : platform) (opts : list (ascii * string)) :
  (forall s s' : state,
     Ledger.parse_options P opts s = Done tt s' ->
     opt s' = flags_after (opt s) opts
     /\ pid_db s' = pid_db s /\ output s' = output s /\ quit s' = quit s)
  /\ (forall s s' : state,
        Exec_only.parse_options P opts s = Done tt s' ->
        given "t" opts = false
        /\ opt s' = flags_after (opt s) opts
        /\ pid_db s' = pid_db s /\ output s' = output s /\ quit s' = quit s).
Proof.
  split.
  - induction opts as [|[c a] opts IH]; intros s s'.
    + intros [= <-]. now rewrite flags_after_nil.
    + cbn [Ledger.parse_options]. unfold bind at 1.
      destruct (Ledger.option_case P c a s) as [[] s1| | | |] eqn:E; try discriminate.
      intros Hrest.
      destruct (option_case_flags P c a s s1 E) as (Ho & Hdb & Hout & Hq).
      destruct (IH s1 s' Hrest) as (Ho' & Hdb' & Hout' & Hq').
      rewrite Ho', Ho, flags_after_cons. repeat split; congruence.
  - induction opts as [|[c a] opts IH]; intros s s'.
    + intros [= <-]. now rewrite flags_after_nil.
    + cbn [Exec_only.parse_options]. unfold bind at 1.
      destruct (Exec_only.option_case P c a s) as [[] s1| | | |] eqn:E; try discriminate.
      intros Hrest.
      destruct (option_case_flags0 P c a s s1 E) as (Ht & Ho & Hdb & Hout & Hq).
      destruct (IH s1 s' Hrest) as (Ht' & Ho' & Hdb' & Hout' & Hq').
      rewrite Ho', Ho, flags_after_cons.
      split; [unfold given in *; cbn [existsb fst]; now rewrite Ht, Ht'|].
      repeat split; congruence.
Qed.

(** On the host of the scenario: [-f -d -f -q] from the initial state. *)
Lemma options_set_flags_witness :
  opt (set_opt (Options true false false true false false) initial)
  = flags_after (opt initial) [("f"%char, EmptyString); ("d"%char, EmptyString);
                              ("f"%char, EmptyString); ("q"%char, EmptyString)].
Proof.
  apply (proj1 (options_set_flags host
                  [("f"%char, EmptyString); ("d"%char, EmptyString);
                   ("f"%char, EmptyString); ("q"%char, EmptyString)])
           initial (set_opt (Options true false false true false false) initial)).
  vm_compute. reflexivity.
Defined.

(** ** The depth and the table *)

Section Depth.
Variable P : platform.

(** One call of [pid_depth], down to the nested call. *)
Lemma pid_depth0_step (fuel : nat) (p : Z) (s : state) :
  Exec_only.pid_depth P (S fuel) p s
  = match kvm_getprocs P (tick s) p with
    | None =>
        Done (-1)
          (set_stderr (stderr s +:+ "extrace: kvm_getprocs: "
                       +:+ kvm_geterr P (S (tick s)) +:+ nl)
             (set_tick (S (S (tick s))) s))
    | Some kp =>
        if p =? parent s then Done 0 (set_tick (S (tick s)) s)
        else if ki_ppid kp =? parent s then Done 1 (set_tick (S (tick s)) s)
        else if ki_ppid kp =? 0 then Done (-1) (set_tick (S (tick s)) s)
        else
          match Exec_only.pid_depth P fuel (ki_ppid kp) (set_tick (S (tick s)) s) with
          | Done d s' => Done (if d =? -1 then -1 else d + 1) s'
          | r => r
          end
    end.
Proof.
  cbn [Exec_only.pid_depth]. unfold bind, sys, gets, err_out, modify, ret.
  destruct (kvm_getprocs P (tick s) p) as [kp|]; [|reflexivity].
  cbn [parent set_tick].
  destruct (p =? parent s); [reflexivity|].
  destruct (ki_ppid kp =? parent s); [reflexivity|].
  destruct (ki_ppid kp =? 0); [reflexivity|].
  destruct (Exec_only.pid_depth P fuel (ki_ppid kp) (set_tick (S (tick s)) s))
    as [d s1| | | |]; try reflexivity.
  destruct (d =? -1); reflexivity.
Qed.

Lemma pid_depth0_table (db : list slot) : forall (fuel : nat) (p : Z) (s : state),
  Exec_only.pid_depth P fuel p (set_pid_db db s)
  = with_table db (Exec_only.pid_depth P fuel p s).
Proof.
  induction fuel as [|fuel IH]; intros p s; [reflexivity|].
  rewrite !pid_depth0_step. cbn [tick parent set_pid_db].
  destruct (kvm_getprocs P (tick s) p) as [kp|]; [|reflexivity].
  destruct (p =? parent s); [reflexivity|].
  destruct (ki_ppid kp =? parent s); [reflexivity|].
  destruct (ki_ppid kp =? 0); [reflexivity|].
  change (set_tick (S (tick s)) (set_pid_db db s))
    with (set_pid_db db (set_tick (S (tick s)) s)).
  rewrite IH.
  destruct (Exec_only.pid_depth P fuel (ki_ppid kp) (set_tick (S (tick s)) s));
    reflexivity.
Qed.

Lemma pid_depth0_range : forall (fuel : nat) (p : Z) (s : state),
  match Exec_only.pid_depth P fuel p s with
  | Done d s' => d = -1 \/ 0 <= d <= Z.of_nat fuel
  | OutOfFuel => True
  | _ => False
  end.
Proof.
  induction fuel as [|fuel IH]; intros p s; [exact I|].
  rewrite pid_depth0_step.
  destruct (kvm_getprocs P (tick s) p) as [kp|]; [|now left].
  destruct (p =? parent s); [right; lia|].
  destruct (ki_ppid kp =? parent s); [right; lia|].
  destruct (ki_ppid kp =? 0); [now left|].
  specialize (IH (ki_ppid kp) (set_tick (S (tick s)) s)).
  destruct (Exec_only.pid_depth P fuel (ki_ppid kp) (set_tick (S (tick s)) s))
    as [d s1| | | |]; try exact IH.
  destruct (Z.eqb_spec d (-1)); [now left|]. right. lia.
Qed.

End Depth.

(** X12: the depth stored in the table is never read back.  Whatever the
    table holds, [pid_depth] of the revision with the table returns what
    [pid_depth] of the other revision returns, in the same state: replacing
    the table changes neither the depth nor anything else that the call
    does.  The call never exits and has no undefined behaviour; its result
    is -1 or a depth from 0 up to the number of nested calls made. *)
Theorem pid_depth_ignores_table (P : platform) (fuel : nat) (p : Z) (s : state)
    (db : list slot) :
  Ledger.pid_depth P fuel p s = Exec_only.pid_depth P fuel p s
  /\ Ledger.pid_depth P fuel p (set_pid_db db s)
     = with_table db (Ledger.pid_depth P fuel p s)
  /\ match Ledger.pid_depth P fuel p s with
     | Done d s' => d = -1 \/ 0 <= d <= Z.of_nat fuel
     | OutOfFuel => True
     | _ => False
     end.
Proof.
  pose proof (pid_depth_same P fuel p s) as E.
  pose proof (pid_depth_same P fuel p (set_pid_db db s)) as E'.
  split; [exact E|]. split.
  - transitivity (Exec_only.pid_depth P fuel p (set_pid_db db s)); [exact E'|].
    transitivity (with_table db (Exec_only.pid_depth P fuel p s));
      [apply pid_depth0_table | now f_equal].
  - rewrite E. apply pid_depth0_range.
Qed.

(** ** An exec event of a process that holds a slot *)

(** The part of [handle_exec] under [if (show_exit || !flat)], when [-t] is
    given and the slot found holds the process: the line of the re-exec is
    written and the clock of the slot is started again. *)
Lemma claim_slot_again (P : platform) (p d : Z) (kp : kinfo_proc) (s : state) :
  let i := Ledger.find_slot (pid_db s) p in
  let x := pid_db s !!! i in
  let now := gettimeofday P (tick s) in
  show_exit (opt s) = true -> pid x = p ->
  Ledger.claim_slot P p d kp s
  = Done (Z.of_nat i)
      (set_pid_db (<[i := with_start now x]> (pid_db s))
         (set_output (output s +:+ execed_text P (opt s) p d x now +:+ nl)
            (set_tick (S (tick s))
               (set_stderr (stderr s +:+ warning_at i) s)))).
Proof.
  intros i x now Ht Hp. unfold Ledger.claim_slot.
  unfold bind at 1. unfold gets at 1. unfold bind at 1. unfold gets at 1.
  fold i. fold x. rewrite Ht, Hp, Z.eqb_refl. cbn [andb].
  assert (Hwarn : forall (A : Type) (m : M A),
            (when (Nat.eqb i (PID_DB_SIZE - 1))
               (err_out ("extrace: warning: pid_db of size "
                         +:+ fmt_d (Z.of_nat PID_DB_SIZE) +:+ " overflowed" +:+ nl)) >> m) s
            = m (set_stderr (stderr s +:+ warning_at i) s)).
  { intros A m. unfold bind at 1. unfold warning_at.
    destruct (Nat.eqb i (PID_DB_SIZE - 1)); unfold when.
    - rewrite overflow_warning_eq. reflexivity.
    - unfold ret. rewrite str_app_nil_r. destruct s; reflexivity. }
  rewrite Hwarn.
  assert (Hline : writes
    (when (negb (flat (opt s))) (out (fmt_pad (2 * d))) >>
     let* now := sys (gettimeofday P) in
     out (fmt_d p +:+ "- " +:+ cmdline x +:+ " execed time="
          +:+ fmt_seconds P (timersub now (start x)) +:+ "s" +:+ nl) >>
     update_slot i (with_start now))
    (set_stderr (stderr s +:+ warning_at i) s) 1
    (execed_text P (opt s) p d x now +:+ nl)
    (<[i := with_start now x]> (pid_db s))).
  { eapply writes_eq.
    - eapply writes_seq;
        [apply writes_when; [reflexivity | apply writes_out; reflexivity]|].
      intros s1 Ht1 Hdb1 _.
      assert (Hs1 : tick s1 = tick s).
      { rewrite Ht1. cbn [tick set_stderr]. now destruct (negb (flat (opt s))). }
      apply writes_sys. intros s2 Ht2 Hdb2 _. cbv beta. rewrite Hs1.
      eapply writes_seq; [apply writes_out; rewrite Hdb2; exact Hdb1|].
      intros s3 Ht3 Hdb3 _. apply writes_update. exact Hdb3.
    - now destruct (negb (flat (opt s))).
    - unfold execed_text, now. rewrite !str_app_assoc, str_app_nil_r. reflexivity.
    - reflexivity. }
  unfold writes in Hline. unfold bind at 1. rewrite Hline.
  cbn [tick output pid_db set_stderr set_tick set_output set_pid_db].
  unfold ret. destruct s; reflexivity.
Qed.

(** X13: under [-t], an exec event of a process that already holds the slot
    found.  For an event in scope whose record and argument vector are
    fetched, two lines are written: first the line of the re-exec, with
    the indentation of the depth just resolved, the pid, the name stored
    in the slot written as it is, without quoting, and the time since the
    start recorded; then the line of the exec.  In the slot the start time
    becomes the current time and the name becomes the new one, cut to 31
    bytes; the pid and the depth stored stay.  The overflow warning is
    written when the slot is the last one. *)
Theorem reexec_reports_and_restarts_clock (P : platform) (fuel : nat) (p : Z) (s : state)
    (d : Z) (s1 : state) (kp : kinfo_proc) (a : string) (args : list string) :
  let i := Ledger.find_slot (pid_db s) p in
  let x := pid_db s !!! i in
  let now := gettimeofday P (S (S (tick s1))) in
  let r := answers_at P (opt s) p kp (S (S (S (tick s1)))) in
  length (pid_db s) = PID_DB_SIZE ->
  show_exit (opt s) = true -> pid x = p ->
  Ledger.pid_depth P fuel p s = Done d s1 -> 0 <= d ->
  kvm_getprocs P (tick s1) p = Some kp ->
  kvm_getargv P (S (tick s1)) kp = Some (a :: args) ->
  exists s' : state,
    Ledger.handle_exec P fuel p s = Done tt s'
    /\ output s'
       = output s +:+ execed_text P (opt s) p d x now +:+ nl
         +:+ line_text (opt s) p d r a args +:+ nl
    /\ pid_db s'
       = <[i := Slot p (depth x) now
                 (truncate (CMDLINE_DB_MAX - 1) (shown_name (opt s) r a))]> (pid_db s)
    /\ stderr s' = stderr s +:+ warning_at i.
Proof.
  intros i x now r Hlen Ht Hp Hd Hpos Hkp Hargv.
  assert (Hs1 : exists n, s1 = set_tick n s).
  { exists (tick s1). apply (pid_depth_quiet P fuel p s d); [exact Hd | lia]. }
  destruct Hs1 as [n ->]. cbn [tick set_tick] in *.
  assert (Hi : (i < PID_DB_SIZE)%nat).
  { pose proof (find_slot_bound (pid_db s) p) as Hb. fold i in Hb.
    unfold PID_DB_SIZE in *. lia. }
  eexists. split.
  - unfold Ledger.handle_exec.
    rewrite (bind_done _ _ _ _ _ Hd).
    destruct (Z.ltb_spec d 0); [lia|].
    unfold bind at 1. unfold sys at 1. cbn [tick set_tick]. rewrite Hkp.
    unfold bind at 1. unfold sys at 1. cbn [tick set_tick]. rewrite Hargv.
    unfold bind at 1. unfold gets at 1. cbn [opt set_tick]. rewrite Ht. cbn [orb].
    unfold bind at 1.
    rewrite claim_slot_again by (cbn [opt pid_db set_tick]; assumption).
    cbn [pid_db opt tick stderr output set_tick]. fold i. fold x. fold now.
    rewrite (exec_line_exact P p d kp a args i _ Hi).
    reflexivity.
  - cbn [pid_db opt tick stderr output set_tick set_output set_pid_db set_stderr].
    fold r. split; [now rewrite !str_app_assoc|]. split; [|reflexivity].
    rewrite list_lookup_total_insert_eq by (rewrite Hlen; exact Hi).
    rewrite list_insert_insert_eq. rewrite <- Hp. reflexivity.
Qed.

(** On the host of the scenario, with [-t] and process 20 in the first
    slot since 200 s, process 20 execs again at 1000.5 s. *)
Lemma reexec_reports_and_restarts_clock_witness :
  exists s' : state,
    Ledger.handle_exec host 5 20 (set_opt (set_show_exit (opt stale)) stale) = Done tt s'
    /\ output s'
       = "  20- sh execed time=800.500s" +:+ nl +:+ "  20+ /bin/true" +:+ nl
    /\ pid_db s' !! 0%nat = Some (Slot 20 5 (Timeval 1000 500000) "/bin/true").
Proof.
  destruct (reexec_reports_and_restarts_clock host 5 20
              (set_opt (set_show_exit (opt stale)) stale) 1
              (set_tick 1 (set_opt (set_show_exit (opt stale)) stale))
              (Kinfo 20 1 2 (Timeval 200 0)) "/bin/true" [])
    as (s' & Hrun & Hout & Hdb & _).
  - reflexivity.
  - reflexivity.
  - reflexivity.
  - vm_compute. reflexivity.
  - lia.
  - reflexivity.
  - reflexivity.
  - exists s'. split; [exact Hrun|]. rewrite Hout, Hdb. split; reflexivity.
Defined.

(** ** Bare and quoted words *)

Lemma str_length_app (a b : string) :
  String.length (a +:+ b) = (String.length a + String.length b)%nat.
Proof.
  induction a as [|c a IH]; [reflexivity|].
  rewrite str_app_cons. cbn [String.length]. now rewrite IH.
Qed.

Lemma quote_body_length (s : string) :
  (String.length s <= String.length (quote_body s))%nat.
Proof.
  induction s as [|c s IH]; [reflexivity|].
  cbn [quote_body]. rewrite str_length_app. cbn [String.length].
  destruct (Ascii.eqb c squote); [cbn; lia|].
  destruct (Ascii.eqb c newline); cbn; lia.
Qed.

(** X14: what [print_shquoted] writes for a string.  A string that is not
    empty and holds none of the bytes that the function looks for is
    written as it is, and only such a string is: any other is written
    between single quotes, at least two bytes longer.  No newline is ever
    written, and two different strings are never written the same. *)
Theorem print_shquoted_bare_or_quoted (s : string) :
  (print_shquoted s = s <-> s <> EmptyString /\ strpbrk s special = None)
  /\ (print_shquoted s <> s ->
        exists body : string,
          print_shquoted s = String squote (body +:+ String squote EmptyString)
          /\ (String.length s <= String.length body)%nat)
  /\ mem newline (print_shquoted s) = false
  /\ (forall s' : string, s' <> s -> print_shquoted s' <> print_shquoted s).
Proof.
  assert (Hquoted : forall x : string,
            (String.length x
             < String.length (String squote (quote_body x +:+ String squote EmptyString)))%nat).
  { intros x. cbn [String.length]. rewrite str_length_app. cbn [String.length].
    pose proof (quote_body_length x). lia. }
  split; [|split; [|split]].
  - split.
    + intros H. unfold print_shquoted in H. destruct s as [|c s].
      * discriminate.
      * destruct (strpbrk (String c s) special) eqn:E; [|now split].
        pose proof (Hquoted (String c s)) as Hl. rewrite H in Hl. lia.
    + intros [Hne Hp]. unfold print_shquoted.
      destruct s as [|c s]; [contradiction|]. now rewrite Hp.
  - intros Hne. exists (quote_body s). split; [|apply quote_body_length].
    unfold print_shquoted in *. destruct s as [|c s]; [reflexivity|].
    destruct (strpbrk (String c s) special); [reflexivity | contradiction].
  - apply print_shquoted_one_line.
  - intros s' Hne Heq. apply Hne.
    pose proof (run_shquoted [] None s') as H1.
    pose proof (run_shquoted [] None s) as H2.
    rewrite Heq, H2 in H1. unfold open in H1. cbn [default from_option id] in H1.
    rewrite !str_app_nil_l in H1. congruence.
Qed.

(** A name with a space in it, and a plain one. *)
Lemma print_shquoted_bare_or_quoted_witness :
  print_shquoted "ls" = "ls"
  /\ (exists body : string,
        print_shquoted "a b" = String squote (body +:+ String squote EmptyString)
        /\ (String.length "a b" <= String.length body)%nat)
  /\ print_shquoted "a b" <> print_shquoted "ab".
Proof.
  split; [|split].
  - apply (proj1 (print_shquoted_bare_or_quoted "ls")). split; [discriminate | reflexivity].
  - apply (proj1 (proj2 (print_shquoted_bare_or_quoted "a b"))). discriminate.
  - apply (proj2 (proj2 (proj2 (print_shquoted_bare_or_quoted "ab")))). discriminate.
Defined.

(** ** The retries of the bootstrap *)

Section Retries.
Variable P : platform.
Variable procs : list kinfo_proc.
Hypothesis Hlist : forall t : nat, kvm_getprocs_all P t = Some procs.
Hypothesis Hmem : forall t : nat, calloc P t = true.

Lemma after_round_esrch (kevs : list kevent) (s : state) :
  tick (after_round P kevs ESRCH s) = (4 + tick s)%nat
  /\ opt (after_round P kevs ESRCH s) = opt s
  /\ submitted (after_round P kevs ESRCH s) = (kevs, ESRCH) :: submitted s
  /\ output (after_round P kevs ESRCH s) = output s
  /\ pid_db (after_round P kevs ESRCH s) = pid_db s.
Proof. repeat split. Qed.

Lemma after_round_fields (kevs : list kevent) (e : Z) (s : state) :
  opt (after_round P kevs e s) = opt s
  /\ submitted (after_round P kevs e s) = (kevs, e) :: submitted s
  /\ output (after_round P kevs e s) = output s
  /\ pid_db (after_round P kevs e s) = pid_db s.
Proof. unfold after_round. destruct (e =? 0); repeat split. Qed.

Lemma bootstrap_converges (e : Z) : forall (n : nat) (s : state) (tries : nat),
  let kevs := map (Ledger.bootstrap_change (opt s)) procs in
  (forall j : nat, (j < n)%nat -> kevent_change P (2 + 4 * j + tick s) kevs = ESRCH) ->
  kevent_change P (2 + 4 * n + tick s) kevs = e -> e <> ESRCH ->
  (n < tries)%nat ->
  exists s' : state,
    Ledger.bootstrap P tries s = Done tt s'
    /\ submitted s' = (kevs, e) :: replicate n (kevs, ESRCH) ++ submitted s
    /\ opt s' = opt s /\ output s' = output s /\ pid_db s' = pid_db s.
Proof.
  induction n as [|n IH]; intros s tries kevs Hfail Hlast Hne Htries;
    (destruct tries as [|tries]; [lia|]);
    rewrite (bootstrap_round P tries s procs (Hlist _) (Hmem _)); fold kevs.
  - cbn [Nat.mul Nat.add] in Hlast. rewrite Hlast.
    destruct (Z.eqb_spec e ESRCH); [contradiction|].
    eexists. split; [reflexivity|].
    destruct (after_round_fields kevs e s) as (Ho & Hs & Hout & Hdb).
    rewrite Hs. repeat split; assumption.
  - pose proof (Hfail 0%nat ltac:(lia)) as H0. cbn [Nat.mul Nat.add] in H0.
    rewrite H0. change (ESRCH =? ESRCH) with true. cbv iota.
    destruct (after_round_esrch kevs s) as (Ht & Ho & Hs & Hout & Hdb).
    destruct (IH (after_round P kevs ESRCH s) tries) as (s' & Hrun & Hs' & Ho' & Hout' & Hdb').
    + intros j Hj. rewrite Ho, Ht. fold kevs.
      replace (2 + 4 * j + (4 + tick s))%nat with (2 + 4 * S j + tick s)%nat by lia.
      apply Hfail. lia.
    + rewrite Ho, Ht. fold kevs.
      replace (2 + 4 * n + (4 + tick s))%nat with (2 + 4 * S n + tick s)%nat by lia.
      exact Hlast.
    + exact Hne.
    + lia.
    + exists s'. split; [exact Hrun|]. rewrite Ho in Hs', Ho'. fold kevs in Hs'.
      split.
      * rewrite Hs', Hs. cbn [replicate].
        change ((kevs, ESRCH) :: replicate n (kevs, ESRCH))
          with (replicate (S n) (kevs, ESRCH)).
        rewrite replicate_S_end, <- app_assoc. reflexivity.
      * repeat split; congruence.
Qed.

Lemma bootstrap_never_settles : forall (tries : nat) (s : state),
  let kevs := map (Ledger.bootstrap_change (opt s)) procs in
  (forall j : nat, kevent_change P (2 + 4 * j + tick s) kevs = ESRCH) ->
  Ledger.bootstrap P tries s = OutOfFuel.
Proof.
  induction tries as [|tries IH]; intros s kevs Hfail; [reflexivity|].
  rewrite (bootstrap_round P tries s procs (Hlist _) (Hmem _)). fold kevs.
  pose proof (Hfail 0%nat) as H0. cbn [Nat.mul Nat.add] in H0.
  rewrite H0. change (ESRCH =? ESRCH) with true. cbv iota.
  destruct (after_round_esrch kevs s) as (Ht & Ho & _).
  apply IH. intros j. rewrite Ho, Ht. fold kevs.
  replace (2 + 4 * j + (4 + tick s))%nat with (2 + 4 * S j + tick s)%nat by lia.
  apply Hfail.
Qed.

End Retries.

(** X15: the retries of the bootstrap in the revision with the table.  With
    a listing and an allocation that succeed, when the call that hands
    the changes to [kevent] fails with [ESRCH] [n] times and then ends
    otherwise, the bootstrap returns after [n + 1] rounds: every round
    has handed over the changes for the whole listing, and the options,
    the output and the table are as before.  There is no bound on the
    retries: as long as every call fails with [ESRCH], the block is run
    again. *)
Theorem bootstrap_retries_until_settled (P : platform) (procs : list kinfo_proc)
    (s : state) :
  (forall t : nat, kvm_getprocs_all P t = Some procs) ->
  (forall t : nat, calloc P t = true) ->
  let kevs := map (Ledger.bootstrap_change (opt s)) procs in
  (forall (n tries : nat) (e : Z),
     (forall j : nat, (j < n)%nat -> kevent_change P (2 + 4 * j + tick s) kevs = ESRCH) ->
     kevent_change P (2 + 4 * n + tick s) kevs = e -> e <> ESRCH ->
     (n < tries)%nat ->
     exists s' : state,
       Ledger.bootstrap P tries s = Done tt s'
       /\ submitted s' = (kevs, e) :: replicate n (kevs, ESRCH) ++ submitted s
       /\ opt s' = opt s /\ output s' = output s /\ pid_db s' = pid_db s)
  /\ ((forall j : nat, kevent_change P (2 + 4 * j + tick s) kevs = ESRCH) ->
      forall tries : nat, Ledger.bootstrap P tries s = OutOfFuel).
Proof.
  intros Hlist Hmem kevs. split.
  - intros n tries e Hfail Hlast Hne Htries.
    exact (bootstrap_converges P procs Hlist Hmem e n s tries Hfail Hlast Hne Htries).
  - intros Hfail tries.
    exact (bootstrap_never_settles P procs Hlist Hmem tries s Hfail).
Qed.

(** On the host whose first submission fails with [ESRCH]: the second
    round settles. *)
Lemma bootstrap_retries_until_settled_witness :
  exists s' : state,
    Ledger.bootstrap host_racy 2 initial = Done tt s'
    /\ submitted s'
       = [(map (Ledger.bootstrap_change (opt initial)) listing, 0);
          (map (Ledger.bootstrap_change (opt initial)) listing, ESRCH)].
Proof.
  destruct (bootstrap_retries_until_settled host_racy listing initial) as [H _].
  - reflexivity.
  - reflexivity.
  - destruct (H 1%nat 2%nat 0) as (s' & Hrun & Hsub & _).
    + intros j Hj. replace j with 0%nat by lia. reflexivity.
    + reflexivity.
    + discriminate.
    + lia.
    + exists s'. split; [exact Hrun | exact Hsub].
Defined.
